(** * pg-boss-prisma: option resolution ([attorney.ts]) and enqueue ([index.ts])

    A shallow embedding of the submission path of pg-boss-prisma and the
    verification of its specification.  JavaScript objects are finite maps
    from property names to values, functions that mutate their argument are
    state-passing computations over that object, and [assert] failures are
    thrown errors. *)

From Stdlib Require Import ZArith Lia Ascii.
From stdpp Require Import base strings gmap list pretty.

Open Scope Z_scope.

(** ** JavaScript values *)

(** Numbers are the integers together with [NaN]: fractions and infinities
    are not covered, and the arithmetic on them is exact, as the code's is
    up to [Number.MAX_SAFE_INTEGER]. *)
Inductive number :=
  | Int (z : Z)
  | NaN.

(** The values an option bag holds: the primitives and [Date] objects
    (standing for their time value in milliseconds; an invalid date, which
    has none, is not covered). *)
Inductive value :=
  | VUndefined
  | VNull
  | VBool (b : bool)
  | VNum (n : number)
  | VStr (s : string)
  | VDate (time : Z).

#[global] Instance number_eq_dec : EqDecision number.
Proof. solve_decision. Defined.
#[global] Instance value_eq_dec : EqDecision value.
Proof. solve_decision. Defined.

Abbreviation obj := (gmap string value).

Coercion VStr : string >-> value.
Definition VInt (z : Z) : value := VNum (Int z).

Definition MAX_SAFE_INTEGER : Z := 9007199254740991.

(** What the host provides and this development does not look into: the
    numeric reading of a string and the two printed forms of a date. *)
Class Host := {
  StringToNumber : string → number;
  DateToISOString : Z → string;
  DateToString : Z → string;
}.

Section Language.
Context `{Host}.

Definition truthy (v : value) : bool :=
  match v with
  | VUndefined | VNull => false
  | VBool b => b
  | VNum (Int z) => negb (z =? 0)
  | VNum NaN => false
  | VStr s => negb (String.eqb s EmptyString)
  | VDate _ => true
  end.

Definition ToNumber (v : value) : number :=
  match v with
  | VUndefined => NaN
  | VNull => Int 0
  | VBool b => Int (if b then 1 else 0)
  | VNum n => n
  | VStr s => StringToNumber s
  | VDate t => Int t
  end.

(** The string of a value; an integer prints as its decimal digits, which
    is the code's below 10^21. *)
Definition ToString (v : value) : string :=
  match v with
  | VUndefined => "undefined"
  | VNull => "null"
  | VBool b => if b then "true" else "false"
  | VNum (Int z) => pretty z
  | VNum NaN => "NaN"
  | VStr s => s
  | VDate t => DateToString t
  end.

Definition typeof (v : value) : string :=
  match v with
  | VUndefined => "undefined"
  | VNull | VDate _ => "object"
  | VBool _ => "boolean"
  | VNum _ => "number"
  | VStr _ => "string"
  end.

(** [Number.isInteger] *)
Definition isInteger (v : value) : bool :=
  match v with VNum (Int _) => true | _ => false end.

Definition num_ltb (a b : number) : bool :=
  match a, b with Int x, Int y => x <? y | _, _ => false end.
Definition num_leb (a b : number) : bool :=
  match a, b with Int x, Int y => x <=? y | _, _ => false end.

(** [a < b]: two strings compare as strings, anything else as numbers. *)
Definition js_lt (a b : value) : bool :=
  match a, b with
  | VStr x, VStr y => String.ltb x y
  | _, _ => num_ltb (ToNumber a) (ToNumber b)
  end.
Definition js_le (a b : value) : bool :=
  match a, b with
  | VStr x, VStr y => String.leb x y
  | _, _ => num_leb (ToNumber a) (ToNumber b)
  end.
Definition js_gt (a b : value) : bool := js_lt b a.
Definition js_ge (a b : value) : bool := js_le b a.

(** [a * b], exact: the product of the code up to
    [Number.MAX_SAFE_INTEGER]. *)
Definition js_mul (a b : value) : value :=
  match ToNumber a, ToNumber b with
  | Int x, Int y => VInt (x * y)
  | _, _ => VNum NaN
  end.

(** [a || b] and [!a] *)
Definition js_or (a b : value) : value := if truthy a then a else b.
Definition js_not (a : value) : bool := negb (truthy a).

(** [a === b]; two dates are two objects. *)
Definition strict_eq (a b : value) : bool :=
  match a, b with
  | VUndefined, VUndefined | VNull, VNull => true
  | VBool x, VBool y => Bool.eqb x y
  | VNum (Int x), VNum (Int y) => x =? y
  | VStr x, VStr y => String.eqb x y
  | _, _ => false
  end.

End Language.

(** ** Objects, references and arguments *)

(** [o.k], [undefined] when [o] has no such property, and ["k" in o]. *)
Definition prop (o : obj) (k : string) : value := default VUndefined (o !! k).
Definition has (k : string) (o : obj) : bool := bool_decide (is_Some (o !! k)).

Notation "o .[ k ]" := (prop o k) (at level 1, left associativity, format "o .[ k ]").

(** An argument is a primitive or date, a reference to an object of the
    heap, or a function. *)
Inductive jsval :=
  | Prim (v : value)
  | Ref (l : nat)
  | Fun.

Definition typeof_arg (a : jsval) : string :=
  match a with
  | Prim v => typeof v
  | Ref _ => "object"
  | Fun => "function"
  end.

Definition truthy_arg (a : jsval) : bool :=
  match a with Prim v => truthy v | Ref _ | Fun => true end.

(** ** Errors and the state monad *)

Inductive error :=
  | AssertionError (message : string)
  | Error (message : string)
  | StorageError (message : string).

Inductive result (A : Type) :=
  | Ok (a : A)
  | Throw (e : error).
Arguments Ok {A} a.
Arguments Throw {A} e.

Definition M (S A : Type) : Type := S → result A * S.

Definition ret {S A} (a : A) : M S A := λ s, (Ok a, s).
Definition bind {S A B} (m : M S A) (f : A → M S B) : M S B :=
  λ s, match m s with
       | (Ok a, s') => f a s'
       | (Throw e, s') => (Throw e, s')
       end.
Definition throw {S A} (e : error) : M S A := λ s, (Throw e, s).

Declare Scope js_scope.
Delimit Scope js_scope with js.
Notation "x ← m ; k" := (bind m (λ x, k))
  (at level 20, m at level 100, k at level 200, only parsing) : js_scope.
Notation "' x ← m ; k" := (bind m (λ x, k))
  (at level 20, x pattern, m at level 100, k at level 200, only parsing) : js_scope.
Notation "m ;; k" := (bind m (λ _, k))
  (at level 100, k at level 200, only parsing, right associativity) : js_scope.
Open Scope js_scope.

(** ** The process: warning flags and the warnings emitted so far *)

Inductive warning := EXPIRE_IN_REMOVED | CLOCK_SKEW | CRON_DISABLED.

#[global] Instance warning_eq_dec : EqDecision warning.
Proof. solve_decision. Defined.

Definition warning_message (w : warning) : string :=
  match w with
  | EXPIRE_IN_REMOVED =>
      "'expireIn' option detected. This option has been removed. Use expireInSeconds, expireInMinutes or expireInHours."
  | CLOCK_SKEW =>
      "Timekeeper detected clock skew between this instance and the database server. This will not affect scheduling operations, but this warning is shown any time the skew exceeds 60 seconds."
  | CRON_DISABLED =>
      "Archive interval is set less than 60s.  Cron processing is disabled."
  end.

Definition warning_code (w : warning) : string :=
  match w with
  | EXPIRE_IN_REMOVED => "pg-boss-w01"
  | CLOCK_SKEW => "pg-boss-w02"
  | CRON_DISABLED => "pg-boss-w03"
  end.

(** One call of [process.emitWarning(message, type, code)]; no entry of
    [WARNINGS] has a [type]. *)
Record emission := { em_message : string; em_code : string }.

Record process := {
  warned : list warning;     (* the entries of WARNINGS whose [warned] is set *)
  emitted : list emission;   (* oldest first *)
}.

Definition process0 : process := {| warned := []; emitted := [] |}.

(** The object a function works on, and the process around it. *)
Record cstate := { config : obj; proc : process }.

Definition read {A} (e : obj → A) : M cstate A := λ s, (Ok (e (config s)), s).

Definition assert {S} (c : bool) (message : string) : M S unit :=
  if c then ret tt else throw (AssertionError message).

(** [assert(e, message)] with [e] over the object *)
Definition assert_on (e : obj → bool) (message : string) : M cstate unit :=
  c ← read e; assert c message.

(** [config.k = e] *)
Definition assign (k : string) (e : obj → value) : M cstate unit :=
  λ s, (Ok tt, {| config := <[k := e (config s)]> (config s); proc := proc s |}).

(** [delete config.k] *)
Definition delete_prop (k : string) : M cstate unit :=
  λ s, (Ok tt, {| config := delete k (config s); proc := proc s |}).

(** [emitWarning(warning, message, { force })]; [message] is [None] when
    the caller passes none. *)
Definition emitWarning (w : warning) (message : option string) (force : bool)
    : M process unit :=
  λ p,
    if force || negb (bool_decide (w ∈ warned p)) then
      let message := warning_message w +:+ " " +:+ default EmptyString message in
      (Ok tt, {| warned := w :: warned p;
                 emitted := emitted p ++ [{| em_message := message; em_code := warning_code w |}] |})
    else (Ok tt, p).

(** A computation of the process, run from a function on an object. *)
Definition on_proc {A} (m : M process A) : M cstate A :=
  λ s, let '(r, p) := m (proc s) in (r, {| config := config s; proc := p |}).

Definition when {S} (c : bool) (m : M S unit) : M S unit :=
  if c then m else ret tt.

(** [if (e) m1 else m2] with [e] over the object *)
Definition if_on {A} (e : obj → bool) (m1 m2 : M cstate A) : M cstate A :=
  c ← read e; if c then m1 else m2.
Definition when_on (e : obj → bool) (m : M cstate unit) : M cstate unit :=
  if_on e m (ret tt).

(** ** attorney.ts *)

Definition DEFAULT_SCHEMA : string := "pgboss".
Definition SINGLETON_QUEUE_KEY : string := "__pgboss__singleton_queue".

Section Attorney.
Context `{Host}.

(** The shape of most range checks: [!(k in config) || (config.k && config.k >= lo)]. *)
Definition at_least (k : string) (lo : Z) (config : obj) : bool :=
  negb (has k config) || (truthy config.[k] && js_ge config.[k] (VInt lo)).

(** The same with an upper bound. *)
Definition between (k : string) (lo hi : Z) (config : obj) : bool :=
  negb (has k config) ||
  (truthy config.[k] && js_ge config.[k] (VInt lo) && js_le config.[k] (VInt hi)).

Definition applySingletonKeyConfig : M cstate unit :=
  when_on (λ options,
      truthy options.["singletonKey"] &&
      truthy options.["useSingletonQueue"] &&
      negb (strict_eq options.["singletonKey"] SINGLETON_QUEUE_KEY))
    (assign "singletonKey" (λ options,
       VStr (SINGLETON_QUEUE_KEY +:+ ToString options.["singletonKey"])));;
  delete_prop "useSingletonQueue".

Definition applyCompletionConfig (defaults : option obj) : M cstate unit :=
  assert_on (λ config,
      negb (has "onComplete" config) ||
      strict_eq config.["onComplete"] (VBool true) ||
      strict_eq config.["onComplete"] (VBool false))
    "configuration assert: onComplete must be either true or false";;
  when_on (λ config, negb (has "onComplete" config))
    (assign "onComplete" (λ _,
       match defaults with Some defaults => defaults.["onComplete"] | None => VBool false end)).

Definition applyRetentionConfig (defaults : option obj) : M cstate unit :=
  assert_on (at_least "retentionSeconds" 1)
    "configuration assert: retentionSeconds must be at least every second";;
  assert_on (at_least "retentionMinutes" 1)
    "configuration assert: retentionMinutes must be at least every minute";;
  assert_on (at_least "retentionHours" 1)
    "configuration assert: retentionHours must be at least every hour";;
  assert_on (at_least "retentionDays" 1)
    "configuration assert: retentionDays must be at least every day";;
  keepUntil ← read (λ config,
    if has "retentionDays" config then
      VStr (ToString config.["retentionDays"] +:+ " days")
    else if has "retentionHours" config then
      VStr (ToString config.["retentionHours"] +:+ " hours")
    else if has "retentionMinutes" config then
      VStr (ToString config.["retentionMinutes"] +:+ " minutes")
    else if has "retentionSeconds" config then
      VStr (ToString config.["retentionSeconds"] +:+ " seconds")
    else match defaults with Some defaults => defaults.["keepUntil"] | None => VStr "14 days" end);
  assign "keepUntil" (λ _, keepUntil).

Definition applyExpirationConfig (defaults : option obj) : M cstate unit :=
  when_on (has "expireIn") (on_proc (emitWarning EXPIRE_IN_REMOVED None false));;
  assert_on (at_least "expireInSeconds" 1)
    "configuration assert: expireInSeconds must be at least every second";;
  assert_on (at_least "expireInMinutes" 1)
    "configuration assert: expireInMinutes must be at least every minute";;
  assert_on (at_least "expireInHours" 1)
    "configuration assert: expireInHours must be at least every hour";;
  expireIn ← read (λ config,
    if has "expireInHours" config then
      VStr (ToString config.["expireInHours"] +:+ " hours")
    else if has "expireInMinutes" config then
      VStr (ToString config.["expireInMinutes"] +:+ " minutes")
    else if has "expireInSeconds" config then
      VStr (ToString config.["expireInSeconds"] +:+ " seconds")
    else match defaults with Some defaults => defaults.["expireIn"] | None => VStr "15 minutes" end);
  assign "expireIn" (λ _, expireIn).

Definition applyRetryConfig (defaults : option obj) : M cstate unit :=
  assert_on (λ config,
      negb (has "retryDelay" config) ||
      (isInteger config.["retryDelay"] &&
       truthy config.["retryDelay"] &&
       js_ge config.["retryDelay"] (VInt 0)))
    "retryDelay must be an integer >= 0";;
  assert_on (λ config,
      negb (has "retryLimit" config) ||
      (isInteger config.["retryLimit"] &&
       truthy config.["retryLimit"] &&
       js_ge config.["retryLimit"] (VInt 0)))
    "retryLimit must be an integer >= 0";;
  assert_on (λ config,
      negb (has "retryBackoff" config) ||
      strict_eq config.["retryBackoff"] (VBool true) ||
      strict_eq config.["retryBackoff"] (VBool false))
    "retryBackoff must be either true or false";;
  match defaults with
  | Some defaults =>
      assign "retryDelay" (λ config, js_or config.["retryDelay"] defaults.["retryDelay"]);;
      assign "retryLimit" (λ config, js_or config.["retryLimit"] defaults.["retryLimit"]);;
      assign "retryBackoff" (λ config, js_or config.["retryBackoff"] defaults.["retryBackoff"])
  | None => ret tt
  end;;
  assign "retryDelay" (λ config, js_or config.["retryDelay"] (VInt 0));;
  assign "retryLimit" (λ config, js_or config.["retryLimit"] (VInt 0));;
  assign "retryBackoff" (λ config, VBool (truthy config.["retryBackoff"]));;
  assign "retryDelay" (λ config,
    if truthy config.["retryBackoff"] && js_not config.["retryDelay"]
    then VInt 1 else config.["retryDelay"]);;
  assign "retryLimit" (λ config,
    if truthy config.["retryDelay"] && js_not config.["retryLimit"]
    then VInt 1 else config.["retryLimit"]).

Definition applyNewJobCheckInterval (defaults : option obj) : M cstate unit :=
  let second := 1000 in
  assert_on (at_least "newJobCheckInterval" 100)
    "configuration assert: newJobCheckInterval must be at least every 100ms";;
  assert_on (at_least "newJobCheckIntervalSeconds" 1)
    "configuration assert: newJobCheckIntervalSeconds must be at least every second";;
  assign "newJobCheckInterval" (λ config,
    if truthy config.["newJobCheckIntervalSeconds"] then
      js_mul config.["newJobCheckIntervalSeconds"] (VInt second)
    else if has "newJobCheckInterval" config then config.["newJobCheckInterval"]
    else match defaults with Some defaults => defaults.["newJobCheckInterval"] | None => VInt (second * 2) end).

(** [/\W/.test(s)]: some character is not a letter, a digit or [_]. *)
Definition is_word (c : Ascii.ascii) : bool :=
  let n := Ascii.N_of_ascii c in
  ((48 <=? n) && (n <=? 57) || (65 <=? n) && (n <=? 90) ||
   (97 <=? n) && (n <=? 122) || (n =? 95))%N.
Definition test_non_word (s : string) : bool :=
  existsb (λ c, negb (is_word c)) (String.list_ascii_of_string s).

(** [v.length] of a truthy value: strings have one. *)
Definition js_length (v : value) : value :=
  match v with
  | VStr s => VInt (Z.of_nat (String.length s))
  | _ => VUndefined
  end.

Definition applyDatabaseConfig : M cstate unit :=
  when_on (λ config, truthy config.["schema"])
    (assert_on (λ config, String.eqb (typeof config.["schema"]) "string")
       "configuration assert: schema must be a string";;
     assert_on (λ config, js_le (js_length config.["schema"]) (VInt 50))
       "configuration assert: schema name cannot exceed 50 characters";;
     schema ← read (λ config, ToString config.["schema"]);
     assert (negb (test_non_word schema))
       ("configuration assert: " +:+ schema +:+
        " cannot be used as a schema. Only alphanumeric characters and underscores are allowed"));;
  assign "schema" (λ config, js_or config.["schema"] DEFAULT_SCHEMA).

Definition applyArchiveConfig : M cstate unit :=
  let ARCHIVE_DEFAULT := 60 * 60 * 12 in
  assert_on (at_least "archiveCompletedAfterSeconds" 1)
    "configuration assert: archiveCompletedAfterSeconds must be at least every second and less than ";;
  assign "archiveSeconds" (λ config,
    js_or config.["archiveCompletedAfterSeconds"] (VInt ARCHIVE_DEFAULT));;
  assign "archiveInterval" (λ config,
    VStr (ToString config.["archiveSeconds"] +:+ " seconds"));;
  when_on (λ config, js_lt config.["archiveSeconds"] (VInt 60))
    (on_proc (emitWarning CRON_DISABLED None false)).

Definition applyArchiveFailedConfig : M cstate unit :=
  assert_on (at_least "archiveFailedAfterSeconds" 1)
    "configuration assert: archiveFailedAfterSeconds must be at least every second and less than ";;
  assign "archiveFailedSeconds" (λ config,
    js_or config.["archiveFailedAfterSeconds"] config.["archiveSeconds"]);;
  assign "archiveFailedInterval" (λ config,
    VStr (ToString config.["archiveFailedSeconds"] +:+ " seconds"));;
  (* Do not emit warning twice *)
  when_on (λ config,
      truthy config.["archiveFailedSeconds"] &&
      js_lt config.["archiveFailedSeconds"] (VInt 60) &&
      truthy config.["archiveSeconds"] &&
      js_ge config.["archiveSeconds"] (VInt 60))
    (on_proc (emitWarning CRON_DISABLED None false)).

Definition applyMaintenanceConfig : M cstate unit :=
  assert_on (at_least "maintenanceIntervalSeconds" 1)
    "configuration assert: maintenanceIntervalSeconds must be at least every second";;
  assert_on (at_least "maintenanceIntervalMinutes" 1)
    "configuration assert: maintenanceIntervalMinutes must be at least every minute";;
  if_on (λ config, truthy config.["maintenanceIntervalMinutes"])
    (assign "maintenanceIntervalSeconds" (λ config,
       js_mul config.["maintenanceIntervalMinutes"] (VInt 60)))
    (if_on (λ config, truthy config.["maintenanceIntervalSeconds"])
       (assign "maintenanceIntervalSeconds" (λ config, config.["maintenanceIntervalSeconds"]))
       (assign "maintenanceIntervalSeconds" (λ _, VInt 120))).

Definition applyDeleteConfig : M cstate unit :=
  assert_on (at_least "deleteAfterSeconds" 1)
    "configuration assert: deleteAfterSeconds must be at least every second";;
  assert_on (at_least "deleteAfterMinutes" 1)
    "configuration assert: deleteAfterMinutes must be at least every minute";;
  assert_on (at_least "deleteAfterHours" 1)
    "configuration assert: deleteAfterHours must be at least every hour";;
  assert_on (at_least "deleteAfterDays" 1)
    "configuration assert: deleteAfterDays must be at least every day";;
  deleteAfter ← read (λ config,
    if has "deleteAfterDays" config then
      ToString config.["deleteAfterDays"] +:+ " days"
    else if has "deleteAfterHours" config then
      ToString config.["deleteAfterHours"] +:+ " hours"
    else if has "deleteAfterMinutes" config then
      ToString config.["deleteAfterMinutes"] +:+ " minutes"
    else if has "deleteAfterSeconds" config then
      ToString config.["deleteAfterSeconds"] +:+ " seconds"
    else "7 days");
  assign "deleteAfter" (λ _, VStr deleteAfter).

Definition applyMonitoringConfig : M cstate unit :=
  assert_on (at_least "monitorStateIntervalSeconds" 1)
    "configuration assert: monitorStateIntervalSeconds must be at least every second";;
  assert_on (at_least "monitorStateIntervalMinutes" 1)
    "configuration assert: monitorStateIntervalMinutes must be at least every minute";;
  if_on (λ config, truthy config.["monitorStateIntervalMinutes"])
    (assign "monitorStateIntervalSeconds" (λ config,
       js_mul config.["monitorStateIntervalMinutes"] (VInt 60)))
    (if_on (λ config, truthy config.["monitorStateIntervalSeconds"])
       (assign "monitorStateIntervalSeconds" (λ config, config.["monitorStateIntervalSeconds"]))
       (assign "monitorStateIntervalSeconds" (λ _, VNull)));;
  let TEN_MINUTES_IN_SECONDS := 600 in
  assert_on (between "clockMonitorIntervalSeconds" 1 TEN_MINUTES_IN_SECONDS)
    "configuration assert: clockMonitorIntervalSeconds must be between 1 second and 10 minutes";;
  assert_on (between "clockMonitorIntervalMinutes" 1 10)
    "configuration assert: clockMonitorIntervalMinutes must be between 1 and 10";;
  if_on (λ config, truthy config.["clockMonitorIntervalMinutes"])
    (assign "clockMonitorIntervalSeconds" (λ config,
       js_mul config.["clockMonitorIntervalMinutes"] (VInt 60)))
    (if_on (λ config, truthy config.["clockMonitorIntervalSeconds"])
       (assign "clockMonitorIntervalSeconds" (λ config, config.["clockMonitorIntervalSeconds"]))
       (assign "monitorStateIntervalSeconds" (λ _, VInt TEN_MINUTES_IN_SECONDS)));;
  assert_on (between "cronMonitorIntervalSeconds" 1 60)
    "configuration assert: cronMonitorIntervalSeconds must be between 1 and 60 seconds";;
  assign "cronMonitorIntervalSeconds" (λ config,
    if has "cronMonitorIntervalSeconds" config
    then config.["cronMonitorIntervalSeconds"] else VInt 60);;
  assert_on (between "cronWorkerIntervalSeconds" 1 60)
    "configuration assert: cronWorkerIntervalSeconds must be between 1 and 60 seconds";;
  assign "cronWorkerIntervalSeconds" (λ config,
    if has "cronWorkerIntervalSeconds" config
    then config.["cronWorkerIntervalSeconds"] else VInt 4).

Definition applyUuidConfig : M cstate unit :=
  assert_on (λ config,
      negb (has "uuid" config) ||
      strict_eq config.["uuid"] (VStr "v1") ||
      strict_eq config.["uuid"] (VStr "v4"))
    "configuration assert: uuid option only supports v1 or v4";;
  assign "uuid" (λ config, js_or config.["uuid"] (VStr "v4")).

End Attorney.

(** ** The world: a heap of objects, the process and the database *)

(** A row of the [job] table, as the parameters of the statement that
    built it: [startAfter] and [keepUntil] are kept as the values they are
    computed from, next to [now()] of the statement. *)
Record job := {
  job_id : jsval;
  job_name : jsval;
  job_priority : jsval;
  job_state : string;
  job_retryLimit : jsval;
  job_startAfterValue : jsval;
  job_now : Z;
  job_expireIn : jsval;
  job_data : jsval;
  job_singletonKey : jsval;
  job_singletonOn : option Z;     (* seconds since the epoch *)
  job_retryDelay : jsval;
  job_retryBackoff : jsval;
  job_keepUntilValue : jsval;
  job_on_complete : jsval;
}.

#[global] Instance jsval_eq_dec : EqDecision jsval.
Proof. solve_decision. Defined.

Record world := {
  heap : list obj;
  wproc : process;
  db : gmap string (list job);    (* the [job] table of each schema *)
}.

Definition deref (l : nat) (h : list obj) : obj := default ∅ (h !! l).

Definition gets {A} (e : list obj → A) : M world A := λ w, (Ok (e (heap w)), w).

(** A new object on the heap. *)
Definition alloc (o : obj) : M world nat :=
  λ w, (Ok (length (heap w)),
        {| heap := heap w ++ [o]; wproc := wproc w; db := db w |}).

(** A function on an object, run on the object at [l]. *)
Definition zoom {A} (l : nat) (m : M cstate A) : M world A :=
  λ w, let '(r, s) := m {| config := deref l (heap w); proc := wproc w |} in
       (r, {| heap := <[l := config s]> (heap w); wproc := proc s; db := db w |}).

Definition on_process {A} (m : M process A) : M world A :=
  λ w, let '(r, p) := m (wproc w) in
       (r, {| heap := heap w; wproc := p; db := db w |}).

Fixpoint mapM {S A B} (f : A → M S B) (l : list A) : M S (list B) :=
  match l with
  | [] => ret []
  | a :: l => b ← f a; bs ← mapM f l; ret (b :: bs)
  end.

Definition undefined : jsval := Prim VUndefined.

(** [{ ...a }]: the properties of an object, the characters of a string,
    nothing for any other value. *)
Definition spread (a : jsval) (h : list obj) : obj :=
  match a with
  | Ref l => deref l h
  | Prim (VStr s) =>
      list_to_map (imap (λ i c, (pretty i, VStr (String c EmptyString)))
                        (String.list_ascii_of_string s))
  | _ => ∅
  end.

(** What [checkSendArgs] is called with: an array (the tuple form) or a
    [Request] object. *)
Inductive Args :=
  | ArgsArray (elems : list jsval)
  | ArgsObject (name data options : jsval).

(** [args[i]], [args.name], [args.data], [args.options] *)
Definition arg_index (args : Args) (i : nat) : jsval :=
  match args with
  | ArgsArray elems => default undefined (elems !! i)
  | ArgsObject _ _ _ => undefined
  end.
Definition arg_name (args : Args) : jsval :=
  match args with ArgsArray _ => undefined | ArgsObject name _ _ => name end.
Definition arg_data (args : Args) : jsval :=
  match args with ArgsArray _ => undefined | ArgsObject _ data _ => data end.
Definition arg_options (args : Args) : jsval :=
  match args with ArgsArray _ => undefined | ArgsObject _ _ options => options end.

Record Request := { name : jsval; data : jsval; options : nat }.

Section Resolve.
Context `{Host}.

(** Lines 116 to 152 of [checkSendArgs]: what it does to [options] once
    it holds the private copy. *)
Definition resolveOptions (defaults : obj) : M cstate unit :=
  assert_on (λ options,
      negb (has "priority" options) || isInteger options.["priority"])
    "priority must be an integer";;
  assign "priority" (λ options, js_or options.["priority"] (VInt 0));;
  applyRetryConfig (Some defaults);;
  applyExpirationConfig (Some defaults);;
  applyRetentionConfig (Some defaults);;
  applyCompletionConfig (Some defaults);;
  applySingletonKeyConfig;;
  '(startAfter, singletonSeconds, singletonMinutes, singletonHours) ←
    read (λ options,
      (options.["startAfter"], options.["singletonSeconds"],
       options.["singletonMinutes"], options.["singletonHours"]));
  match startAfter with
  | VDate t => assign "startAfter" (λ _, VStr (DateToISOString t))
  | _ =>
      if truthy startAfter && js_gt startAfter (VInt 0) then
        assign "startAfter" (λ _, VStr (ToString startAfter))
      else if String.eqb (typeof startAfter) "string" then
        assign "startAfter" (λ _, startAfter)
      else assign "startAfter" (λ _, VNull)
  end;;
  (if truthy singletonHours && js_gt singletonHours (VInt 0) then
     assign "singletonSeconds" (λ _, js_mul (js_mul singletonHours (VInt 60)) (VInt 60))
   else if truthy singletonMinutes && js_gt singletonMinutes (VInt 0) then
     assign "singletonSeconds" (λ _, js_mul singletonMinutes (VInt 60))
   else if truthy singletonSeconds && js_gt singletonSeconds (VInt 0) then
     assign "singletonSeconds" (λ _, js_mul singletonSeconds (VInt 60))
   else assign "singletonSeconds" (λ _, VNull));;
  assert
    (js_not singletonSeconds ||
     (truthy defaults.["archiveSeconds"] &&
      js_le singletonSeconds defaults.["archiveSeconds"]))
    ("throttling interval " +:+ ToString singletonSeconds +:+
     "s cannot exceed archive interval " +:+
     ToString defaults.["archiveSeconds"] +:+ "s").

(** [defaults] is an object, as the signature has it. *)
Definition checkSendArgs (args : Args) (defaults : obj) : M world Request :=
  '(name, data, options) ←
    (if String.eqb (typeof_arg (arg_index args 0)) "string" then
       let argName := arg_index args 0 in
       let argData := arg_index args 1 in
       let argOptions := arg_index args 2 in
       if String.eqb (typeof_arg argData) "function" then
         throw (Error "send() cannot accept a function as the payload. Did you intend to use work()?")
       else ret (argName, argData, argOptions)
     else if String.eqb (typeof_arg (arg_index args 0)) "object" then
       (* job = args, which is an object *)
       assert true "boss requires all jobs to have a name";;
       ret (arg_name args, arg_data args, arg_options args)
     else ret (arg_name args, undefined, undefined));
  options ← (if truthy_arg options then ret options
             else l ← alloc ∅; ret (Ref l));
  assert (truthy_arg name) "boss requires all jobs to have a queue name";;
  assert (String.eqb (typeof_arg options) "object") "options should be an object";;
  copy ← gets (spread options);
  options ← alloc copy;
  zoom options (resolveOptions defaults);;
  ret {| name := name; data := data; options := options |}.

(** What [checkInsertArgs] is called with: an array or anything else. *)
Inductive JobsArg :=
  | JobsArray (jobs : list jsval)
  | JobsOther (v : jsval).

Definition checkInsertArgs (jobs : JobsArg) : M world (list nat) :=
  match jobs with
  | JobsOther v =>
      throw (AssertionError
        ("jobs argument should be an array.  Received '" +:+ typeof_arg v +:+ "'"))
  | JobsArray jobs =>
      mapM (λ job,
          copy ← gets (spread job);
          job ← alloc copy;
          zoom job applySingletonKeyConfig;;
          ret job)
        jobs
  end.

Definition getConfig (value : jsval) : M world nat :=
  assert
    (truthy_arg value &&
     (String.eqb (typeof_arg value) "object" || String.eqb (typeof_arg value) "string"))
    "configuration assert: string or config object is required to connect to postgres";;
  copy ← gets (λ h,
    match value with
    | Prim (VStr s) => {[ "connectionString" := VStr s ]}
    | _ => spread value h
    end);
  config ← alloc copy;
  zoom config
    (applyDatabaseConfig;;
     applyMaintenanceConfig;;
     applyArchiveConfig;;
     applyArchiveFailedConfig;;
     applyDeleteConfig;;
     applyMonitoringConfig;;
     applyUuidConfig;;
     applyNewJobCheckInterval None;;
     applyExpirationConfig None;;
     applyRetentionConfig None;;
     applyCompletionConfig None);;
  ret config.

Definition warnClockSkew (message : string) : M world unit :=
  on_process (emitWarning CLOCK_SKEW (Some message) true).

End Resolve.

(** ** attorney.ts: the arguments of [work] and [fetch] *)

(** [name.replace(/[%_*]/g, (match) => match === "*" ? "%" : "\\" + match)]:
    a string is its bytes, of which only the three ASCII characters match. *)
Definition backslash : Ascii.ascii := Ascii.ascii_of_nat 92.

Definition sanitize_match (c : Ascii.ascii) : bool :=
  Ascii.eqb c "%" || Ascii.eqb c "_" || Ascii.eqb c "*".

Fixpoint sanitizeQueueNameForFetch (name : string) : string :=
  match name with
  | EmptyString => EmptyString
  | String c rest =>
      if sanitize_match c then
        (if Ascii.eqb c "*" then String "%" EmptyString
         else String backslash (String c EmptyString))
        +:+ sanitizeQueueNameForFetch rest
      else String c (sanitizeQueueNameForFetch rest)
  end.

(** What [checkWorkArgs] is called with: an array (the tuple form) or
    anything else. *)
Inductive WorkArgs :=
  | WorkArray (elems : list jsval)
  | WorkOther (v : jsval).

Record Work := { work_options : nat; work_callback : jsval }.

(** The integer checks of [checkWorkArgs]:
    [!(k in options) || (Number.isInteger(options.k) && options.k && options.k >= lo)]. *)
Section Fetch.
Context `{Host}.

Definition integer_at_least (k : string) (lo : Z) (options : obj) : bool :=
  negb (has k options) ||
  (isInteger options.[k] && truthy options.[k] && js_ge options.[k] (VInt lo)).

Definition boolean_if_present (k : string) (options : obj) : bool :=
  negb (has k options) || String.eqb (typeof options.[k]) "boolean".

(** Lines 209 to 245 of [checkWorkArgs]: what it does to [options] once
    it holds the private copy. *)
Definition resolveWorkOptions (defaults : obj) : M cstate unit :=
  applyNewJobCheckInterval (Some defaults);;
  assert_on (λ options,
      negb (has "teamConcurrency" options) ||
      (isInteger options.["teamConcurrency"] &&
       truthy options.["teamConcurrency"] &&
       js_ge options.["teamConcurrency"] (VInt 1) &&
       js_le options.["teamConcurrency"] (VInt 1000)))
    "teamConcurrency must be an integer between 1 and 1000";;
  assert_on (integer_at_least "teamSize" 1) "teamSize must be an integer > 0";;
  assert_on (integer_at_least "batchSize" 1) "batchSize must be an integer > 0";;
  assert_on (boolean_if_present "includeMetadata") "includeMetadata must be a boolean";;
  assert_on (boolean_if_present "enforceSingletonQueueActiveLimit")
    "enforceSingletonQueueActiveLimit must be a boolean".

(** [defaults] is an object, as the signature has it. *)
Definition checkWorkArgs (name : value) (args : WorkArgs) (defaults : obj) : M world Work :=
  assert (truthy name) "missing job name";;
  '(options, callback) ←
    match args with
    | WorkOther v => l ← alloc ∅; ret (Ref l, v)
    | WorkArray elems =>
        let first := default undefined (elems !! 0%nat) in
        options ← (if truthy_arg first then ret first else l ← alloc ∅; ret (Ref l));
        ret (options, default undefined (elems !! 1%nat))
    end;
  assert (String.eqb (typeof_arg callback) "function") "expected callback to be a function";;
  assert (String.eqb (typeof_arg options) "object") "expected config to be an object";;
  copy ← gets (spread options);
  options ← alloc copy;
  zoom options (resolveWorkOptions defaults);;
  ret {| work_options := options; work_callback := callback |}.

(** [name] is a string and [options] an object, as the signature has them. *)
Definition checkFetchArgs (name : string) (batchSize : value) (options : obj)
    : M world string :=
  assert (truthy (VStr name)) "missing queue name";;
  let name := sanitizeQueueNameForFetch name in
  assert (js_not batchSize || (isInteger batchSize && js_ge batchSize (VInt 1)))
    "batchSize must be an integer > 0";;
  assert (boolean_if_present "includeMetadata" options) "includeMetadata must be a boolean";;
  assert (boolean_if_present "enforceSingletonQueueActiveLimit" options)
    "enforceSingletonQueueActiveLimit must be a boolean";;
  ret name.

End Fetch.

(** ** index.ts *)

Definition pgBossConfig : option obj :=
  Some {[ "keepUntil" := VStr "14 days"; "expireIn" := VStr "15 minutes" ]}.

(** [$i] of a statement, [NULL] when there is no such parameter. *)
Definition param (values : list jsval) (i : nat) : jsval :=
  default (Prim VNull) (values !! pred i).

Definition sql_null (v : jsval) : bool :=
  match v with Prim VNull | Prim VUndefined => true | _ => false end.

(** *** The casts of the statement

    The statement is the repository's; what the driver and PostgreSQL make
    of a parameter under a cast is not.  This much is taken as known: a null
    parameter is null under every cast, a string is its own text, an integer
    is read as itself and is refused by [::int] outside the range of four
    bytes, a boolean is read as a boolean, and a null text is read by the
    casts to an interval, as null or as ['0'].  The rest is not looked into: which texts are read as
    a [uuid], an [interval] or a [timestamp with time zone], which values as
    [jsonb], what becomes of a parameter whose type is not the one of its
    cast, and which rows the [job] table admits by its constraints other
    than the uniqueness of the slot (the table is declared outside this
    repository). *)
Class Postgres := {
  reads_uuid : string → bool;
  reads_interval : string → bool;
  reads_timestamptz : string → bool;
  reads_jsonb : jsval → bool;
  reads_boolean : jsval → bool;
  text_of : jsval → option string;
  number_of : jsval → option Z;
  admits : job → bool;
}.

Definition and_then {A B} (r : result A) (k : A → result B) : result B :=
  match r with
  | Ok a => k a
  | Throw e => Throw e
  end.

Definition int4 (z : Z) : bool := (-2147483648 <=? z) && (z <=? 2147483647).

Section Statement.
Context `{Postgres}.

(** [$i::uuid] *)
Definition cast_uuid (v : jsval) : result unit :=
  match v with
  | Prim (VStr s) =>
      if reads_uuid s then Ok tt
      else Throw (StorageError "invalid input syntax for type uuid")
  | _ => Throw (StorageError "invalid input syntax for type uuid")
  end.

(** [$i::text]: the text of the column, none for [NULL]. *)
Definition cast_text (v : jsval) : result (option string) :=
  if sql_null v then Ok None
  else match v with
       | Prim (VStr s) => Ok (Some s)
       | _ =>
           match text_of v with
           | Some s => Ok (Some s)
           | None => Throw (StorageError "invalid input syntax for type text")
           end
       end.

(** A parameter that is used as a number. *)
Definition cast_number (v : jsval) : result (option Z) :=
  if sql_null v then Ok None
  else match v with
       | Prim (VNum (Int z)) => Ok (Some z)
       | _ =>
           match number_of v with
           | Some z => Ok (Some z)
           | None => Throw (StorageError "invalid input syntax for type integer")
           end
       end.

(** [$i::int] *)
Definition cast_int (v : jsval) : result (option Z) :=
  and_then (cast_number v) (λ n,
    match n with
    | Some z => if int4 z then Ok (Some z) else Throw (StorageError "integer out of range")
    | None => Ok None
    end).

(** [$i::bool] *)
Definition cast_bool (v : jsval) : result unit :=
  if sql_null v then Ok tt
  else match v with
       | Prim (VBool _) => Ok tt
       | _ =>
           if reads_boolean v then Ok tt
           else Throw (StorageError "invalid input syntax for type boolean")
       end.

(** [$i::jsonb] *)
Definition cast_jsonb (v : jsval) : result unit :=
  if sql_null v || reads_jsonb v then Ok tt
  else Throw (StorageError "invalid input syntax for type json").

(** [CAST(text as interval)] *)
Definition cast_interval (text : option string) : result unit :=
  match text with
  | Some text =>
      if reads_interval text then Ok tt
      else Throw (StorageError "invalid input syntax for type interval")
  | None => Ok tt
  end.

Definition ends_in_Z (text : string) : bool :=
  match last (String.list_ascii_of_string text) with
  | Some c => Ascii.eqb c "Z"
  | None => false
  end.

(** [CASE WHEN right(text, 1) = 'Z' THEN CAST(text as timestamp with time zone)
    ELSE base + CAST(COALESCE(text, '0') as interval) END], for [startAfter]
    and for [keepUntil] *)
Definition cast_moment (text : option string) : result unit :=
  match text with
  | Some text =>
      if ends_in_Z text then
        if reads_timestamptz text then Ok tt
        else Throw (StorageError "invalid input syntax for type timestamp with time zone")
      else cast_interval (Some text)
  | None => cast_interval None
  end.

(** [CASE WHEN $9::integer IS NOT NULL THEN 'epoch'::timestamp +
    '1 second'::interval * ($9 * floor((date_part('epoch', now()) + $10) / $9))
    ELSE NULL END], in seconds since the epoch.  With integers for [$9] and
    [$10], the fraction of a second of [now()] does not change the floor:
    [now] is in whole seconds. *)
Definition singletonOn (now : Z) (p9 p10 : jsval) : result (option Z) :=
  and_then (cast_int p9) (λ seconds,
    match seconds with
    | None => Ok None
    | Some seconds =>
        and_then (cast_number p10) (λ offset,
          match offset with
          | None => Ok None
          | Some offset =>
              if seconds =? 0 then Throw (StorageError "division by zero")
              else Ok (Some (seconds * ((now + offset) / seconds)))
          end)
    end).

(** The text of a column of a row: none for [NULL]. *)
Definition column_text (v : jsval) : option string :=
  match cast_text v with
  | Ok text => text
  | Throw _ => None
  end.

(** Modelled from the spec: the uniqueness constraint of the [job] table,
    which the schema of pg-boss declares and this repository does not.  The
    spec has it over [(name, singletonKey, singletonOn)] where
    [singletonKey] is not null. *)
Definition unique_violation (j : job) (table : list job) : bool :=
  negb (sql_null (job_singletonKey j)) &&
  existsb (λ r,
      bool_decide (column_text (job_name r) = column_text (job_name j) ∧
                   column_text (job_singletonKey r) = column_text (job_singletonKey j) ∧
                   job_singletonOn r = job_singletonOn j))
    table.

(** The row that the [SELECT] of the statement builds from [values], with
    [on] for its [singletonOn]. *)
Definition newJob (values : list jsval) (now : Z) (on : option Z) : job := {|
  job_id := param values 1;
  job_name := param values 2;
  job_priority := param values 3;
  job_state := "created";
  job_retryLimit := param values 4;
  job_startAfterValue := param values 5;
  job_now := now;
  job_expireIn := param values 6;
  job_data := param values 7;
  job_singletonKey := param values 8;
  job_singletonOn := on;
  job_retryDelay := param values 11;
  job_retryBackoff := param values 12;
  job_keepUntilValue := param values 13;
  job_on_complete := param values 14;
|}.

(** The casts of the parameters other than [$1], [$9] and [$10].  Which
    failure is reported when several casts fail is PostgreSQL's; here it is
    the first in the order of the statement. *)
Definition casts (values : list jsval) : result unit :=
  and_then (cast_text (param values 2)) (λ _,
  and_then (cast_int (param values 3)) (λ _,
  and_then (cast_int (param values 4)) (λ _,
  and_then (cast_text (param values 5)) (λ startAfterValue,
  and_then (and_then (cast_text (param values 6)) cast_interval) (λ _,
  and_then (cast_jsonb (param values 7)) (λ _,
  and_then (cast_text (param values 8)) (λ _,
  and_then (cast_int (param values 11)) (λ _,
  and_then (cast_bool (param values 12)) (λ _,
  and_then (cast_text (param values 13)) (λ keepUntilValue,
  and_then (cast_bool (param values 14)) (λ _,
  and_then (cast_moment startAfterValue) (λ _,
  cast_moment keepUntilValue)))))))))))).

(** The row of the three nested [SELECT]s, or the failure of a cast. *)
Definition selectJob (values : list jsval) (now : Z) : result job :=
  and_then (cast_uuid (param values 1)) (λ _,
  and_then (casts values) (λ _,
  and_then (singletonOn now (param values 9) (param values 10)) (λ on,
  Ok (newJob values now on)))).

(** The statement of [createJob]: [INSERT INTO schema.job (...) SELECT ...
    ON CONFLICT DO NOTHING RETURNING id], run with [values] at time [now].
    It returns the [id] of the row it inserted, or no row.  A row that the
    table does not admit is an error; a row whose slot is taken is none. *)
Definition insertJob (schema : string) (values : list jsval) (now : Z)
    : M world (list jsval) :=
  λ w,
    match db w !! schema with
    | None => (Throw (StorageError ("relation " +:+ schema +:+ ".job does not exist")), w)
    | Some table =>
        match selectJob values now with
        | Throw e => (Throw e, w)
        | Ok j =>
            if negb (admits j) then
              (Throw (StorageError ("new row for relation " +:+ schema +:+
                                    ".job violates a constraint")), w)
            else if unique_violation j table then (Ok [], w)
            else (Ok [job_id j],
                  {| heap := heap w; wproc := wproc w;
                     db := <[schema := table ++ [j]]> (db w) |})
        end
    end.

End Statement.

Section Index.
Context `{Host} `{Postgres}.

(** The fourteen parameters of the statement.  [id] is what [uuid()]
    returns to this call. *)
Definition insertValues (id : string) (name data : jsval) (options : option obj)
    : list jsval :=
  let '(keepUntil, expireIn, singletonOffset) :=
    match options with
    | Some options =>
        (if has "retentionDays" options then
           VStr (ToString options.["retentionDays"] +:+ " days")
         else if has "retentionHours" options then
           VStr (ToString options.["retentionHours"] +:+ " hours")
         else if has "retentionMinutes" options then
           VStr (ToString options.["retentionMinutes"] +:+ " minutes")
         else if has "retentionSeconds" options then
           VStr (ToString options.["retentionSeconds"] +:+ " seconds")
         else match pgBossConfig with
              | Some pgBossConfig => pgBossConfig.["keepUntil"]
              | None => VStr "14 days"
              end,
         if has "expireInHours" options then
           VStr (ToString options.["expireInHours"] +:+ " hours")
         else if has "expireInMinutes" options then
           VStr (ToString options.["expireInMinutes"] +:+ " minutes")
         else if has "expireInSeconds" options then
           VStr (ToString options.["expireInSeconds"] +:+ " seconds")
         else match pgBossConfig with
              | Some pgBossConfig => pgBossConfig.["expireIn"]
              | None => VStr "15 minutes"
              end,
         (* Number("singletonOffset" in options) *)
         VInt (if has "singletonOffset" options then 1 else 0))
    | None => (VStr "14 days", VStr "15 minutes", VInt 0)
    end in
  let options : obj := default ∅ options in
  let priority := options.["priority"] in
  let startAfter := options.["startAfter"] in
  let singletonKey :=
    match options.["singletonKey"] with VUndefined => VNull | v => v end in
  let singletonSeconds := options.["singletonSeconds"] in
  let retryBackoff := options.["retryBackoff"] in
  let retryLimit := options.["retryLimit"] in
  let retryDelay := options.["retryDelay"] in
  let onComplete :=
    match options.["onComplete"] with VUndefined => VBool false | v => v end in
  [ Prim (VStr id);        (* 1 *)
    name;                  (* 2 *)
    Prim priority;         (* 3 *)
    Prim retryLimit;       (* 4 *)
    Prim startAfter;       (* 5 *)
    Prim expireIn;         (* 6 *)
    data;                  (* 7 *)
    Prim singletonKey;     (* 8 *)
    Prim singletonSeconds; (* 9 *)
    Prim singletonOffset;  (* 10 *)
    Prim retryDelay;       (* 11 *)
    Prim retryBackoff;     (* 12 *)
    Prim keepUntil;        (* 13 *)
    Prim onComplete        (* 14 *) ].

(** [this.config] is an object, so [schema] is its [schema]; [id] and
    [now] are what [uuid()] and the database clock give to this call. *)
Definition createJob (config : obj) (id : string) (now : Z)
    (name data : jsval) (options : option nat) : M world (list jsval) :=
  let schema := ToString config.["schema"] in
  options ← gets (λ h, (λ l, deref l h) <$> options);
  insertJob schema (insertValues id name data options) now.

Definition send (config : obj) (id : string) (now : Z) (args : list jsval)
    : M world (list jsval) :=
  '(Build_Request name data options) ← checkSendArgs (ArgsArray args) config;
  createJob config id now name data (Some options).

(** [options = options ? { ...options } : {}] *)
Definition copyOptions (options : jsval) : M world nat :=
  copy ← gets (λ h, if truthy_arg options then spread options h else ∅);
  alloc copy.

Definition sendOnce (config : obj) (id : string) (now : Z)
    (name : value) (data options : jsval) (key : value) : M world (list jsval) :=
  options ← copyOptions options;
  zoom options (assign "singletonKey" (λ _, js_or key name));;
  '(Build_Request name data options) ←
    checkSendArgs (ArgsArray [Prim name; data; Ref options]) config;
  createJob config id now name data (Some options).

Definition sendSingleton (config : obj) (id : string) (now : Z)
    (name : value) (data options : jsval) : M world (list jsval) :=
  options ← copyOptions options;
  zoom options (assign "singletonKey" (λ _, VStr SINGLETON_QUEUE_KEY));;
  '(Build_Request name data options) ←
    checkSendArgs (ArgsArray [Prim name; data; Ref options]) config;
  createJob config id now name data (Some options).

Definition sendAfter (config : obj) (id : string) (now : Z)
    (name : value) (data options : jsval) (after : value) : M world (list jsval) :=
  options ← copyOptions options;
  zoom options (assign "startAfter" (λ _, after));;
  '(Build_Request name data options) ←
    checkSendArgs (ArgsArray [Prim name; data; Ref options]) config;
  createJob config id now name data (Some options).

Definition sendThrottled (config : obj) (id : string) (now : Z)
    (name : value) (data options : jsval) (seconds key : value)
    : M world (list jsval) :=
  options ← copyOptions options;
  zoom options
    (assign "singletonSeconds" (λ _, seconds);;
     assign "singletonNextSlot" (λ _, VBool false);;
     assign "singletonKey" (λ _, key));;
  '(Build_Request name data options) ←
    checkSendArgs (ArgsArray [Prim name; data; Ref options]) config;
  createJob config id now name data (Some options).

Definition sendDebounced (config : obj) (id : string) (now : Z)
    (name : value) (data options : jsval) (seconds key : value)
    : M world (list jsval) :=
  options ← copyOptions options;
  zoom options
    (assign "singletonSeconds" (λ _, seconds);;
     assign "singletonNextSlot" (λ _, VBool true);;
     assign "singletonKey" (λ _, key));;
  '(Build_Request name data options) ←
    checkSendArgs (ArgsArray [Prim name; data; Ref options]) config;
  createJob config id now name data (Some options).

End Index.

(** ** A host to run examples with

    A string reads as a number when it is a decimal integer literal (the
    empty string as 0) and as [NaN] otherwise; dates print in UTC. *)
Module ExampleHost.

Fixpoint digits (s : string) (acc : Z) : number :=
  match s with
  | EmptyString => Int acc
  | String c s =>
      let n := Z.of_N (Ascii.N_of_ascii c) in
      if (48 <=? n) && (n <=? 57) then digits s (10 * acc + (n - 48)) else NaN
  end.

Definition decimal (s : string) : number :=
  match s with
  | EmptyString => Int 0
  | String "-"%char (String _ _ as d) =>
      match digits d 0 with Int z => Int (- z) | NaN => NaN end
  | String "+"%char (String _ _ as d) => digits d 0
  | String "-"%char EmptyString | String "+"%char EmptyString => NaN
  | _ => digits s 0
  end.

(** [n] in decimal, padded with zeros to [width] digits. *)
Definition pad (width : nat) (n : Z) : string :=
  let s := pretty n in
  String.concat EmptyString (replicate (width - String.length s) "0") +:+ s.

(** Year, month and day of the day number [days] since 1970-01-01. *)
Definition civil (days : Z) : Z * Z * Z :=
  let z := days + 719468 in
  let era := z / 146097 in
  let doe := z - era * 146097 in
  let yoe := (doe - doe / 1460 + doe / 36524 - doe / 146096) / 365 in
  let doy := doe - (365 * yoe + yoe / 4 - yoe / 100) in
  let mp := (5 * doy + 2) / 153 in
  let d := doy - (153 * mp + 2) / 5 + 1 in
  let m := if mp <? 10 then mp + 3 else mp - 9 in
  let y := yoe + era * 400 + (if m <=? 2 then 1 else 0) in
  (y, m, d).

Definition toISOString (t : Z) : string :=
  let '(y, m, d) := civil (t / 86400000) in
  let ms := t mod 86400000 in
  pad 4 y +:+ "-" +:+ pad 2 m +:+ "-" +:+ pad 2 d +:+ "T" +:+
  pad 2 (ms / 3600000) +:+ ":" +:+ pad 2 (ms / 60000 mod 60) +:+ ":" +:+
  pad 2 (ms / 1000 mod 60) +:+ "." +:+ pad 3 (ms mod 1000) +:+ "Z".

Definition day_name (days : Z) : string :=
  nth (Z.to_nat ((days + 4) mod 7))
      ["Sun"; "Mon"; "Tue"; "Wed"; "Thu"; "Fri"; "Sat"] EmptyString.
Definition month_name (m : Z) : string :=
  nth (Z.to_nat (m - 1))
      ["Jan"; "Feb"; "Mar"; "Apr"; "May"; "Jun";
       "Jul"; "Aug"; "Sep"; "Oct"; "Nov"; "Dec"] EmptyString.

Definition toString (t : Z) : string :=
  let days := t / 86400000 in
  let '(y, m, d) := civil days in
  let ms := t mod 86400000 in
  day_name days +:+ " " +:+ month_name m +:+ " " +:+ pad 2 d +:+ " " +:+
  pad 4 y +:+ " " +:+
  pad 2 (ms / 3600000) +:+ ":" +:+ pad 2 (ms / 60000 mod 60) +:+ ":" +:+
  pad 2 (ms / 1000 mod 60) +:+ " GMT+0000 (Coordinated Universal Time)".

Definition host : Host := {|
  StringToNumber := decimal;
  DateToISOString := toISOString;
  DateToString := toString;
|}.

End ExampleHost.

(** ** A database to run examples with

    A uuid is thirty-two hexadecimal digits in five groups; an interval is
    a decimal number, alone or followed by a unit of time; a timestamp is
    what [toISOString] prints; every value is read as [jsonb]; a parameter
    of another type than its cast is refused; and the table admits the rows
    whose name, priority, retry fields, expiration and completion flag are
    not null. *)
Module ExamplePostgres.

Definition code (c : Ascii.ascii) : Z := Z.of_N (Ascii.N_of_ascii c).

Definition digit (c : Ascii.ascii) : bool := (48 <=? code c) && (code c <=? 57).

Definition hex (c : Ascii.ascii) : bool :=
  digit c || ((97 <=? code c) && (code c <=? 102)) || ((65 <=? code c) && (code c <=? 70)).

(** The characters of [text] against a pattern: [9] for a digit, [x] for
    a hexadecimal digit, any other character for itself. *)
Fixpoint shaped (pattern text : list Ascii.ascii) : bool :=
  match pattern, text with
  | [], [] => true
  | p :: pattern, c :: text =>
      (if Ascii.eqb p "9" then digit c
       else if Ascii.eqb p "x" then hex c
       else Ascii.eqb p c) && shaped pattern text
  | _, _ => false
  end.

Definition uuid (text : string) : bool :=
  shaped (String.list_ascii_of_string "xxxxxxxx-xxxx-xxxx-xxxx-xxxxxxxxxxxx")
         (String.list_ascii_of_string text).

Definition timestamptz (text : string) : bool :=
  shaped (String.list_ascii_of_string "9999-99-99T99:99:99.999Z")
         (String.list_ascii_of_string text).

Fixpoint after_digits (text : string) : string :=
  match text with
  | String c rest => if digit c then after_digits rest else text
  | EmptyString => EmptyString
  end.

Definition interval (text : string) : bool :=
  match text with
  | String c _ =>
      digit c &&
      bool_decide (after_digits text ∈
        [EmptyString; " second"; " seconds"; " minute"; " minutes"; " hour"; " hours";
         " day"; " days"; " week"; " weeks"; " month"; " months"; " year"; " years"])
  | EmptyString => false
  end.

Definition not_null (j : job) : bool :=
  forallb (λ v, negb (sql_null v))
    [job_name j; job_priority j; job_retryLimit j; job_retryDelay j; job_retryBackoff j;
     job_expireIn j; job_on_complete j].

Definition postgres : Postgres := {|
  reads_uuid := uuid;
  reads_interval := interval;
  reads_timestamptz := timestamptz;
  reads_jsonb := λ _, true;
  reads_boolean := λ _, false;
  text_of := λ _, None;
  number_of := λ _, None;
  admits := not_null;
|}.

End ExamplePostgres.

(** * Notions of the statements *)

Definition agree_off (k : string) (o1 o2 : obj) : Prop :=
  ∀ j, j ≠ k → o1 !! j = o2 !! j.

Definition ignores (k : string) {A} (m : M cstate A) : Prop :=
  ∀ s1 s2, proc s1 = proc s2 → agree_off k (config s1) (config s2) →
    (m s1).1 = (m s2).1 ∧
    proc (m s1).2 = proc (m s2).2 ∧
    agree_off k (config (m s1).2) (config (m s2).2) ∧
    config (m s1).2 !! k = config s1 !! k ∧
    config (m s2).2 !! k = config s2 !! k.

Definition notice_all (ws : list warning) (p : process) : process :=
  foldl (λ p w, (emitWarning w None false p).2) p ws.

Definition factors {A} (m : M cstate A) : Prop :=
  ∀ o, ∃ r o' ws, (CLOCK_SKEW ∉ ws) ∧
    ∀ p, m {| config := o; proc := p |} =
         (r, {| config := o'; proc := notice_all ws p |}).

Definition throws {S A} (P : error → Prop) (m : M S A) : Prop :=
  ∀ s e s', m s = (Throw e, s') → P e.

(** The errors of resolution: all but [StorageError], and among them the
    failure of the final check against the archive interval. *)
Definition validation (e : error) : bool :=
  match e with StorageError _ => false | _ => true end.

Definition archive_check (e : error) : bool :=
  match e with
  | AssertionError message => String.prefix "throttling interval " message
  | _ => false
  end.

Definition before_archive_check (e : error) : Prop :=
  validation e = true ∧ archive_check e = false.

(** The options a call supplies, as [checkSendArgs] takes them: the third
    element of the tuple form, or the [options] of an array that holds an
    object first; a [Request] object passes none. *)
Definition supplied (args : Args) (h : list obj) : obj :=
  let options :=
    if String.eqb (typeof_arg (arg_index args 0)) "string" then arg_index args 2
    else if String.eqb (typeof_arg (arg_index args 0)) "object" then arg_options args
    else undefined in
  if truthy_arg options then spread options h else ∅.

(** A world with nothing in it, and one with a single object. *)
Definition world0 : world := {| heap := []; wproc := process0; db := ∅ |}.
Definition world_of (o : obj) : world := {| heap := [o]; wproc := process0; db := ∅ |}.

Inductive call :=
  | CheckSendArgs (args : Args) (defaults : obj)
  | CheckInsertArgs (jobs : JobsArg)
  | GetConfig (value : jsval)
  | WarnClockSkew (message : string).

Inductive returned :=
  | Resolved (request : Request)
  | Batch (jobs : list nat)
  | Configured (config : nat)
  | Nothing.

Definition is_warnClockSkew (c : call) : bool :=
  match c with WarnClockSkew _ => true | _ => false end.

(** How often the warning [w] has been emitted. *)
Definition count (w : warning) (p : process) : nat :=
  length (filter (λ e, em_code e = warning_code w) (emitted p)).

Definition wfactors {A} (m : M world A) : Prop :=
  ∀ h d, ∃ r h' ws, (CLOCK_SKEW ∉ ws) ∧
    ∀ p, m {| heap := h; wproc := p; db := d |} =
         (r, {| heap := h'; wproc := notice_all ws p; db := d |}).

(** Every warning but [CLOCK_SKEW] has been emitted at most once, and
    then its flag is set. *)
Definition once (p : process) : Prop :=
  ∀ w, w ≠ CLOCK_SKEW → (count w p ≤ 1)%nat ∧ (count w p = 1%nat → w ∈ warned p).


(** What [checkSendArgs] takes out of its arguments. *)
Definition unpacked (args : Args) : result (jsval * jsval * jsval) :=
  if String.eqb (typeof_arg (arg_index args 0)) "string" then
    if String.eqb (typeof_arg (arg_index args 1)) "function" then
      Throw (Error "send() cannot accept a function as the payload. Did you intend to use work()?")
    else Ok (arg_index args 0, arg_index args 1, arg_index args 2)
  else if String.eqb (typeof_arg (arg_index args 0)) "object" then
    Ok (arg_name args, arg_data args, arg_options args)
  else Ok (arg_name args, undefined, undefined).

(** [options ? { ...options } : {}] *)
Definition copied (options : jsval) (h : list obj) : obj :=
  if truthy_arg options then spread options h else ∅.

(** The options a helper passes on: the copy with the three properties it
    sets. *)
Definition based (nextSlot : bool) (copy : obj) (seconds key : value) : obj :=
  <["singletonKey" := key]>
    (<["singletonNextSlot" := VBool nextSlot]>
       (<["singletonSeconds" := seconds]> copy)).

(** The options refer to an object of the heap, if to any. *)
Definition refers_within (options : jsval) (h : list obj) : Prop :=
  ∀ l, options = Ref l → (l < length h)%nat.

Section Notions.
Context `{Host} `{Postgres}.

(** The rows that hold the slot [(name, key, on)], by the texts of the two
    columns. *)
Definition holds_slot (name key : jsval) (on : option Z) (r : job) : Prop :=
  column_text (job_name r) = column_text name ∧
  column_text (job_singletonKey r) = column_text key ∧
  job_singletonOn r = on.

#[global] Instance holds_slot_dec name key on r : Decision (holds_slot name key on r).
Proof. unfold holds_slot. apply _. Defined.

(** The window [checkSendArgs] resolves from the three units. *)
Definition window (o : obj) : value :=
  if truthy o.["singletonHours"] && js_gt o.["singletonHours"] (VInt 0) then
    js_mul (js_mul o.["singletonHours"] (VInt 60)) (VInt 60)
  else if truthy o.["singletonMinutes"] && js_gt o.["singletonMinutes"] (VInt 0) then
    js_mul o.["singletonMinutes"] (VInt 60)
  else if truthy o.["singletonSeconds"] && js_gt o.["singletonSeconds"] (VInt 0) then
    js_mul o.["singletonSeconds"] (VInt 60)
  else VNull.

(** The final check of [checkSendArgs]. *)
Definition archive_ok (o defaults : obj) : bool :=
  js_not o.["singletonSeconds"] ||
  (truthy defaults.["archiveSeconds"] &&
   js_le o.["singletonSeconds"] defaults.["archiveSeconds"]).

(** What [applyRetryConfig] leaves in the three retry properties. *)
Definition retryBackoff_of (o defaults : obj) : bool :=
  truthy (js_or o.["retryBackoff"] defaults.["retryBackoff"]).
Definition retryDelay_of (o defaults : obj) : value :=
  let retryDelay := js_or (js_or o.["retryDelay"] defaults.["retryDelay"]) (VInt 0) in
  if retryBackoff_of o defaults && js_not retryDelay then VInt 1 else retryDelay.
Definition retryLimit_of (o defaults : obj) : value :=
  let retryLimit := js_or (js_or o.["retryLimit"] defaults.["retryLimit"]) (VInt 0) in
  if truthy (retryDelay_of o defaults) && js_not retryLimit then VInt 1 else retryLimit.

(** What [applyExpirationConfig] leaves in [expireIn]. *)
Definition expireIn_of (o : obj) (defaults : option obj) : value :=
  if has "expireInHours" o then
    VStr (ToString o.["expireInHours"] +:+ " hours")
  else if has "expireInMinutes" o then
    VStr (ToString o.["expireInMinutes"] +:+ " minutes")
  else if has "expireInSeconds" o then
    VStr (ToString o.["expireInSeconds"] +:+ " seconds")
  else match defaults with
       | Some defaults => defaults.["expireIn"]
       | None => VStr "15 minutes"
       end.

Definition positive (v : value) : bool := truthy v && js_gt v (VInt 0).

Definition perform (c : call) : M world returned :=
  match c with
  | CheckSendArgs args defaults => r ← checkSendArgs args defaults; ret (Resolved r)
  | CheckInsertArgs jobs => r ← checkInsertArgs jobs; ret (Batch r)
  | GetConfig value => r ← getConfig value; ret (Configured r)
  | WarnClockSkew message => warnClockSkew message;; ret Nothing
  end.

(** The world after the calls, whether they return or throw. *)
Definition run_calls (calls : list call) (w : world) : world :=
  foldl (λ w c, (perform c w).2) w calls.

(** Both helpers, by the [singletonNextSlot] they set. *)
Definition sendWindowed (nextSlot : bool) :=
  if nextSlot then sendDebounced else sendThrottled.

End Notions.

(** [keeps k m]: [m] leaves the property [k] of its object as it is,
    whether it reads it or not. *)
Definition keeps (k : string) {A} (m : M cstate A) : Prop :=
  ∀ s, config (m s).2 !! k = config s !! k.

(** [sets k m]: when [m] returns, its object has the property [k]. *)
Definition sets (k : string) {A} (m : M cstate A) : Prop :=
  ∀ s a s', m s = (Ok a, s') → has k (config s') = true.

(** [quiet m]: [m] emits no warning. *)
Definition quiet {A} (m : M cstate A) : Prop :=
  ∀ s, proc (m s).2 = proc s.

(** The object that [getConfig] works on: the connection string in an
    object of its own, or a copy of the configuration object. *)
Definition configuration (value : jsval) (h : list obj) : obj :=
  match value with
  | Prim (VStr s) => {[ "connectionString" := VStr s ]}
  | _ => spread value h
  end.

(** The options a call of [checkWorkArgs] supplies: the first element of
    the tuple form when there is one. *)
Definition work_supplied (args : WorkArgs) (h : list obj) : obj :=
  match args with
  | WorkOther _ => ∅
  | WorkArray elems =>
      let first := default undefined (elems !! 0%nat) in
      if truthy_arg first then spread first h else ∅
  end.

(** The callback of a call of [checkWorkArgs]. *)
Definition work_callback_of (args : WorkArgs) : jsval :=
  match args with
  | WorkOther v => v
  | WorkArray elems => default undefined (elems !! 1%nat)
  end.

(** The properties that [checkSendArgs] writes. *)
Definition resolved_keys : list string :=
  ["priority"; "retryDelay"; "retryLimit"; "retryBackoff"; "expireIn"; "keepUntil";
   "onComplete"; "singletonKey"; "useSingletonQueue"; "startAfter"; "singletonSeconds"].

(** The properties that every resolved request has. *)
Definition resolved_always : list string :=
  ["priority"; "retryDelay"; "retryLimit"; "retryBackoff"; "expireIn"; "keepUntil";
   "onComplete"; "startAfter"; "singletonSeconds"].

Section MoreNotions.
Context `{Host} `{Postgres}.

(** What [checkSendArgs] leaves in [startAfter]. *)
Definition startAfter_of (o : obj) : value :=
  match o.["startAfter"] with
  | VDate t => VStr (DateToISOString t)
  | startAfter =>
      if truthy startAfter && js_gt startAfter (VInt 0) then VStr (ToString startAfter)
      else if String.eqb (typeof startAfter) "string" then startAfter
      else VNull
  end.

(** What [applySingletonKeyConfig] leaves in [singletonKey]. *)
Definition singletonKey_of (o : obj) : value :=
  if truthy o.["singletonKey"] && truthy o.["useSingletonQueue"] &&
     negb (strict_eq o.["singletonKey"] SINGLETON_QUEUE_KEY)
  then VStr (SINGLETON_QUEUE_KEY +:+ ToString o.["singletonKey"])
  else o.["singletonKey"].

(** The object that [applySingletonKeyConfig] leaves. *)
Definition singletonKeyConfig (o : obj) : obj :=
  delete "useSingletonQueue"
    (if truthy o.["singletonKey"] && truthy o.["useSingletonQueue"] &&
        negb (strict_eq o.["singletonKey"] SINGLETON_QUEUE_KEY)
     then <["singletonKey" := VStr (SINGLETON_QUEUE_KEY +:+ ToString o.["singletonKey"])]> o
     else o).

(** What [applyRetentionConfig] leaves in [keepUntil]. *)
Definition keepUntil_of (o : obj) (defaults : option obj) : value :=
  if has "retentionDays" o then VStr (ToString o.["retentionDays"] +:+ " days")
  else if has "retentionHours" o then VStr (ToString o.["retentionHours"] +:+ " hours")
  else if has "retentionMinutes" o then VStr (ToString o.["retentionMinutes"] +:+ " minutes")
  else if has "retentionSeconds" o then VStr (ToString o.["retentionSeconds"] +:+ " seconds")
  else match defaults with
       | Some defaults => defaults.["keepUntil"]
       | None => VStr "14 days"
       end.

(** What [applyNewJobCheckInterval] leaves in [newJobCheckInterval]. *)
Definition newJobCheckInterval_of (o : obj) (defaults : option obj) : value :=
  if truthy o.["newJobCheckIntervalSeconds"] then
    js_mul o.["newJobCheckIntervalSeconds"] (VInt 1000)
  else if has "newJobCheckInterval" o then o.["newJobCheckInterval"]
  else match defaults with
       | Some defaults => defaults.["newJobCheckInterval"]
       | None => VInt 2000
       end.

(** The steps of [getConfig] on the copy. *)
Definition configure : M cstate unit :=
  applyDatabaseConfig;;
  applyMaintenanceConfig;;
  applyArchiveConfig;;
  applyArchiveFailedConfig;;
  applyDeleteConfig;;
  applyMonitoringConfig;;
  applyUuidConfig;;
  applyNewJobCheckInterval None;;
  applyExpirationConfig None;;
  applyRetentionConfig None;;
  applyCompletionConfig None.

(** The calls that submit a job. *)
Inductive submission :=
  | Send (args : list jsval)
  | SendOnce (name : value) (data options : jsval) (key : value)
  | SendSingleton (name : value) (data options : jsval)
  | SendAfter (name : value) (data options : jsval) (after : value)
  | SendThrottled (name : value) (data options : jsval) (seconds key : value)
  | SendDebounced (name : value) (data options : jsval) (seconds key : value).

Definition submit (conf : obj) (id : string) (now : Z) (c : submission)
    : M world (list jsval) :=
  match c with
  | Send args => send conf id now args
  | SendOnce name data options key => sendOnce conf id now name data options key
  | SendSingleton name data options => sendSingleton conf id now name data options
  | SendAfter name data options after => sendAfter conf id now name data options after
  | SendThrottled name data options seconds key =>
      sendThrottled conf id now name data options seconds key
  | SendDebounced name data options seconds key =>
      sendDebounced conf id now name data options seconds key
  end.

(** The options object a helper builds before it calls [checkSendArgs],
    none for [send]. *)
Definition prepared (c : submission) (h : list obj) : option obj :=
  match c with
  | Send _ => None
  | SendOnce name _ options key => Some (<["singletonKey" := js_or key name]> (copied options h))
  | SendSingleton _ _ options =>
      Some (<["singletonKey" := VStr SINGLETON_QUEUE_KEY]> (copied options h))
  | SendAfter _ _ options after => Some (<["startAfter" := after]> (copied options h))
  | SendThrottled _ _ options seconds key => Some (based false (copied options h) seconds key)
  | SendDebounced _ _ options seconds key => Some (based true (copied options h) seconds key)
  end.

(** The arguments that reach [checkSendArgs]. *)
Definition forwarded (c : submission) (h : list obj) : list jsval :=
  match c with
  | Send args => args
  | SendOnce name data _ _ | SendSingleton name data _ | SendAfter name data _ _
  | SendThrottled name data _ _ _ | SendDebounced name data _ _ _ =>
      [Prim name; data; Ref (length h)]
  end.

(** The options that [checkSendArgs] receives from a submission. *)
Definition submitted (c : submission) (h : list obj) : obj :=
  supplied (ArgsArray (forwarded c h)) (h ++ option_list (prepared c h)).

End MoreNotions.

Module Sample.

(** The queue of [test.ts], with and without an archive interval, and a
    database with its [job] table. *)
Definition plain : obj := {[ "schema" := VStr "pgboss" ]}.
Definition archiving : obj :=
  {[ "schema" := VStr "pgboss"; "archiveSeconds" := VInt 3600 ]}.
Definition stored (o : obj) : world :=
  {| heap := [o]; wproc := process0; db := {[ "pgboss" := [] ]} |}.

(** [send("q", undefined, options)] with [options] the object at 0. *)
Definition tuple : Args := ArgsArray [Prim (VStr "q"); undefined; Ref 0].

(** Two identifiers as [uuid()] returns them. *)
Definition id1 : string := "3f2b8c1e-6d4a-4f0b-9a57-0c1d2e3f4a5b".
Definition id2 : string := "a81d4e2f-0b7c-4c39-8e65-5f6a7b8c9d0e".

End Sample.

(** * Verification *)

(** ** Runs of the monad *)

Lemma bind_Ok {S A B} (m : M S A) (f : A → M S B) s b s' :
  bind m f s = (Ok b, s') ↔ ∃ a s1, m s = (Ok a, s1) ∧ f a s1 = (Ok b, s').
Proof.
  unfold bind. split.
  - destruct (m s) as [[a|e] s1]; [eauto | discriminate].
  - by intros (a & s1 & -> & Hf).
Qed.

Lemma bind_Throw {S A B} (m : M S A) (f : A → M S B) s e s' :
  bind m f s = (Throw e, s') ↔
  m s = (Throw e, s') ∨ ∃ a s1, m s = (Ok a, s1) ∧ f a s1 = (Throw e, s').
Proof.
  unfold bind. split.
  - destruct (m s) as [[a|e1] s1]; [eauto | left; congruence].
  - by intros [-> | (a & s1 & -> & Hf)].
Qed.

Lemma assert_Ok {S} c message (s s' : S) u :
  assert c message s = (Ok u, s') ↔ c = true ∧ s' = s.
Proof.
  destruct c, u; cbn; (split; [intros [= <-] | intros [[=] ->]]); done.
Qed.

Lemma assert_Throw {S} c message (s s' : S) e :
  assert c message s = (Throw e, s') ↔
  c = false ∧ e = AssertionError message ∧ s' = s.
Proof.
  destruct c; cbn; (split; [intros [= <- <-] | intros ([=] & -> & ->)]); done.
Qed.

Lemma read_run {A} (e : obj → A) s : read e s = (Ok (e (config s)), s).
Proof. done. Qed.

Lemma assert_on_Ok e message s s' u :
  assert_on e message s = (Ok u, s') ↔ e (config s) = true ∧ s' = s.
Proof.
  unfold assert_on. rewrite bind_Ok. split.
  - intros (c & s1 & [= <- <-] & Hc). by apply assert_Ok in Hc.
  - intros [Hc ->]. exists true, s. split; [by rewrite read_run, Hc | by destruct u].
Qed.

(** ** Functions that leave a property alone

    [ignores k m]: [m] neither reads nor writes the property [k] of its
    object.  Two runs from objects that agree off [k] give the same result
    and objects that agree off [k], and each leaves its [k] as it was. *)

Lemma agree_off_refl k o : agree_off k o o.
Proof. by intros j _. Qed.

Lemma agree_off_insert k v o : agree_off k (<[k := v]> o) o.
Proof. intros j Hj. by rewrite lookup_insert_ne. Qed.

Lemma agree_prop k o1 o2 j : agree_off k o1 o2 → j ≠ k → o1.[j] = o2.[j].
Proof. intros Ha Hj. unfold prop. by rewrite (Ha j Hj). Qed.

Lemma agree_has k o1 o2 j : agree_off k o1 o2 → j ≠ k → has j o1 = has j o2.
Proof. intros Ha Hj. unfold has. by rewrite (Ha j Hj). Qed.

Lemma ignores_frame k {A} (m : M cstate A) s r s' :
  ignores k m → m s = (r, s') → config s' !! k = config s !! k.
Proof.
  intros Hm Hs. destruct (Hm s s eq_refl (agree_off_refl _ _)) as (_ & _ & _ & Hk & _).
  by rewrite Hs in Hk.
Qed.

Lemma ignores_ret k {A} (a : A) : ignores k (ret a).
Proof. by intros s1 s2 Hp Ha. Qed.

Lemma ignores_throw k {A} e : ignores k (throw (A:=A) e).
Proof. by intros s1 s2 Hp Ha. Qed.

Lemma ignores_bind k {A B} (m : M cstate A) (f : A → M cstate B) :
  ignores k m → (∀ a, ignores k (f a)) → ignores k (bind m f).
Proof.
  intros Hm Hf s1 s2 Hp Ha. unfold bind.
  destruct (Hm s1 s2 Hp Ha) as (Hr & Hp' & Ha' & H1 & H2).
  destruct (m s1) as [[a1|e1] t1], (m s2) as [[a2|e2] t2];
    simpl in *; simplify_eq; try done.
  destruct (Hf a2 t1 t2 Hp' Ha') as (? & ? & ? & ? & ?).
  repeat split; try done; congruence.
Qed.

Lemma ignores_assert k c message : ignores k (assert c message).
Proof. destruct c; [apply ignores_ret | apply ignores_throw]. Qed.

Lemma ignores_read k {A} (e : obj → A) :
  (∀ o1 o2, agree_off k o1 o2 → e o1 = e o2) → ignores k (read e).
Proof. intros He s1 s2 Hp Ha. simpl. by rewrite (He _ _ Ha). Qed.

Lemma ignores_assign k j (e : obj → value) :
  j ≠ k → (∀ o1 o2, agree_off k o1 o2 → e o1 = e o2) → ignores k (assign j e).
Proof.
  intros Hk He s1 s2 Hp Ha. simpl. rewrite (He _ _ Ha).
  repeat split; try done; [| by rewrite lookup_insert_ne..].
  intros i Hi. destruct (decide (j = i)) as [->|]; [by rewrite !lookup_insert_eq|].
  rewrite !lookup_insert_ne by done. by apply Ha.
Qed.

Lemma ignores_delete k j : j ≠ k → ignores k (delete_prop j).
Proof.
  intros Hk s1 s2 Hp Ha. simpl.
  repeat split; try done; [| by rewrite lookup_delete_ne..].
  intros i Hi. destruct (decide (j = i)) as [->|]; [by rewrite !lookup_delete_eq|].
  rewrite !lookup_delete_ne by done. by apply Ha.
Qed.

Lemma ignores_on_proc k {A} (m : M process A) : ignores k (on_proc m).
Proof.
  intros s1 s2 Hp Ha. unfold on_proc. rewrite Hp.
  by destruct (m (proc s2)).
Qed.

(** [j ≠ k] for a property name [j] of the code and a [k] that is known
    to be none of them. *)
Ltac key_neq :=
  first
    [ done
    | match goal with
      | Hk : ?k ∉ _ |- _ ≠ ?k => intros <-; apply Hk; set_solver
      end ].

Ltac agree_tac :=
  let o1 := fresh "o1" in
  let o2 := fresh "o2" in
  let Ha := fresh "Ha" in
  intros o1 o2 Ha; unfold at_least, between;
  repeat match goal with
    | |- context [ prop o1 ?j ] => rewrite (agree_prop _ o1 o2 j Ha) by key_neq
    | |- context [ has ?j o1 ] => rewrite (agree_has _ o1 o2 j Ha) by key_neq
    end;
  reflexivity.

Ltac ignores_step :=
  first
    [ apply ignores_ret
    | apply ignores_throw
    | apply ignores_assert
    | apply ignores_on_proc
    | apply ignores_bind; [| intros ]
    | apply ignores_read; agree_tac
    | apply ignores_assign; [ key_neq | agree_tac ]
    | apply ignores_delete; key_neq
    | match goal with
      | |- ignores _ (if ?c then _ else _) => destruct c
      | |- ignores _ (match ?c with _ => _ end) => destruct c
      end ].

Ltac ignores_tac :=
  unfold assert_on, when_on, if_on, when; repeat ignores_step.

(** ** Functions and the process

    [factors m]: what [m] returns and what it does to its object are decided
    by the object alone, and all it does to the process is to emit, unforced,
    some warnings other than [CLOCK_SKEW]. *)

Lemma notice_all_app ws1 ws2 p :
  notice_all (ws1 ++ ws2) p = notice_all ws2 (notice_all ws1 p).
Proof. apply foldl_app. Qed.

Lemma factors_ret {A} (a : A) : factors (ret a).
Proof. intros o. exists (Ok a), o, []. split; [apply not_elem_of_nil | done]. Qed.

Lemma factors_throw {A} e : factors (throw (A:=A) e).
Proof. intros o. exists (Throw e), o, []. split; [apply not_elem_of_nil | done]. Qed.

Lemma factors_bind {A B} (m : M cstate A) (f : A → M cstate B) :
  factors m → (∀ a, factors (f a)) → factors (bind m f).
Proof.
  intros Hm Hf o. destruct (Hm o) as (r & o1 & ws1 & Hs1 & Hm1).
  destruct r as [a|e].
  - destruct (Hf a o1) as (r2 & o2 & ws2 & Hs2 & Hf2).
    exists r2, o2, (ws1 ++ ws2). split.
    + rewrite elem_of_app. tauto.
    + intros p. unfold bind. by rewrite Hm1, Hf2, notice_all_app.
  - exists (Throw e), o1, ws1. split; [done|].
    intros p. unfold bind. by rewrite Hm1.
Qed.

Lemma factors_assert c message : factors (assert c message).
Proof. destruct c; [apply factors_ret | apply factors_throw]. Qed.

Lemma factors_read {A} (e : obj → A) : factors (read e).
Proof. intros o. exists (Ok (e o)), o, []. split; [apply not_elem_of_nil | done]. Qed.

Lemma factors_assign k e : factors (assign k e).
Proof.
  intros o. exists (Ok tt), (<[k := e o]> o), [].
  split; [apply not_elem_of_nil | done].
Qed.

Lemma factors_delete k : factors (delete_prop k).
Proof.
  intros o. exists (Ok tt), (delete k o), [].
  split; [apply not_elem_of_nil | done].
Qed.

Lemma factors_notice w :
  w ≠ CLOCK_SKEW → factors (on_proc (emitWarning w None false)).
Proof.
  intros Hw o. exists (Ok tt), o, [w]. split.
  - rewrite list_elem_of_singleton. congruence.
  - intros p. unfold on_proc, notice_all, emitWarning. simpl.
    by destruct (negb _).
Qed.

Ltac factors_step :=
  first
    [ apply factors_ret
    | apply factors_throw
    | apply factors_assert
    | apply factors_read
    | apply factors_assign
    | apply factors_delete
    | apply factors_notice; discriminate
    | apply factors_bind; [| intros ]
    | match goal with
      | |- factors (if ?c then _ else _) => destruct c
      | |- factors (match ?c with _ => _ end) => destruct c
      end ].

Ltac factors_tac :=
  unfold assert_on, when_on, if_on, when; repeat factors_step.

(** ** The errors a function throws *)

Lemma throws_ret {S A} P (a : A) : throws (S:=S) P (ret a).
Proof. intros s e s' [=]. Qed.

Lemma throws_throw {S A} (P : error → Prop) e : P e → throws (S:=S) (A:=A) P (throw e).
Proof. by intros HP s e' s' [= <- _]. Qed.

Lemma throws_bind {S A B} P (m : M S A) (f : A → M S B) :
  throws P m → (∀ a, throws P (f a)) → throws P (bind m f).
Proof.
  intros Hm Hf s e s' [Hs | (a & s1 & _ & Hs)]%bind_Throw; [by eapply Hm | by eapply Hf].
Qed.

Lemma throws_assert {S} (P : error → Prop) c message :
  P (AssertionError message) → throws (S:=S) P (assert c message).
Proof. by intros HP s e s' (_ & -> & _)%assert_Throw. Qed.

Lemma throws_read {A} P (e : obj → A) : throws P (read e).
Proof. intros s e' s' [=]. Qed.

Lemma throws_assign P k e : throws P (assign k e).
Proof. intros s e' s' [=]. Qed.

Lemma throws_delete P k : throws P (delete_prop k).
Proof. intros s e' s' [=]. Qed.

Lemma emitWarning_Ok w message force p : (emitWarning w message force p).1 = Ok tt.
Proof. unfold emitWarning. by destruct (_ || _). Qed.

Lemma throws_emit P w message force : throws P (on_proc (emitWarning w message force)).
Proof.
  intros s e s'. unfold on_proc.
  pose proof (emitWarning_Ok w message force (proc s)) as Hw.
  destruct (emitWarning _ _ _ _) as [r p]. simpl in Hw. by intros [= -> _].
Qed.

Lemma throws_zoom {A} P l (m : M cstate A) : throws P m → throws P (zoom l m).
Proof.
  intros Hm w e w'. unfold zoom.
  destruct (m _) as [r s] eqn:Hs. intros [= -> _]. by eapply Hm.
Qed.

Lemma throws_gets {A} P (e : list obj → A) : throws P (gets e).
Proof. intros s e' s' [=]. Qed.

Lemma throws_alloc P o : throws P (alloc o).
Proof. intros s e' s' [=]. Qed.

Ltac throws_step :=
  first
    [ apply throws_ret
    | apply throws_throw; done
    | apply throws_assert; done
    | apply throws_read
    | apply throws_assign
    | apply throws_delete
    | apply throws_emit
    | apply throws_gets
    | apply throws_alloc
    | apply throws_bind; [| intros ]
    | match goal with
      | |- throws _ (if ?c then _ else _) => destruct c
      | |- throws _ (match ?c with _ => _ end) => destruct c
      end ].

Ltac throws_tac :=
  unfold assert_on, when_on, if_on, when; repeat throws_step.

(** ** The functions of attorney.ts, one by one *)

Section Functions.
Context `{Host}.

Lemma applyRetryConfig_ignores k d :
  k ∉ ["retryDelay"; "retryLimit"; "retryBackoff"] → ignores k (applyRetryConfig d).
Proof. intros Hk. unfold applyRetryConfig. ignores_tac. Qed.

Lemma applyExpirationConfig_ignores k d :
  k ∉ ["expireIn"; "expireInSeconds"; "expireInMinutes"; "expireInHours"] →
  ignores k (applyExpirationConfig d).
Proof. intros Hk. unfold applyExpirationConfig. ignores_tac. Qed.

Lemma applyRetentionConfig_ignores k d :
  k ∉ ["keepUntil"; "retentionSeconds"; "retentionMinutes"; "retentionHours"; "retentionDays"] →
  ignores k (applyRetentionConfig d).
Proof. intros Hk. unfold applyRetentionConfig. ignores_tac. Qed.

Lemma applyCompletionConfig_ignores k d :
  k ∉ ["onComplete"] → ignores k (applyCompletionConfig d).
Proof. intros Hk. unfold applyCompletionConfig. ignores_tac. Qed.

Lemma applySingletonKeyConfig_ignores k :
  k ∉ ["singletonKey"; "useSingletonQueue"] → ignores k applySingletonKeyConfig.
Proof. intros Hk. unfold applySingletonKeyConfig. ignores_tac. Qed.

Lemma applyRetryConfig_factors d : factors (applyRetryConfig d).
Proof. unfold applyRetryConfig. factors_tac. Qed.
Lemma applyExpirationConfig_factors d : factors (applyExpirationConfig d).
Proof. unfold applyExpirationConfig. factors_tac. Qed.
Lemma applyRetentionConfig_factors d : factors (applyRetentionConfig d).
Proof. unfold applyRetentionConfig. factors_tac. Qed.
Lemma applyCompletionConfig_factors d : factors (applyCompletionConfig d).
Proof. unfold applyCompletionConfig. factors_tac. Qed.
Lemma applySingletonKeyConfig_factors : factors applySingletonKeyConfig.
Proof. unfold applySingletonKeyConfig. factors_tac. Qed.
Lemma applyNewJobCheckInterval_factors d : factors (applyNewJobCheckInterval d).
Proof. unfold applyNewJobCheckInterval. factors_tac. Qed.
Lemma applyDatabaseConfig_factors : factors applyDatabaseConfig.
Proof. unfold applyDatabaseConfig. factors_tac. Qed.
Lemma applyArchiveConfig_factors : factors applyArchiveConfig.
Proof. unfold applyArchiveConfig. factors_tac. Qed.
Lemma applyArchiveFailedConfig_factors : factors applyArchiveFailedConfig.
Proof. unfold applyArchiveFailedConfig. factors_tac. Qed.
Lemma applyMaintenanceConfig_factors : factors applyMaintenanceConfig.
Proof. unfold applyMaintenanceConfig. factors_tac. Qed.
Lemma applyDeleteConfig_factors : factors applyDeleteConfig.
Proof. unfold applyDeleteConfig. factors_tac. Qed.
Lemma applyMonitoringConfig_factors : factors applyMonitoringConfig.
Proof. unfold applyMonitoringConfig. factors_tac. Qed.
Lemma applyUuidConfig_factors : factors applyUuidConfig.
Proof. unfold applyUuidConfig. factors_tac. Qed.

Lemma applyRetryConfig_throws d : throws before_archive_check (applyRetryConfig d).
Proof. unfold applyRetryConfig. throws_tac. Qed.
Lemma applyExpirationConfig_throws d : throws before_archive_check (applyExpirationConfig d).
Proof. unfold applyExpirationConfig. throws_tac. Qed.
Lemma applyRetentionConfig_throws d : throws before_archive_check (applyRetentionConfig d).
Proof. unfold applyRetentionConfig. throws_tac. Qed.
Lemma applyCompletionConfig_throws d : throws before_archive_check (applyCompletionConfig d).
Proof. unfold applyCompletionConfig. throws_tac. Qed.
Lemma applySingletonKeyConfig_throws : throws before_archive_check applySingletonKeyConfig.
Proof. unfold applySingletonKeyConfig. throws_tac. Qed.

End Functions.

(** ** Runs of [resolveOptions] *)

Lemma prop_insert_eq (o : obj) k v : (<[k := v]> o).[k] = v.
Proof. unfold prop. by rewrite lookup_insert_eq. Qed.
Lemma prop_insert_ne (o : obj) k j v : k ≠ j → (<[k := v]> o).[j] = o.[j].
Proof. intros. unfold prop. by rewrite lookup_insert_ne. Qed.
Lemma prop_delete_ne (o : obj) k j : k ≠ j → (delete k o).[j] = o.[j].
Proof. intros. unfold prop. by rewrite lookup_delete_ne. Qed.

Lemma frame_prop k {A} (m : M cstate A) s r s' :
  ignores k m → m s = (r, s') → (config s').[k] = (config s).[k].
Proof. intros Hm Hs. unfold prop. by rewrite (ignores_frame k m s r s' Hm Hs). Qed.
Lemma frame_has k {A} (m : M cstate A) s r s' :
  ignores k m → m s = (r, s') → has k (config s') = has k (config s).
Proof. intros Hm Hs. unfold has. by rewrite (ignores_frame k m s r s' Hm Hs). Qed.

Lemma assign_prop_eq k e s s' u :
  assign k e s = (Ok u, s') → (config s').[k] = e (config s).
Proof. intros [= _ <-]. apply prop_insert_eq. Qed.

Lemma assign_prop_ne k e s s' u j :
  k ≠ j → assign k e s = (Ok u, s') → (config s').[j] = (config s).[j].
Proof. intros Hj [= _ <-]. by apply prop_insert_ne. Qed.

(** [config s' .[j]] back through the assignments of a run. *)
Ltac back :=
  repeat match goal with
    | Hs : assign ?k ?e ?s = (_, ?s') |- context [ prop (config ?s') ?j ] =>
        first [ rewrite (assign_prop_eq k e s s' _ Hs); cbv beta
              | rewrite (assign_prop_ne k e s s' _ j ltac:(done) Hs) ]
    end.

Section Resolution.
Context `{Host}.

Ltac notin := apply (bool_decide_unpack _); by vm_compute.

Ltac prove_ignores :=
  first
    [ apply applyRetryConfig_ignores; notin
    | apply applyExpirationConfig_ignores; notin
    | apply applyRetentionConfig_ignores; notin
    | apply applyCompletionConfig_ignores; notin
    | apply applySingletonKeyConfig_ignores; notin
    | ignores_tac ].

(** [config s' .[k]] back to [config s .[k]] along the steps of a run. *)
Ltac frame k :=
  repeat match goal with
    | Hs : ?m ?s = (_, ?s') |- context [ prop (config ?s') k ] =>
        rewrite (frame_prop k m s _ s' ltac:(prove_ignores) Hs)
    | Hs : ?m ?s = (_, ?s') |- context [ has k (config ?s') ] =>
        rewrite (frame_has k m s _ s' ltac:(prove_ignores) Hs)
    end.

(** The steps of a run of [resolveOptions] that returns. *)
Ltac resolve_steps H :=
  unfold resolveOptions in H;
  apply bind_Ok in H as (? & s1 & Hs1 & H);
  apply bind_Ok in H as (? & s2 & Hs2 & H);
  apply bind_Ok in H as (? & s3 & Hs3 & H);
  apply bind_Ok in H as (? & s4 & Hs4 & H);
  apply bind_Ok in H as (? & s5 & Hs5 & H);
  apply bind_Ok in H as (? & s6 & Hs6 & H);
  apply bind_Ok in H as (? & s7 & Hs7 & H);
  apply bind_Ok in H as (? & ? & Hread & H);
  rewrite read_run in Hread; injection Hread as <- <-; cbv beta iota in H;
  apply bind_Ok in H as (? & s8 & Hs8 & H);
  apply bind_Ok in H as (? & s9 & Hs9 & H);
  apply assert_Ok in H as [H ->];
  repeat match goal with u : () |- _ => destruct u end.

Lemma resolveOptions_window d s s' :
  resolveOptions d s = (Ok tt, s') →
  (config s').["singletonSeconds"] = window (config s) ∧
  archive_ok (config s) d = true.
Proof.
  intros Hrun. resolve_steps Hrun.
  assert ((config s7).["singletonHours"] = (config s).["singletonHours"]) as Hh
    by (frame "singletonHours"; reflexivity).
  assert ((config s7).["singletonMinutes"] = (config s).["singletonMinutes"]) as Hm
    by (frame "singletonMinutes"; reflexivity).
  assert ((config s7).["singletonSeconds"] = (config s).["singletonSeconds"]) as Hsec
    by (frame "singletonSeconds"; reflexivity).
  rewrite Hh, Hm, Hsec in *. unfold window, archive_ok.
  split; [| exact Hrun].
  repeat match goal with
    | Hs : (if ?c then _ else _) _ = _ |- _ => destruct c
    end;
  injection Hs9 as <-; cbn [config]; by rewrite prop_insert_eq.
Qed.

Lemma truthy_VBool_truthy v : truthy (VBool (truthy v)) = truthy v.
Proof. done. Qed.

Lemma applyRetryConfig_Ok d s s' :
  applyRetryConfig (Some d) s = (Ok tt, s') →
  (config s').["retryDelay"] = retryDelay_of (config s) d ∧
  (config s').["retryLimit"] = retryLimit_of (config s) d ∧
  (config s').["retryBackoff"] = VBool (retryBackoff_of (config s) d).
Proof.
  intros Hrun. unfold applyRetryConfig in Hrun.
  apply bind_Ok in Hrun as (? & ? & [_ ->]%assert_on_Ok & Hrun).
  apply bind_Ok in Hrun as (? & ? & [_ ->]%assert_on_Ok & Hrun).
  apply bind_Ok in Hrun as (? & ? & [_ ->]%assert_on_Ok & Hrun).
  apply bind_Ok in Hrun as (? & t3 & Hmerge & Hrun).
  apply bind_Ok in Hmerge as (? & t1 & H1 & Hmerge).
  apply bind_Ok in Hmerge as (? & t2 & H2 & H3).
  apply bind_Ok in Hrun as (? & t4 & H4 & Hrun).
  apply bind_Ok in Hrun as (? & t5 & H5 & Hrun).
  apply bind_Ok in Hrun as (? & t6 & H6 & Hrun).
  apply bind_Ok in Hrun as (? & t7 & H7 & H8).
  unfold retryLimit_of, retryDelay_of, retryBackoff_of.
  repeat split; back; by rewrite ?truthy_VBool_truthy.
Qed.

Lemma resolveOptions_retry d s s' :
  resolveOptions d s = (Ok tt, s') →
  (config s').["retryDelay"] = retryDelay_of (config s) d ∧
  (config s').["retryLimit"] = retryLimit_of (config s) d ∧
  (config s').["retryBackoff"] = VBool (retryBackoff_of (config s) d).
Proof.
  intros Hrun. resolve_steps Hrun.
  destruct (applyRetryConfig_Ok _ _ _ Hs3) as (Hd & Hl & Hb).
  assert ((config s2).["retryDelay"] = (config s).["retryDelay"]) as H1
    by (frame "retryDelay"; reflexivity).
  assert ((config s2).["retryLimit"] = (config s).["retryLimit"]) as H2
    by (frame "retryLimit"; reflexivity).
  assert ((config s2).["retryBackoff"] = (config s).["retryBackoff"]) as H3
    by (frame "retryBackoff"; reflexivity).
  unfold retryLimit_of, retryDelay_of, retryBackoff_of in Hd, Hl, Hb.
  rewrite H1, H3 in Hd. rewrite H1, H2, H3 in Hl. rewrite H3 in Hb.
  unfold retryLimit_of, retryDelay_of, retryBackoff_of.
  rewrite <- Hl, <- Hd, <- Hb.
  clear Hs1 Hs2 Hs3. repeat split.
  - frame "retryDelay"; reflexivity.
  - frame "retryLimit"; reflexivity.
  - frame "retryBackoff"; reflexivity.
Qed.

Lemma applyExpirationConfig_Ok d s s' :
  applyExpirationConfig d s = (Ok tt, s') →
  (config s').["expireIn"] = expireIn_of (config s) d ∧
  at_least "expireInSeconds" 1 (config s) = true ∧
  at_least "expireInMinutes" 1 (config s) = true ∧
  at_least "expireInHours" 1 (config s) = true.
Proof.
  intros Hrun. unfold applyExpirationConfig in Hrun.
  apply bind_Ok in Hrun as (? & s1 & Hw & Hrun).
  assert (config s1 = config s) as Hc.
  { unfold when_on, if_on in Hw. apply bind_Ok in Hw as (? & ? & [= <- <-] & Hw).
    destruct (has "expireIn" (config s)); [| by inversion Hw].
    unfold on_proc in Hw. destruct (emitWarning _ _ _ _). by inversion Hw. }
  apply bind_Ok in Hrun as (? & ? & [H1 ->]%assert_on_Ok & Hrun).
  apply bind_Ok in Hrun as (? & ? & [H2 ->]%assert_on_Ok & Hrun).
  apply bind_Ok in Hrun as (? & ? & [H3 ->]%assert_on_Ok & Hrun).
  apply bind_Ok in Hrun as (? & ? & [= <- <-] & Hrun).
  injection Hrun as <-. cbn [config]. rewrite prop_insert_eq, Hc in *.
  by destruct d.
Qed.

Lemma resolveOptions_expire d s s' :
  resolveOptions d s = (Ok tt, s') →
  (config s').["expireIn"] = expireIn_of (config s) (Some d) ∧
  at_least "expireInSeconds" 1 (config s) = true ∧
  at_least "expireInMinutes" 1 (config s) = true ∧
  at_least "expireInHours" 1 (config s) = true.
Proof.
  intros Hrun. resolve_steps Hrun.
  destruct (applyExpirationConfig_Ok _ _ _ Hs4) as (He & Hsec & Hmin & Hh).
  unfold expireIn_of, at_least in *.
  assert ((config s3).["expireInSeconds"] = (config s).["expireInSeconds"]) as H1
    by (frame "expireInSeconds"; reflexivity).
  assert ((config s3).["expireInMinutes"] = (config s).["expireInMinutes"]) as H2
    by (frame "expireInMinutes"; reflexivity).
  assert ((config s3).["expireInHours"] = (config s).["expireInHours"]) as H3
    by (frame "expireInHours"; reflexivity).
  assert (has "expireInSeconds" (config s3) = has "expireInSeconds" (config s)) as H4
    by (frame "expireInSeconds"; reflexivity).
  assert (has "expireInMinutes" (config s3) = has "expireInMinutes" (config s)) as H5
    by (frame "expireInMinutes"; reflexivity).
  assert (has "expireInHours" (config s3) = has "expireInHours" (config s)) as H6
    by (frame "expireInHours"; reflexivity).
  rewrite H1, H2, H3, H4, H5, H6 in *. rewrite <- He.
  clear Hs1 Hs2 Hs3 Hs4. repeat split; try done.
  frame "expireIn"; reflexivity.
Qed.



Lemma resolveOptions_factors d : factors (resolveOptions d).
Proof.
  unfold resolveOptions.
  repeat first
    [ apply applyRetryConfig_factors
    | apply applyExpirationConfig_factors
    | apply applyRetentionConfig_factors
    | apply applyCompletionConfig_factors
    | apply applySingletonKeyConfig_factors
    | progress factors_tac ].
Qed.

Lemma resolveOptions_validation d : throws (λ e, validation e = true) (resolveOptions d).
Proof.
  assert (∀ A (m : M cstate A),
    throws before_archive_check m → throws (λ e, validation e = true) m) as Hweak.
  { intros A m Hm s e s' Hs. by destruct (Hm s e s' Hs). }
  unfold resolveOptions.
  repeat first
    [ apply Hweak, applyRetryConfig_throws
    | apply Hweak, applyExpirationConfig_throws
    | apply Hweak, applyRetentionConfig_throws
    | apply Hweak, applyCompletionConfig_throws
    | apply Hweak, applySingletonKeyConfig_throws
    | progress throws_tac ].
Qed.

(** A failure before the final check is not a failure of that check. *)
Ltac by_throws H :=
  match type of H with
  | ?m ?s = (Throw ?e, ?s') =>
      let Ht := fresh "Ht" in
      assert (throws before_archive_check m) as Ht by
        first
          [ apply applyRetryConfig_throws
          | apply applyExpirationConfig_throws
          | apply applyRetentionConfig_throws
          | apply applyCompletionConfig_throws
          | apply applySingletonKeyConfig_throws
          | throws_tac ];
      exact (proj2 (Ht s e s' H))
  end.

Lemma resolveOptions_before_archive_check d s e s' :
  archive_ok (config s) d = true →
  resolveOptions d s = (Throw e, s') → archive_check e = false.
Proof.
  intros Hok H0. unfold resolveOptions in H0.
  apply bind_Throw in H0 as [H0 | (? & s1 & Hs1 & H0)]; [by_throws H0 |].
  apply bind_Throw in H0 as [H0 | (? & s2 & Hs2 & H0)]; [by_throws H0 |].
  apply bind_Throw in H0 as [H0 | (? & s3 & Hs3 & H0)]; [by_throws H0 |].
  apply bind_Throw in H0 as [H0 | (? & s4 & Hs4 & H0)]; [by_throws H0 |].
  apply bind_Throw in H0 as [H0 | (? & s5 & Hs5 & H0)]; [by_throws H0 |].
  apply bind_Throw in H0 as [H0 | (? & s6 & Hs6 & H0)]; [by_throws H0 |].
  apply bind_Throw in H0 as [H0 | (? & s7 & Hs7 & H0)]; [by_throws H0 |].
  apply bind_Throw in H0 as [H0 | (? & ? & Hread & H0)]; [by_throws H0 |].
  rewrite read_run in Hread. injection Hread as <- <-. cbv beta iota in H0.
  apply bind_Throw in H0 as [H0 | (? & s8 & Hs8 & H0)]; [by_throws H0 |].
  apply bind_Throw in H0 as [H0 | (? & s9 & Hs9 & H0)]; [by_throws H0 |].
  apply assert_Throw in H0 as (Hno & _ & _).
  assert ((config s7).["singletonSeconds"] = (config s).["singletonSeconds"]) as Hsec
    by (frame "singletonSeconds"; reflexivity).
  unfold archive_ok in Hok. rewrite Hsec in Hno. congruence.
Qed.



End Resolution.

(** ** Runs on the heap *)

Lemma deref_app_new (h : list obj) o : deref (length h) (h ++ [o]) = o.
Proof. unfold deref. by rewrite lookup_app_r, Nat.sub_diag by done. Qed.

Lemma insert_app_new (h : list obj) o o' : <[length h := o']> (h ++ [o]) = h ++ [o'].
Proof. by rewrite insert_app_r_alt, Nat.sub_diag by done. Qed.

Lemma bind_ret {S A B} (a : A) (f : A → M S B) s : bind (ret a) f s = f a s.
Proof. done. Qed.

Lemma bind_throw {S A B} e (f : A → M S B) s : bind (throw e) f s = (Throw e, s).
Proof. done. Qed.

Lemma bind_gets {A B} (e : list obj → A) (f : A → M world B) w :
  bind (gets e) f w = f (e (heap w)) w.
Proof. done. Qed.

Lemma bind_alloc {B} o (f : nat → M world B) w :
  bind (alloc o) f w =
  f (length (heap w)) {| heap := heap w ++ [o]; wproc := wproc w; db := db w |}.
Proof. done. Qed.

Lemma bind_bind {S A B C} (m : M S A) (f : A → M S B) (g : B → M S C) s :
  bind (bind m f) g s = bind m (λ a, bind (f a) g) s.
Proof. unfold bind. by destruct (m s) as [[a|e] s']. Qed.

(** A copy is put on the heap, [m] runs on it, and the reference is
    returned. *)
Lemma alloc_zoom_run {A B} copy (m : M cstate A) (f : nat → B) w :
  (l ← alloc copy; zoom l m;; ret (f l)) w =
  let r := m {| config := copy; proc := wproc w |} in
  (match r.1 with Ok _ => Ok (f (length (heap w))) | Throw e => Throw e end,
   {| heap := heap w ++ [config r.2]; wproc := proc r.2; db := db w |}).
Proof.
  unfold bind, alloc, zoom, ret. cbn [heap wproc db].
  rewrite deref_app_new.
  destruct (m _) as [[a|e] s']; cbn; by rewrite insert_app_new.
Qed.

Section World.
Context `{Host}.

Lemma checkSendArgs_run args d w :
  (∃ e h', checkSendArgs args d w =
             (Throw e, {| heap := heap w ++ h'; wproc := wproc w; db := db w |}) ∧
           before_archive_check e) ∨
  (∃ name data h',
     let r := resolveOptions d {| config := supplied args (heap w); proc := wproc w |} in
     checkSendArgs args d w =
       (match r.1 with
        | Ok _ => Ok {| name := name; data := data; options := length (heap w ++ h') |}
        | Throw e => Throw e
        end,
        {| heap := (heap w ++ h') ++ [config r.2]; wproc := proc r.2; db := db w |})).
Proof.
  assert (∀ w : world, {| heap := heap w ++ []; wproc := wproc w; db := db w |} = w) as Hw.
  { intros []. cbn. by rewrite app_nil_r. }
  unfold checkSendArgs, supplied.
  set (unpacked := if String.eqb (typeof_arg (arg_index args 0)) "string" then _ else _).
  match goal with |- context [ bind unpacked ?K ] => set (k := K) end.
  assert (∀ name data options,
    (∃ e h', k (name, data, options) w =
               (Throw e, {| heap := heap w ++ h'; wproc := wproc w; db := db w |}) ∧
             before_archive_check e) ∨
    (∃ h',
       let r := resolveOptions d
         {| config := if truthy_arg options then spread options (heap w) else ∅;
            proc := wproc w |} in
       k (name, data, options) w =
         (match r.1 with
          | Ok _ => Ok {| name := name; data := data; options := length (heap w ++ h') |}
          | Throw e => Throw e
          end,
          {| heap := (heap w ++ h') ++ [config r.2]; wproc := proc r.2; db := db w |})))
    as Hk.
  { intros name data options. unfold k. cbn beta iota.
    destruct (truthy_arg options) eqn:Ho.
    - rewrite bind_ret.
      destruct (truthy_arg name); cbn [assert]; rewrite ?bind_ret, ?bind_throw.
      2: { left. eexists _, []. by rewrite Hw. }
      destruct (String.eqb (typeof_arg options) "object"); cbn [assert];
        rewrite ?bind_ret, ?bind_throw.
      2: { left. eexists _, []. by rewrite Hw. }
      rewrite bind_gets. right. exists [].
      pose proof (alloc_zoom_run (spread options (heap w)) (resolveOptions d)
                    (λ l, {| name := name; data := data; options := l |}) w) as Hz.
      cbv beta zeta in Hz. cbv zeta. rewrite Hz. by rewrite !app_nil_r.
    - rewrite bind_bind, bind_alloc, bind_ret.
      set (w1 := {| heap := heap w ++ [∅]; wproc := wproc w; db := db w |}).
      destruct (truthy_arg name); cbn [assert]; rewrite ?bind_ret, ?bind_throw.
      2: { left. by eexists _, [∅]. }
      cbn [assert typeof_arg String.eqb Ascii.eqb Bool.eqb]. rewrite bind_ret, bind_gets.
      right. exists [∅].
      pose proof (alloc_zoom_run (spread (Ref (length (heap w))) (heap w1)) (resolveOptions d)
                    (λ l, {| name := name; data := data; options := l |}) w1) as Hz.
      cbv beta zeta in Hz. cbv zeta. rewrite Hz.
      unfold w1. cbn [heap wproc db spread]. by rewrite deref_app_new. }
  clearbody k. unfold unpacked. clear unpacked.
  destruct (String.eqb (typeof_arg (arg_index args 0)) "string").
  - destruct (String.eqb (typeof_arg (arg_index args 1)) "function").
    + rewrite bind_throw. left. eexists _, []. by rewrite Hw.
    + rewrite bind_ret.
      destruct (Hk (arg_index args 0) (arg_index args 1) (arg_index args 2))
        as [(e & h' & He & ?) | (h' & He)]; [left | right].
      * by exists e, h'.
      * by exists (arg_index args 0), (arg_index args 1), h'.
  - destruct (String.eqb (typeof_arg (arg_index args 0)) "object").
    + cbn [assert]. rewrite bind_bind, !bind_ret.
      destruct (Hk (arg_name args) (arg_data args) (arg_options args))
        as [(e & h' & He & ?) | (h' & He)]; [left | right].
      * by exists e, h'.
      * by exists (arg_name args), (arg_data args), h'.
    + rewrite bind_ret.
      destruct (Hk (arg_name args) undefined undefined)
        as [(e & h' & He & ?) | (h' & He)]; [left | right].
      * by exists e, h'.
      * by exists (arg_name args), undefined, h'.
Qed.

Lemma checkSendArgs_Ok args d w req w' :
  checkSendArgs args d w = (Ok req, w') →
  ∃ s', resolveOptions d {| config := supplied args (heap w); proc := wproc w |} = (Ok tt, s') ∧
        deref (options req) (heap w') = config s' ∧
        wproc w' = proc s' ∧ db w' = db w.
Proof.
  intros Hrun.
  destruct (checkSendArgs_run args d w) as [(e & h' & He & _) | (name & data & h' & He)];
    rewrite He in Hrun; [discriminate|].
  cbv zeta in Hrun.
  destruct (resolveOptions d _) as [[[]|e] s']; [| discriminate].
  injection Hrun as <- <-. exists s'. cbn. by rewrite deref_app_new.
Qed.

Lemma checkSendArgs_Throw args d w e w' :
  checkSendArgs args d w = (Throw e, w') →
  before_archive_check e ∨
  ∃ s', resolveOptions d {| config := supplied args (heap w); proc := wproc w |} = (Throw e, s').
Proof.
  intros Hrun.
  destruct (checkSendArgs_run args d w) as [(e' & h' & He & ?) | (name & data & h' & He)];
    rewrite He in Hrun.
  - left. by injection Hrun as <- _.
  - right. cbv zeta in Hrun.
    destruct (resolveOptions d _) as [[[]|e'] s']; [discriminate|].
    injection Hrun as <- _. by exists s'.
Qed.

Lemma checkSendArgs_validation args d :
  throws (λ e, validation e = true) (checkSendArgs args d).
Proof.
  intros w e w' [[? _] | (s' & Hs)]%checkSendArgs_Throw; [done|].
  by eapply resolveOptions_validation.
Qed.

(** A call whose options cannot be resolved fails. *)
Lemma checkSendArgs_fails args d w :
  (∀ s', resolveOptions d {| config := supplied args (heap w); proc := wproc w |} ≠ (Ok tt, s')) →
  ∃ e, (checkSendArgs args d w).1 = Throw e ∧ validation e = true.
Proof.
  intros Hno. destruct (checkSendArgs args d w) as [[req|e] w'] eqn:Hrun.
  - apply checkSendArgs_Ok in Hrun as (s' & Hs & _). by destruct (Hno s').
  - exists e. split; [done|]. by eapply checkSendArgs_validation.
Qed.

Lemma checkSendArgs_heap args d w :
  heap w `prefix_of` heap (checkSendArgs args d w).2.
Proof.
  destruct (checkSendArgs_run args d w) as [(e & h' & -> & _) | (name & data & h' & ->)];
    cbn; [| rewrite <- app_assoc]; apply prefix_app_r; done.
Qed.

Lemma mapM_copy_heap (m : M cstate unit) jobs w :
  heap w `prefix_of`
  heap (mapM (λ job, copy ← gets (spread job); job ← alloc copy; zoom job m;; ret job) jobs w).2.
Proof.
  revert w. induction jobs as [|job jobs IH]; intros w; [done|].
  cbn [mapM]. unfold bind at 1. rewrite bind_gets.
  pose proof (alloc_zoom_run (spread job (heap w)) m (λ l, l) w) as Hz.
  cbv beta zeta in Hz. rewrite Hz. clear Hz.
  destruct (m _) as [[[]|e] s']; cbn [fst snd].
  - set (w1 := {| heap := _ |}). unfold bind.
    specialize (IH w1). destruct (mapM _ jobs w1) as [[bs|e] w2]; cbn in *;
      (etrans; [| exact IH]); by apply prefix_app_r.
  - cbn. by apply prefix_app_r.
Qed.

Lemma checkInsertArgs_heap jobs w :
  heap w `prefix_of` heap (checkInsertArgs jobs w).2.
Proof. destruct jobs as [jobs|v]; [apply mapM_copy_heap | done]. Qed.

Lemma prefix_lookup (h h' : list obj) l o :
  h `prefix_of` h' → h !! l = Some o → h' !! l = Some o.
Proof. intros [k ->] Hl. by apply lookup_app_l_Some. Qed.

(** *** The singleton window *)

Lemma positive_VInt z : 0 < z → positive (VInt z) = true.
Proof.
  intros Hz. unfold positive, js_gt, js_lt, truthy, VInt, ToNumber, num_ltb.
  rewrite andb_true_iff, negb_true_iff, Z.eqb_neq, Z.ltb_lt. lia.
Qed.

Lemma js_mul_VInt a b : js_mul (VInt a) (VInt b) = VInt (a * b).
Proof. done. Qed.

(** C1: the singleton window that [checkSendArgs] resolves from the three
    units, for integers whose product is at most [Number.MAX_SAFE_INTEGER],
    where the multiplications of the code are exact.  A positive
    [singletonHours] h gives h*3600 and, without it, a positive
    [singletonMinutes] m gives m*60; without either, a positive
    [singletonSeconds] s gives s*60, not s; with no positive unit the window
    is null. *)
Theorem C1_singleton_window args d w req w' :
  checkSendArgs args d w = (Ok req, w') →
  let given := supplied args (heap w) in
  let resolved := deref (options req) (heap w') in
  (∀ h, given.["singletonHours"] = VInt h → 0 < h → h * 3600 ≤ MAX_SAFE_INTEGER →
        resolved.["singletonSeconds"] = VInt (h * 3600)) ∧
  (∀ m, positive given.["singletonHours"] = false →
        given.["singletonMinutes"] = VInt m → 0 < m → m * 60 ≤ MAX_SAFE_INTEGER →
        resolved.["singletonSeconds"] = VInt (m * 60)) ∧
  (∀ s, positive given.["singletonHours"] = false →
        positive given.["singletonMinutes"] = false →
        given.["singletonSeconds"] = VInt s → 0 < s → s * 60 ≤ MAX_SAFE_INTEGER →
        resolved.["singletonSeconds"] = VInt (s * 60)) ∧
  (positive given.["singletonHours"] = false →
   positive given.["singletonMinutes"] = false →
   positive given.["singletonSeconds"] = false →
   resolved.["singletonSeconds"] = VNull).
Proof.
  intros (s' & Hs & Hres & _)%checkSendArgs_Ok given resolved.
  apply resolveOptions_window in Hs as [Hwin _]. cbn [config] in Hwin.
  subst resolved. rewrite Hres, Hwin. unfold window. fold given.
  fold (positive given.["singletonHours"]) (positive given.["singletonMinutes"])
       (positive given.["singletonSeconds"]).
  repeat split.
  - intros h -> Hh _. rewrite positive_VInt, !js_mul_VInt by done. f_equal. lia.
  - intros m -> -> Hm _. by rewrite positive_VInt.
  - intros s -> -> -> Hsec _. by rewrite positive_VInt.
  - by intros -> -> ->.
Qed.

(** *** The archive check and zero retries, on an input *)

(** C3: a window given in hours is resolved to 7200 seconds and accepted
    under an archive interval of 3600 seconds; the same 7200 given in
    [singletonSeconds] is refused. *)
Theorem C3_window_from_hours_passes_the_archive_check :
  let d : obj := {[ "archiveSeconds" := VInt 3600 ]} in
  let hours := checkSendArgs (ArgsArray [Prim (VStr "q"); undefined; Ref 0])
                 d (world_of {[ "singletonHours" := VInt 2 ]}) in
  let seconds := checkSendArgs (ArgsArray [Prim (VStr "q"); undefined; Ref 0])
                   d (world_of {[ "singletonSeconds" := VInt 7200 ]}) in
  hours.1 = Ok {| name := Prim (VStr "q"); data := undefined; options := 1 |} ∧
  (deref 1 (heap hours.2)).["singletonSeconds"] = VInt 7200 ∧
  seconds.1 = Throw (AssertionError
    "throttling interval 7200s cannot exceed archive interval 3600s").
Proof. cbv zeta. split; [| split]; by vm_compute. Qed.

(** C4: [retryDelay] 0 with [retryBackoff] false is refused by the check
    that says "an integer >= 0", and so is [retryLimit] 0. *)
Theorem C4_retryDelay_zero_is_refused :
  let d : obj := {[ "schema" := VStr "pgboss" ]} in
  (checkSendArgs (ArgsArray [Prim (VStr "q"); undefined; Ref 0]) d
     (world_of {[ "retryDelay" := VInt 0; "retryBackoff" := VBool false ]})).1 =
    Throw (AssertionError "retryDelay must be an integer >= 0") ∧
  (checkSendArgs (ArgsArray [Prim (VStr "q"); undefined; Ref 0]) d
     (world_of {[ "retryLimit" := VInt 0 ]})).1 =
    Throw (AssertionError "retryLimit must be an integer >= 0").
Proof. cbv zeta. split; by vm_compute. Qed.

(** *** Retry *)

Lemma js_or_zero v : v = VUndefined ∨ v = VInt 0 → js_or v (VInt 0) = VInt 0.
Proof. by intros [-> | ->]. Qed.

Lemma js_or_zero_truthy v : js_or v (VInt 0) ≠ VInt 0 → truthy (js_or v (VInt 0)) = true.
Proof. unfold js_or. by destruct (truthy v) eqn:Hv. Qed.

Lemma retryDelay_of_truthy o d :
  retryDelay_of o d ≠ VInt 0 → truthy (retryDelay_of o d) = true.
Proof.
  unfold retryDelay_of. cbv zeta. destruct (_ && _); [done|]. apply js_or_zero_truthy.
Qed.

(** C5: the two corrections of the retry options after they are merged
    with the defaults.  With the merged [retryBackoff] true and the merged
    [retryDelay] unset or zero, the resolved [retryDelay] is 1; with a
    resolved [retryDelay] other than zero and the merged [retryLimit] unset
    or zero, the resolved [retryLimit] is 1. *)
Theorem C5_retry_corrections args d w req w' :
  checkSendArgs args d w = (Ok req, w') →
  let given := supplied args (heap w) in
  let resolved := deref (options req) (heap w') in
  let merged k := js_or given.[k] d.[k] in
  (merged "retryBackoff" = VBool true →
   merged "retryDelay" = VUndefined ∨ merged "retryDelay" = VInt 0 →
   resolved.["retryDelay"] = VInt 1) ∧
  (resolved.["retryDelay"] ≠ VInt 0 →
   merged "retryLimit" = VUndefined ∨ merged "retryLimit" = VInt 0 →
   resolved.["retryLimit"] = VInt 1).
Proof.
  intros (s' & Hs & Hres & _)%checkSendArgs_Ok given resolved merged.
  apply resolveOptions_retry in Hs as (Hd & Hl & _). cbn [config] in Hd, Hl.
  subst resolved. rewrite Hres, Hd, Hl. fold given. split.
  - intros Hb Hz. unfold retryDelay_of, retryBackoff_of. cbv zeta.
    fold (merged "retryBackoff") (merged "retryDelay").
    by rewrite Hb, (js_or_zero _ Hz).
  - intros Hnz Hz. apply retryDelay_of_truthy in Hnz.
    unfold retryLimit_of. cbv zeta. fold (merged "retryLimit").
    by rewrite Hnz, (js_or_zero _ Hz).
Qed.

(** *** Expiration *)

Lemma at_least_false k lo o :
  has k o = true → truthy o.[k] && js_ge o.[k] (VInt lo) = false →
  at_least k lo o = false.
Proof. unfold at_least. by intros -> ->. Qed.

(** C6, as the code has it: hours beat minutes beat seconds, each unit
    that is supplied has to be at least 1, and without any of the three the
    resolved [expireIn] is the [expireIn] of the defaults as it is, also
    when the defaults have none. *)
Theorem C6_expiration args d w :
  let given := supplied args (heap w) in
  (∀ req w', checkSendArgs args d w = (Ok req, w') →
     (deref (options req) (heap w')).["expireIn"] =
       if has "expireInHours" given then
         VStr (ToString given.["expireInHours"] +:+ " hours")
       else if has "expireInMinutes" given then
         VStr (ToString given.["expireInMinutes"] +:+ " minutes")
       else if has "expireInSeconds" given then
         VStr (ToString given.["expireInSeconds"] +:+ " seconds")
       else d.["expireIn"]) ∧
  (∀ k, k ∈ ["expireInHours"; "expireInMinutes"; "expireInSeconds"] →
     has k given = true →
     truthy given.[k] && js_ge given.[k] (VInt 1) = false →
     ∃ e, (checkSendArgs args d w).1 = Throw e ∧ validation e = true).
Proof.
  intros given. split.
  - intros req w' (s' & Hs & Hres & _)%checkSendArgs_Ok.
    apply resolveOptions_expire in Hs as (He & _). by rewrite Hres, He.
  - intros k Hk Hhas Hlow. apply checkSendArgs_fails. intros s' Hs.
    apply resolveOptions_expire in Hs as (_ & Hsec & Hmin & Hh). cbn [config] in *.
    pose proof (at_least_false k 1 given Hhas Hlow) as Hno. subst given.
    repeat (apply elem_of_cons in Hk as [-> | Hk]; [congruence |]).
    by apply elem_of_nil in Hk.
Qed.

(** *** The check against the archive interval *)

Lemma archive_ok_false o d s :
  o.["singletonSeconds"] = VInt s → 0 < s →
  truthy d.["archiveSeconds"] && js_le (VInt s) d.["archiveSeconds"] = false →
  archive_ok o d = false.
Proof.
  intros Hs Hpos Ha. unfold archive_ok, js_not. rewrite Hs, Ha.
  cbn. rewrite orb_false_r, negb_false_iff, negb_true_iff. apply Z.eqb_neq. lia.
Qed.

(** C10: the archive interval bounds the [singletonSeconds] that the call
    supplies, and nothing else.  With a positive [singletonSeconds] the call
    fails unless [archiveSeconds] of the defaults is truthy and not below
    it; when it is, or when the call supplies no [singletonSeconds], the
    check does not fail, whatever [singletonMinutes] and [singletonHours]
    are. *)
Theorem C10_archive_check_on_supplied_seconds args d w :
  let given := supplied args (heap w) in
  let raw := given.["singletonSeconds"] in
  let archive := d.["archiveSeconds"] in
  (∀ s, raw = VInt s → 0 < s →
     truthy archive && js_le raw archive = false →
     ∃ e, (checkSendArgs args d w).1 = Throw e ∧ validation e = true) ∧
  (truthy archive = true → js_le raw archive = true →
     ∀ e, (checkSendArgs args d w).1 = Throw e → archive_check e = false) ∧
  (truthy raw = false →
     ∀ e, (checkSendArgs args d w).1 = Throw e → archive_check e = false).
Proof.
  intros given raw archive.
  assert (archive_ok given d = true →
          ∀ e, (checkSendArgs args d w).1 = Throw e → archive_check e = false) as Hpass.
  { intros Hok e He. destruct (checkSendArgs args d w) as [r w'] eqn:Hrun.
    cbn in He. subst r.
    apply checkSendArgs_Throw in Hrun as [[_ ?] | (s' & Hs)]; [done|].
    eapply resolveOptions_before_archive_check; [| exact Hs]. exact Hok. }
  repeat split.
  - intros s Hraw Hpos Ha. apply checkSendArgs_fails. intros s' Hs.
    apply resolveOptions_window in Hs as [_ Hok]. cbn [config] in Hok.
    subst raw. rewrite Hraw in Ha.
    pose proof (archive_ok_false given d s Hraw Hpos Ha) as Hno.
    subst given. congruence.
  - intros Ha Hle. apply Hpass. unfold archive_ok. fold raw archive.
    rewrite Ha, Hle. apply orb_true_r.
  - intros Hraw. apply Hpass. unfold archive_ok, js_not. fold raw. by rewrite Hraw.
Qed.

(** *** The caller's objects *)

(** C8: [checkSendArgs] and [checkInsertArgs] leave every object of the
    heap they are called on, the caller's options among them, as it was,
    whether they return or throw. *)
Theorem C8_caller_objects_unchanged args d jobs w l o :
  heap w !! l = Some o →
  heap (checkSendArgs args d w).2 !! l = Some o ∧
  heap (checkInsertArgs jobs w).2 !! l = Some o.
Proof.
  intros Hl. split; (eapply prefix_lookup; [| exact Hl]).
  - apply checkSendArgs_heap.
  - apply checkInsertArgs_heap.
Qed.

End World.

(** ** Sequences of calls *)

(** ** Calls and the process *)

Lemma wfactors_ret {A} (a : A) : wfactors (ret a).
Proof. intros h d. exists (Ok a), h, []. split; [apply not_elem_of_nil | done]. Qed.

Lemma wfactors_throw {A} e : wfactors (throw (A:=A) e).
Proof. intros h d. exists (Throw e), h, []. split; [apply not_elem_of_nil | done]. Qed.

Lemma wfactors_assert c message : wfactors (assert c message).
Proof. destruct c; [apply wfactors_ret | apply wfactors_throw]. Qed.

Lemma wfactors_gets {A} (e : list obj → A) : wfactors (gets e).
Proof. intros h d. exists (Ok (e h)), h, []. split; [apply not_elem_of_nil | done]. Qed.

Lemma wfactors_alloc o : wfactors (alloc o).
Proof.
  intros h d. exists (Ok (length h)), (h ++ [o]), [].
  split; [apply not_elem_of_nil | done].
Qed.

Lemma wfactors_bind {A B} (m : M world A) (f : A → M world B) :
  wfactors m → (∀ a, wfactors (f a)) → wfactors (bind m f).
Proof.
  intros Hm Hf h d. destruct (Hm h d) as (r & h1 & ws1 & Hs1 & Hm1).
  destruct r as [a|e].
  - destruct (Hf a h1 d) as (r2 & h2 & ws2 & Hs2 & Hf2).
    exists r2, h2, (ws1 ++ ws2). split.
    + rewrite elem_of_app. tauto.
    + intros p. unfold bind. by rewrite Hm1, Hf2, notice_all_app.
  - exists (Throw e), h1, ws1. split; [done|].
    intros p. unfold bind. by rewrite Hm1.
Qed.

Lemma wfactors_zoom {A} l (m : M cstate A) : factors m → wfactors (zoom l m).
Proof.
  intros Hm h d. destruct (Hm (deref l h)) as (r & o' & ws & Hs & Hrun).
  exists r, (<[l := o']> h), ws. split; [done|].
  intros p. unfold zoom. cbn [heap wproc db]. by rewrite Hrun.
Qed.

Lemma wfactors_mapM {A B} (f : A → M world B) l :
  (∀ a, wfactors (f a)) → wfactors (mapM f l).
Proof.
  intros Hf. induction l as [|a l IH]; cbn [mapM]; [apply wfactors_ret|].
  apply wfactors_bind; [done | intros b].
  apply wfactors_bind; [done | intros bs]. apply wfactors_ret.
Qed.

Ltac wfactors_step :=
  first
    [ apply wfactors_ret
    | apply wfactors_throw
    | apply wfactors_assert
    | apply wfactors_gets
    | apply wfactors_alloc
    | apply wfactors_mapM; intros
    | apply wfactors_bind; [| intros ]
    | match goal with
      | |- wfactors (if ?c then _ else _) => destruct c
      | |- wfactors (match ?c with _ => _ end) => destruct c
      end ].

(** *** What the emissions do to the counts *)

Lemma warning_code_inj w1 w2 : warning_code w1 = warning_code w2 → w1 = w2.
Proof. by destruct w1, w2. Qed.

Lemma count_emit w w' message force p :
  count w (emitWarning w' message force p).2 =
  if force || negb (bool_decide (w' ∈ warned p))
  then (count w p + if bool_decide (w = w') then 1 else 0)%nat
  else count w p.
Proof.
  unfold emitWarning, count. destruct (_ || _); [|done]. cbn [snd emitted].
  rewrite filter_app, length_app. f_equal.
  case_bool_decide as Hw.
  - subst. by rewrite filter_cons_True.
  - rewrite filter_cons_False; [done|]. cbn. intros Hc. by apply warning_code_inj in Hc.
Qed.

Lemma warned_emit w w' message force p :
  w ∈ warned p → w ∈ warned (emitWarning w' message force p).2.
Proof. unfold emitWarning. destruct (_ || _); [|done]. cbn. by apply list_elem_of_further. Qed.

Lemma once_process0 : once process0.
Proof. intros w _. unfold count. cbn. split; [lia | discriminate]. Qed.

Lemma once_notice w' p : once p → once (emitWarning w' None false p).2.
Proof.
  intros Hp w Hw. destruct (Hp w Hw) as [Hle Hset].
  rewrite count_emit. cbn [orb].
  destruct (bool_decide (w' ∈ warned p)) eqn:Hin; cbn [negb].
  - split; [done|]. intros Hc. by apply warned_emit, Hset.
  - apply bool_decide_eq_false in Hin. case_bool_decide as Heq.
    + subst w'. assert (count w p = 0%nat) as -> by (destruct (count w p) as [|[|]]; [done | by destruct Hin; apply Hset | lia]).
      split; [lia|]. intros _. unfold emitWarning. cbn [orb].
      rewrite bool_decide_eq_false_2 by done. cbn. apply list_elem_of_here.
    + rewrite Nat.add_0_r. split; [done|]. intros Hc. by apply warned_emit, Hset.
Qed.

Lemma once_notice_all ws p : once p → once (notice_all ws p).
Proof.
  revert p. induction ws as [|w ws IH]; intros p Hp; [done|].
  change (notice_all (w :: ws) p) with (notice_all ws (emitWarning w None false p).2).
  apply IH. by apply once_notice.
Qed.

Lemma once_skew message p : once p → once (emitWarning CLOCK_SKEW (Some message) true p).2.
Proof.
  intros Hp w Hw. destruct (Hp w Hw) as [Hle Hset].
  rewrite count_emit. cbn [orb]. rewrite bool_decide_eq_false_2 by done.
  rewrite Nat.add_0_r. split; [done|]. intros Hc. by apply warned_emit, Hset.
Qed.

Lemma count_skew_notice_all ws p :
  CLOCK_SKEW ∉ ws → count CLOCK_SKEW (notice_all ws p) = count CLOCK_SKEW p.
Proof.
  revert p. induction ws as [|w ws IH]; intros p Hws; [done|].
  apply not_elem_of_cons in Hws as [Hw Hws].
  change (notice_all (w :: ws) p) with (notice_all ws (emitWarning w None false p).2).
  rewrite IH by done.
  rewrite count_emit. destruct (_ || _); [|done].
  rewrite bool_decide_eq_false_2 by done. lia.
Qed.

Section CallsProcess.
Context `{Host}.

Lemma checkSendArgs_wfactors args d : wfactors (checkSendArgs args d).
Proof.
  unfold checkSendArgs.
  repeat first [ apply wfactors_zoom, resolveOptions_factors | wfactors_step ].
Qed.

Lemma checkInsertArgs_wfactors jobs : wfactors (checkInsertArgs jobs).
Proof.
  unfold checkInsertArgs.
  repeat first [ apply wfactors_zoom, applySingletonKeyConfig_factors | wfactors_step ].
Qed.

Lemma getConfig_wfactors value : wfactors (getConfig value).
Proof.
  unfold getConfig.
  repeat first
    [ apply wfactors_zoom;
      repeat first
        [ apply applyDatabaseConfig_factors
        | apply applyMaintenanceConfig_factors
        | apply applyArchiveConfig_factors
        | apply applyArchiveFailedConfig_factors
        | apply applyDeleteConfig_factors
        | apply applyMonitoringConfig_factors
        | apply applyUuidConfig_factors
        | apply applyNewJobCheckInterval_factors
        | apply applyExpirationConfig_factors
        | apply applyRetentionConfig_factors
        | apply applyCompletionConfig_factors
        | apply factors_bind; [| intros ] ]
    | wfactors_step ].
Qed.

(** A call other than [warnClockSkew]. *)
Lemma perform_wfactors c : is_warnClockSkew c = false → wfactors (perform c).
Proof.
  destruct c; [| | | done]; intros _; cbn [perform];
    (apply wfactors_bind; [| intros; apply wfactors_ret]).
  - apply checkSendArgs_wfactors.
  - apply checkInsertArgs_wfactors.
  - apply getConfig_wfactors.
Qed.

Lemma perform_process c w :
  once (wproc w) →
  once (wproc (perform c w).2) ∧
  count CLOCK_SKEW (wproc (perform c w).2) =
    (count CLOCK_SKEW (wproc w) + if is_warnClockSkew c then 1 else 0)%nat.
Proof.
  intros Hw. destruct (is_warnClockSkew c) eqn:Hc.
  - destruct c; try discriminate. cbn [perform].
    unfold warnClockSkew, on_process, bind, ret.
    pose proof (emitWarning_Ok CLOCK_SKEW (Some message) true (wproc w)) as Hok.
    pose proof (once_skew message (wproc w) Hw) as Ho.
    pose proof (count_emit CLOCK_SKEW CLOCK_SKEW (Some message) true (wproc w)) as Hn.
    destruct (emitWarning _ _ _ _) as [r p]. cbn in Hok. subst r. cbn in *.
    split; [done|]. by rewrite Hn, bool_decide_eq_true_2.
  - destruct w as [h p d].
    destruct (perform_wfactors c Hc h d) as (r & h' & ws & Hws & Hrun).
    rewrite Hrun. cbn. split; [by apply once_notice_all|].
    rewrite count_skew_notice_all by done. lia.
Qed.

Lemma run_calls_process calls w :
  once (wproc w) →
  once (wproc (run_calls calls w)) ∧
  count CLOCK_SKEW (wproc (run_calls calls w)) =
    (count CLOCK_SKEW (wproc w) + length (filter is_warnClockSkew calls))%nat.
Proof.
  revert w. induction calls as [|c calls IH]; intros w Hw.
  - cbn. split; [done | lia].
  - cbn [run_calls foldl]. destruct (perform_process c w Hw) as [Ho Hn].
    destruct (IH _ Ho) as [Ho' Hn']. split; [done|].
    unfold run_calls in Hn'. rewrite Hn', Hn.
    destruct (is_warnClockSkew c) eqn:Hc.
    + rewrite filter_cons_True; [cbn; lia | by rewrite Hc].
    + rewrite filter_cons_False; [lia | rewrite Hc; exact id].
Qed.

(** The process does not decide what a call returns or what it leaves on
    the heap and in the database. *)
Lemma perform_blind c h d p p' :
  let r := perform c {| heap := h; wproc := p; db := d |} in
  let r' := perform c {| heap := h; wproc := p'; db := d |} in
  r.1 = r'.1 ∧ heap r.2 = heap r'.2 ∧ db r.2 = db r'.2.
Proof.
  destruct (is_warnClockSkew c) eqn:Hc.
  - destruct c; try discriminate. cbn [perform].
    unfold warnClockSkew, on_process, bind, ret. cbn [heap wproc db].
    pose proof (emitWarning_Ok CLOCK_SKEW (Some message) true p) as Hok.
    pose proof (emitWarning_Ok CLOCK_SKEW (Some message) true p') as Hok'.
    destruct (emitWarning _ _ _ p) as [r q], (emitWarning _ _ _ p') as [r' q'].
    cbn in *. by subst.
  - destruct (perform_wfactors c Hc h d) as (r & h' & ws & Hws & Hrun).
    cbv zeta. by rewrite !Hrun.
Qed.

(** C9: from a process that has emitted nothing, after any sequence of
    calls of [checkSendArgs], [checkInsertArgs], [getConfig] and
    [warnClockSkew], the warnings for [expireIn] and for the disabled cron
    have each been emitted at most once and the clock skew warning once for
    each call of [warnClockSkew]; the warnings already emitted change neither
    what a call returns nor what it leaves behind, and emitting never
    throws. *)
Theorem C9_warnings_once calls h d :
  let w := run_calls calls {| heap := h; wproc := process0; db := d |} in
  (count EXPIRE_IN_REMOVED (wproc w) ≤ 1)%nat ∧
  (count CRON_DISABLED (wproc w) ≤ 1)%nat ∧
  count CLOCK_SKEW (wproc w) = length (filter is_warnClockSkew calls) ∧
  (∀ c h d p p',
     let r := perform c {| heap := h; wproc := p; db := d |} in
     let r' := perform c {| heap := h; wproc := p'; db := d |} in
     r.1 = r'.1 ∧ heap r.2 = heap r'.2 ∧ db r.2 = db r'.2) ∧
  (∀ w message force p, (emitWarning w message force p).1 = Ok tt) ∧
  (∀ message w, (warnClockSkew message w).1 = Ok tt).
Proof.
  intros w.
  destruct (run_calls_process calls {| heap := h; wproc := process0; db := d |}
              once_process0) as [Ho Hn].
  fold w in Ho, Hn.
  split; [by apply Ho|]. split; [by apply Ho|]. split; [by rewrite Hn|].
  split; [apply perform_blind|]. split; [apply emitWarning_Ok|].
  intros message w0. unfold warnClockSkew, on_process.
  pose proof (emitWarning_Ok CLOCK_SKEW (Some message) true (wproc w0)) as Hok.
  by destruct (emitWarning _ _ _ _).
Qed.

End CallsProcess.

(** ** The insert *)

Lemma and_then_Ok {A B} (r : result A) (k : A → result B) b :
  and_then r k = Ok b ↔ ∃ a, r = Ok a ∧ k a = Ok b.
Proof.
  destruct r as [a|e]; cbn; split.
  - by exists a.
  - by intros (? & [= <-] & ?).
  - discriminate.
  - by intros (? & [=] & _).
Qed.

Lemma and_then_error {A B} (r : result A) (k : A → result B) :
  (∀ e', r = Throw e' → validation e' = false) →
  (∀ a e', k a = Throw e' → validation e' = false) →
  ∀ e, and_then r k = Throw e → validation e = false.
Proof.
  destruct r as [a|e']; cbn; [intros _ Hk e; apply Hk | intros Hr _ e [= <-]; by apply Hr].
Qed.

Lemma filter_none {A} (P : A → Prop) `{∀ x, Decision (P x)} (l : list A) :
  (∀ x, x ∈ l → ¬ P x) → filter P l = [].
Proof.
  induction l as [|a l IH]; intros Hl; [done|].
  rewrite filter_cons_False by (apply Hl, list_elem_of_here).
  apply IH. intros x Hx. by apply Hl, list_elem_of_further.
Qed.

Section Statement.
Context `{Postgres}.

Lemma unique_violation_true j table :
  unique_violation j table = true ↔
  sql_null (job_singletonKey j) = false ∧
  ∃ r, r ∈ table ∧ holds_slot (job_name j) (job_singletonKey j) (job_singletonOn j) r.
Proof.
  unfold unique_violation. rewrite andb_true_iff, negb_true_iff, existsb_exists.
  split; intros [Hn (r & Hr & Hs)]; (split; [done|]); exists r.
  - apply list_elem_of_In in Hr. by apply bool_decide_eq_true in Hs.
  - apply list_elem_of_In in Hr. by rewrite bool_decide_eq_true.
Qed.

Lemma unique_violation_false j table :
  (∀ r, r ∈ table → ¬ holds_slot (job_name j) (job_singletonKey j) (job_singletonOn j) r) →
  unique_violation j table = false.
Proof.
  intros Hfree. apply not_true_iff_false. intros (_ & r & Hr & Hs)%unique_violation_true.
  by apply (Hfree r).
Qed.

(** The failures of the statement are failures of the database. *)
Lemma cast_text_error v e : cast_text v = Throw e → validation e = false.
Proof.
  unfold cast_text. destruct (sql_null v); [discriminate|].
  destruct v as [[]| |]; try discriminate; destruct (text_of _); try discriminate;
    by intros [= <-].
Qed.

Lemma cast_number_error v e : cast_number v = Throw e → validation e = false.
Proof.
  unfold cast_number. destruct (sql_null v); [discriminate|].
  destruct v as [[| | |[]| |]| |]; try discriminate; destruct (number_of _); try discriminate;
    by intros [= <-].
Qed.

Lemma cast_int_error v e : cast_int v = Throw e → validation e = false.
Proof.
  unfold cast_int. revert e. apply and_then_error; [apply cast_number_error|].
  intros [z|] e'; [| discriminate]. destruct (int4 z); [discriminate | by intros [= <-]].
Qed.

Lemma cast_bool_error v e : cast_bool v = Throw e → validation e = false.
Proof.
  unfold cast_bool. destruct (sql_null v); [discriminate|].
  destruct v as [[]| |]; try discriminate; destruct (reads_boolean _); try discriminate;
    by intros [= <-].
Qed.

Lemma cast_jsonb_error v e : cast_jsonb v = Throw e → validation e = false.
Proof. unfold cast_jsonb. destruct (_ || _); [discriminate | by intros [= <-]]. Qed.

Lemma cast_interval_error t e : cast_interval t = Throw e → validation e = false.
Proof.
  destruct t as [t|]; [| discriminate]. cbn.
  destruct (reads_interval t); [discriminate | by intros [= <-]].
Qed.

Lemma cast_moment_error t e : cast_moment t = Throw e → validation e = false.
Proof.
  destruct t as [t|]; [| discriminate]. unfold cast_moment.
  destruct (ends_in_Z t); [| apply cast_interval_error].
  destruct (reads_timestamptz t); [discriminate | by intros [= <-]].
Qed.

Lemma cast_uuid_error v e : cast_uuid v = Throw e → validation e = false.
Proof.
  unfold cast_uuid. destruct v as [[| | | |s|]| |]; try (by intros [= <-]).
  destruct (reads_uuid s); [discriminate | by intros [= <-]].
Qed.

Lemma singletonOn_error now p9 p10 e :
  singletonOn now p9 p10 = Throw e → validation e = false.
Proof.
  unfold singletonOn. revert e. apply and_then_error; [apply cast_int_error|].
  intros [seconds|]; [| discriminate].
  apply and_then_error; [apply cast_number_error|].
  intros [offset|] e''; [| discriminate].
  destruct (seconds =? 0); [by intros [= <-] | discriminate].
Qed.

Lemma casts_error values e : casts values = Throw e → validation e = false.
Proof.
  unfold casts. revert e.
  repeat (apply and_then_error;
          [first [ apply cast_text_error | apply cast_int_error | apply cast_bool_error
                 | apply cast_jsonb_error | apply cast_moment_error
                 | apply and_then_error;
                   [apply cast_text_error | intros ?; apply cast_interval_error] ]
          | intros ?]).
  apply cast_moment_error.
Qed.

Lemma selectJob_error values now e : selectJob values now = Throw e → validation e = false.
Proof.
  unfold selectJob. revert e. apply and_then_error; [apply cast_uuid_error|]. intros _.
  apply and_then_error; [apply casts_error|]. intros _.
  apply and_then_error; [apply singletonOn_error | discriminate].
Qed.

Lemma selectJob_Ok values now j :
  selectJob values now = Ok j ↔
  cast_uuid (param values 1) = Ok tt ∧ casts values = Ok tt ∧
  ∃ on, singletonOn now (param values 9) (param values 10) = Ok on ∧
        j = newJob values now on.
Proof.
  unfold selectJob. rewrite and_then_Ok. split.
  - intros ([] & Hid & Hrest). apply and_then_Ok in Hrest as ([] & Hcasts & Hrest).
    apply and_then_Ok in Hrest as (on & Hon & [= <-]). eauto.
  - intros (Hid & Hcasts & on & Hon & ->). exists tt. split; [done|].
    apply and_then_Ok. exists tt. split; [done|]. apply and_then_Ok. by exists on.
Qed.

Lemma cast_int_VInt z : cast_int (Prim (VInt z)) =
  if int4 z then Ok (Some z) else Throw (StorageError "integer out of range").
Proof. done. Qed.

Lemma singletonOn_run now S off :
  int4 S = true → S ≠ 0 →
  singletonOn now (Prim (VInt S)) (Prim (VInt off)) = Ok (Some (S * ((now + off) / S))).
Proof.
  intros Hrange HS. unfold singletonOn. rewrite cast_int_VInt, Hrange. cbn.
  by rewrite (proj2 (Z.eqb_neq S 0)).
Qed.

Lemma singletonOn_VInt now S off on :
  singletonOn now (Prim (VInt S)) (Prim (VInt off)) = Ok on →
  S ≠ 0 ∧ int4 S = true ∧ on = Some (S * ((now + off) / S)).
Proof.
  unfold singletonOn. rewrite cast_int_VInt. destruct (int4 S); [| discriminate]. cbn.
  destruct (Z.eqb_spec S 0); [discriminate|]. by intros [= <-].
Qed.

Lemma insertJob_run schema values now w table j :
  db w !! schema = Some table →
  selectJob values now = Ok j → admits j = true →
  insertJob schema values now w =
    if unique_violation j table then (Ok [], w)
    else (Ok [job_id j],
          {| heap := heap w; wproc := wproc w; db := <[schema := table ++ [j]]> (db w) |}).
Proof. intros Ht Hj Ha. unfold insertJob. by rewrite Ht, Hj, Ha. Qed.

Lemma insertJob_Ok schema values now w rows w' :
  insertJob schema values now w = (Ok rows, w') →
  ∃ table j,
    db w !! schema = Some table ∧ selectJob values now = Ok j ∧ admits j = true ∧
    if unique_violation j table then rows = [] ∧ w' = w
    else rows = [job_id j] ∧
         w' = {| heap := heap w; wproc := wproc w; db := <[schema := table ++ [j]]> (db w) |}.
Proof.
  unfold insertJob. destruct (db w !! schema) as [table|]; [|discriminate].
  destruct (selectJob _ _) as [j|e]; [|discriminate].
  destruct (admits j) eqn:Ha; [|discriminate]. cbn [negb].
  intros Hrun. exists table, j. split; [done|]. split; [done|]. split; [done|].
  destruct (unique_violation _ _); by injection Hrun as <- <-.
Qed.

Lemma insertJob_Throw schema values now w e w' :
  insertJob schema values now w = (Throw e, w') → w' = w ∧ validation e = false.
Proof.
  unfold insertJob. destruct (db w !! schema) as [table|]; [| by intros [= <- <-]].
  destruct (selectJob _ _) as [j|e'] eqn:Hj.
  - destruct (admits j); cbn [negb]; [| by intros [= <- <-]].
    by destruct (unique_violation _ _).
  - intros [= <- <-]. split; [done|]. by eapply selectJob_error.
Qed.


End Statement.

Section Insert.
Context `{Host} `{Postgres}.

Lemma createJob_run config id now name data options w :
  createJob config id now name data options w =
  insertJob (ToString config.["schema"])
    (insertValues id name data ((λ l, deref l (heap w)) <$> options)) now w.
Proof. done. Qed.

(** The parameters that decide the slot. *)
Lemma insertValues_slot id name data o :
  let values := insertValues id name data (Some o) in
  param values 1 = Prim (VStr id) ∧
  param values 2 = name ∧
  param values 8 =
    Prim (match o.["singletonKey"] with VUndefined => VNull | v => v end) ∧
  param values 9 = Prim o.["singletonSeconds"] ∧
  param values 10 = Prim (VInt (if has "singletonOffset" o then 1 else 0)).
Proof. unfold insertValues. cbv beta iota zeta. repeat split; reflexivity. Qed.

Lemma insertValues_id id name data o : param (insertValues id name data o) 1 = Prim (VStr id).
Proof.
  unfold insertValues. destruct o as [o|]; cbv beta iota zeta; reflexivity.
Qed.

Lemma insertValues_name id name data o : param (insertValues id name data o) 2 = name.
Proof.
  unfold insertValues. destruct o as [o|]; cbv beta iota zeta; reflexivity.
Qed.



(** C2: [createJob] returns the identifier it generated when, and only
    when, it has inserted the row, and in every other case leaves the world
    as it is.  With a row in the table that holds the slot of the new row,
    by name, singleton key and [singletonOn], neither of them null, a
    statement whose row the database reads and admits inserts nothing,
    returns no identifier and throws nothing.  Of two calls with the same name, the same singleton key
    and times in the same bucket of [singletonSeconds], whose rows the
    database reads and admits, on a table where the slot is free, the first
    returns its identifier, the second returns none, and the table holds one
    row for the slot. *)
Theorem C2_identifier_iff_inserted config name w table :
  let schema := ToString config.["schema"] in
  db w !! schema = Some table →
  (∀ id now data options,
     let r := createJob config id now name data options w in
     (r.1 = Ok [Prim (VStr id)] ∧
      ∃ j, r.2 = {| heap := heap w; wproc := wproc w;
                    db := <[schema := table ++ [j]]> (db w) |} ∧
           job_id j = Prim (VStr id) ∧ job_name j = name ∧ job_now j = now) ∨
     (r.1 ≠ Ok [Prim (VStr id)] ∧ r.2 = w)) ∧
  (∀ id now data options j,
     let values := insertValues id name data ((λ l, deref l (heap w)) <$> options) in
     selectJob values now = Ok j → admits j = true →
     sql_null (job_singletonKey j) = false → is_Some (job_singletonOn j) →
     (∃ r, r ∈ table ∧ holds_slot name (job_singletonKey j) (job_singletonOn j) r) →
     createJob config id now name data options w = (Ok [], w)) ∧
  (∀ id1 id2 now1 now2 data1 data2 l1 l2 key seconds j1 j2,
     let o1 := deref l1 (heap w) in
     let o2 := deref l2 (heap w) in
     let offset := if has "singletonOffset" o1 then 1 else 0 in
     let slot := holds_slot name (Prim (VStr key))
                   (Some (seconds * ((now1 + offset) / seconds))) in
     o1.["singletonKey"] = VStr key → o2.["singletonKey"] = VStr key →
     o1.["singletonSeconds"] = VInt seconds →
     o2.["singletonSeconds"] = VInt seconds →
     0 < seconds →
     has "singletonOffset" o2 = has "singletonOffset" o1 →
     (now1 + offset) / seconds = (now2 + offset) / seconds →
     selectJob (insertValues id1 name data1 (Some o1)) now1 = Ok j1 → admits j1 = true →
     selectJob (insertValues id2 name data2 (Some o2)) now2 = Ok j2 → admits j2 = true →
     (∀ r, r ∈ table → ¬ slot r) →
     ∃ w1 table1,
       createJob config id1 now1 name data1 (Some l1) w = (Ok [Prim (VStr id1)], w1) ∧
       createJob config id2 now2 name data2 (Some l2) w1 = (Ok [], w1) ∧
       db w1 !! schema = Some table1 ∧
       length (filter slot table1) = 1%nat).
Proof.
  intros schema Htable. split; [| split].
  - intros id now data options r. subst r. rewrite createJob_run. fold schema.
    set (values := insertValues id name data _).
    destruct (insertJob schema values now w) as [[rows|e] w'] eqn:Hrun; cbn [fst snd].
    + apply insertJob_Ok in Hrun as (table' & j & Ht & Hj & _ & Hcase).
      rewrite Htable in Ht. injection Ht as <-.
      apply selectJob_Ok in Hj as (_ & _ & on & _ & ->).
      destruct (unique_violation _ _); destruct Hcase as [-> ->].
      * right. by split.
      * left. cbn [newJob job_id job_name job_now].
        unfold values. rewrite insertValues_id. split; [done|].
        eexists. split; [reflexivity|]. cbn [newJob job_id job_name job_now].
        by rewrite insertValues_id, insertValues_name.
    + apply insertJob_Throw in Hrun as [-> _]. right. by split.
  - intros id now data options j values Hj Ha Hkey _ (r & Hr & Hslot).
    rewrite createJob_run. fold schema values.
    rewrite (insertJob_run _ _ _ _ _ _ Htable Hj Ha).
    rewrite (proj2 (unique_violation_true j table)); [done|].
    split; [done|]. exists r. split; [done|].
    apply selectJob_Ok in Hj as (_ & _ & on & _ & ->).
    cbn [newJob job_name job_singletonKey job_singletonOn] in *.
    unfold values in *. by rewrite insertValues_name in *.
  - intros id1 id2 now1 now2 data1 data2 l1 l2 key seconds j1 j2 o1 o2 offset slot
      Hk1 Hk2 Hs1 Hs2 Hpos Hoff Hbucket Hj1 Ha1 Hj2 Ha2 Hfree.
    set (on := Some (seconds * ((now1 + offset) / seconds))).
    set (v1 := insertValues id1 name data1 (Some o1)) in *.
    set (v2 := insertValues id2 name data2 (Some o2)) in *.
    destruct (insertValues_slot id1 name data1 o1) as (Hi1 & Hn1 & Hkey1 & Hsec1 & Hoff1).
    destruct (insertValues_slot id2 name data2 o2) as (Hi2 & Hn2 & Hkey2 & Hsec2 & Hoff2).
    fold v1 in Hi1, Hn1, Hkey1, Hsec1, Hoff1. fold v2 in Hi2, Hn2, Hkey2, Hsec2, Hoff2.
    rewrite Hk1, Hs1 in *. rewrite Hk2, Hs2, Hoff in *. fold offset in Hoff1, Hoff2.
    apply selectJob_Ok in Hj1 as Hsel1. destruct Hsel1 as (_ & _ & on1 & Hon1 & ->).
    apply selectJob_Ok in Hj2 as Hsel2. destruct Hsel2 as (_ & _ & on2 & Hon2 & ->).
    rewrite Hsec1, Hoff1 in Hon1. apply singletonOn_VInt in Hon1 as (_ & _ & ->).
    rewrite Hsec2, Hoff2 in Hon2. apply singletonOn_VInt in Hon2 as (_ & _ & ->).
    rewrite <- Hbucket in *. fold on in Hj1, Hj2, Ha1, Ha2.
    set (j1 := newJob v1 now1 on) in *. set (j2 := newJob v2 now2 on) in *.
    assert (slot j1) as Hslot1.
    { unfold slot, holds_slot, j1. cbn [newJob job_name job_singletonKey job_singletonOn].
      by rewrite Hn1, Hkey1. }
    assert (slot j2) as Hslot2.
    { unfold slot, holds_slot, j2. cbn [newJob job_name job_singletonKey job_singletonOn].
      by rewrite Hn2, Hkey2. }
    assert (job_name j1 = name ∧ job_singletonKey j1 = Prim (VStr key) ∧
            job_singletonOn j1 = on) as (Hjn1 & Hjk1 & Hjo1) by (by unfold j1; cbn).
    assert (job_name j2 = name ∧ job_singletonKey j2 = Prim (VStr key) ∧
            job_singletonOn j2 = on) as (Hjn2 & Hjk2 & Hjo2) by (by unfold j2; cbn).
    set (w1 := {| heap := heap w; wproc := wproc w; db := <[schema := table ++ [j1]]> (db w) |}).
    exists w1, (table ++ [j1]). split; [| split; [| split]].
    + rewrite createJob_run. cbn [fmap option_fmap option_map]. fold schema o1 v1.
      rewrite (insertJob_run _ _ _ _ _ _ Htable Hj1 Ha1).
      rewrite unique_violation_false; [unfold j1 at 1; cbn [newJob job_id]; by rewrite Hi1 |].
      intros r Hr. rewrite Hjn1, Hjk1, Hjo1. by apply Hfree.
    + rewrite createJob_run. cbn [fmap option_fmap option_map heap w1]. fold schema o2 v2.
      assert (db w1 !! schema = Some (table ++ [j1])) as Ht1 by apply lookup_insert_eq.
      rewrite (insertJob_run _ _ _ _ _ _ Ht1 Hj2 Ha2).
      rewrite (proj2 (unique_violation_true j2 (table ++ [j1]))); [done|].
      split; [by rewrite Hjk2 |].
      exists j1. split; [apply elem_of_app; right; apply list_elem_of_here |].
      by rewrite Hjn2, Hjk2, Hjo2.
    + apply lookup_insert_eq.
    + rewrite filter_app, length_app, filter_cons_True, filter_nil by done.
      by rewrite (filter_none _ _ Hfree).
Qed.

End Insert.

(** ** The two helpers *)

Lemma bind_zoom {A B} l (m : M cstate A) (f : A → M world B) w :
  bind (zoom l m) f w =
  let r := m {| config := deref l (heap w); proc := wproc w |} in
  let w' := {| heap := <[l := config r.2]> (heap w); wproc := proc r.2; db := db w |} in
  match r.1 with
  | Ok a => f a w'
  | Throw e => (Throw e, w')
  end.
Proof. unfold bind, zoom. by destruct (m _) as [[a|e] s]. Qed.


Section Helpers.
Context `{Host} `{Postgres}.

Lemma checkSendArgs_eq args d w :
  checkSendArgs args d w =
  match unpacked args with
  | Throw e => (Throw e, w)
  | Ok (name, data, options) =>
      let w1 := {| heap := heap w ++ (if truthy_arg options then [] else [∅]);
                   wproc := wproc w; db := db w |} in
      if negb (truthy_arg name) then
        (Throw (AssertionError "boss requires all jobs to have a queue name"), w1)
      else if truthy_arg options && negb (String.eqb (typeof_arg options) "object") then
        (Throw (AssertionError "options should be an object"), w1)
      else
        let r := resolveOptions d
          {| config := if truthy_arg options then spread options (heap w) else ∅;
             proc := wproc w |} in
        (match r.1 with
         | Ok _ => Ok {| name := name; data := data; options := length (heap w1) |}
         | Throw e => Throw e
         end,
         {| heap := heap w1 ++ [config r.2]; wproc := proc r.2; db := db w |})
  end.
Proof.
  assert (∀ w : world, {| heap := heap w ++ []; wproc := wproc w; db := db w |} = w) as Hw.
  { intros []. cbn. by rewrite app_nil_r. }
  unfold checkSendArgs, unpacked.
  set (m := if String.eqb (typeof_arg (arg_index args 0)) "string" then _ else _).
  match goal with |- context [ bind m ?K ] => set (k := K) end.
  assert (∀ name data options,
    k (name, data, options) w =
      let w1 := {| heap := heap w ++ (if truthy_arg options then [] else [∅]);
                   wproc := wproc w; db := db w |} in
      if negb (truthy_arg name) then
        (Throw (AssertionError "boss requires all jobs to have a queue name"), w1)
      else if truthy_arg options && negb (String.eqb (typeof_arg options) "object") then
        (Throw (AssertionError "options should be an object"), w1)
      else
        let r := resolveOptions d
          {| config := if truthy_arg options then spread options (heap w) else ∅;
             proc := wproc w |} in
        (match r.1 with
         | Ok _ => Ok {| name := name; data := data; options := length (heap w1) |}
         | Throw e => Throw e
         end,
         {| heap := heap w1 ++ [config r.2]; wproc := proc r.2; db := db w |})) as Hk.
  { intros name data options. unfold k. cbn beta iota zeta.
    destruct (truthy_arg options) eqn:Ho.
    - rewrite bind_ret, Hw.
      destruct (truthy_arg name); cbn [assert negb andb]; rewrite ?bind_ret, ?bind_throw; [|done].
      destruct (String.eqb (typeof_arg options) "object"); cbn [assert negb];
        rewrite ?bind_ret, ?bind_throw; [|done].
      rewrite bind_gets.
      pose proof (alloc_zoom_run (spread options (heap w)) (resolveOptions d)
                    (λ l, {| name := name; data := data; options := l |}) w) as Hz.
      cbv beta zeta in Hz. by rewrite Hz.
    - rewrite bind_bind, bind_alloc, bind_ret.
      set (w1 := {| heap := heap w ++ [∅]; wproc := wproc w; db := db w |}).
      destruct (truthy_arg name); cbn [assert negb andb]; rewrite ?bind_ret, ?bind_throw; [|done].
      cbn [assert typeof_arg String.eqb Ascii.eqb Bool.eqb]. rewrite bind_ret, bind_gets.
      pose proof (alloc_zoom_run (spread (Ref (length (heap w))) (heap w1)) (resolveOptions d)
                    (λ l, {| name := name; data := data; options := l |}) w1) as Hz.
      cbv beta zeta in Hz. rewrite Hz.
      unfold w1. cbn [heap wproc db spread]. by rewrite deref_app_new. }
  clearbody k. unfold m. clear m.
  destruct (String.eqb (typeof_arg (arg_index args 0)) "string").
  - destruct (String.eqb (typeof_arg (arg_index args 1)) "function").
    + by rewrite bind_throw.
    + by rewrite bind_ret, Hk.
  - destruct (String.eqb (typeof_arg (arg_index args 0)) "object").
    + cbn [assert]. by rewrite bind_bind, !bind_ret, Hk.
    + by rewrite bind_ret, Hk.
Qed.

Lemma sendWindowed_eq b conf id now name data options seconds key w :
  sendWindowed b conf id now name data options seconds key w =
  bind (checkSendArgs (ArgsArray [Prim name; data; Ref (length (heap w))]) conf)
    (λ '(Build_Request name data options),
       createJob conf id now name data (Some options))
    {| heap := heap w ++ [based b (copied options (heap w)) seconds key];
       wproc := wproc w; db := db w |}.
Proof.
  destruct b; unfold sendWindowed, sendDebounced, sendThrottled, copyOptions;
    rewrite bind_bind, bind_gets, bind_alloc, bind_zoom;
    cbn [heap wproc db]; rewrite deref_app_new;
    cbv beta zeta; unfold bind at 1 2 3; cbn [assign fst snd config proc];
    by rewrite insert_app_new.
Qed.













End Helpers.

(** * Further properties of the code *)

(** ** Properties a function leaves as they are *)

Lemma keeps_ret k {A} (a : A) : keeps k (ret a).
Proof. by intros s. Qed.

Lemma keeps_throw k {A} e : keeps k (throw (A:=A) e).
Proof. by intros s. Qed.

Lemma keeps_bind k {A B} (m : M cstate A) (f : A → M cstate B) :
  keeps k m → (∀ a, keeps k (f a)) → keeps k (bind m f).
Proof.
  intros Hm Hf s. unfold bind. specialize (Hm s).
  destruct (m s) as [[a|e] s1]; [| done].
  rewrite <- Hm. apply Hf.
Qed.

Lemma keeps_assert k c message : keeps k (assert c message).
Proof. destruct c; [apply keeps_ret | apply keeps_throw]. Qed.

Lemma keeps_read k {A} (e : obj → A) : keeps k (read e).
Proof. by intros s. Qed.

Lemma keeps_assign k j e : j ≠ k → keeps k (assign j e).
Proof. intros Hj s. cbn. by rewrite lookup_insert_ne. Qed.

Lemma keeps_delete k j : j ≠ k → keeps k (delete_prop j).
Proof. intros Hj s. cbn. by rewrite lookup_delete_ne. Qed.

Lemma keeps_on_proc k {A} (m : M process A) : keeps k (on_proc m).
Proof. intros s. unfold on_proc. by destruct (m (proc s)). Qed.

Lemma keeps_run k {A} (m : M cstate A) s r s' :
  keeps k m → m s = (r, s') → config s' !! k = config s !! k.
Proof. intros Hm Hs. specialize (Hm s). by rewrite Hs in Hm. Qed.

Lemma kept_prop k {A} (m : M cstate A) s r s' :
  keeps k m → m s = (r, s') → (config s').[k] = (config s).[k].
Proof. intros Hm Hs. unfold prop. by rewrite (keeps_run k m s r s' Hm Hs). Qed.

Lemma kept_has k {A} (m : M cstate A) s r s' :
  keeps k m → m s = (r, s') → has k (config s') = has k (config s).
Proof. intros Hm Hs. unfold has. by rewrite (keeps_run k m s r s' Hm Hs). Qed.

(** [j ≠ k] for a property name [j] of the code, from what is known of [k]. *)
Ltac other_key :=
  first
    [ apply (bool_decide_unpack _); vm_compute; exact I
    | match goal with
      | |- _ ≠ ?k => is_var k; congruence
      end ].

Ltac keeps_step :=
  lazymatch goal with
  | |- keeps _ (ret _) => apply keeps_ret
  | |- keeps _ (throw _) => apply keeps_throw
  | |- keeps _ (assert _ _) => apply keeps_assert
  | |- keeps _ (on_proc _) => apply keeps_on_proc
  | |- keeps _ (read _) => apply keeps_read
  | |- keeps _ (bind _ _) => apply keeps_bind; [| intros; cbv beta ]
  | |- keeps _ (assign _ _) => apply keeps_assign; other_key
  | |- keeps _ (delete_prop _) => apply keeps_delete; other_key
  | |- keeps _ (if ?c then _ else _) => destruct c
  | |- keeps _ (match ?c with _ => _ end) => destruct c
  end.

Ltac keeps_tac :=
  unfold assert_on, when_on, if_on, when; cbv zeta; repeat keeps_step.

Section Kept.
Context `{Host}.

Lemma applyRetryConfig_keeps k d :
  k ∉ ["retryDelay"; "retryLimit"; "retryBackoff"] → keeps k (applyRetryConfig d).
Proof.
  intros Hk. repeat (apply not_elem_of_cons in Hk as [? Hk]).
  unfold applyRetryConfig. keeps_tac.
Qed.

Lemma applyExpirationConfig_keeps k d : k ≠ "expireIn" → keeps k (applyExpirationConfig d).
Proof. intros Hk. unfold applyExpirationConfig. keeps_tac. Qed.

Lemma applyRetentionConfig_keeps k d : k ≠ "keepUntil" → keeps k (applyRetentionConfig d).
Proof. intros Hk. unfold applyRetentionConfig. keeps_tac. Qed.

Lemma applyCompletionConfig_keeps k d : k ≠ "onComplete" → keeps k (applyCompletionConfig d).
Proof. intros Hk. unfold applyCompletionConfig. keeps_tac. Qed.

Lemma applySingletonKeyConfig_keeps k :
  k ∉ ["singletonKey"; "useSingletonQueue"] → keeps k applySingletonKeyConfig.
Proof.
  intros Hk. repeat (apply not_elem_of_cons in Hk as [? Hk]).
  unfold applySingletonKeyConfig. keeps_tac.
Qed.

Lemma applyNewJobCheckInterval_keeps k d :
  k ≠ "newJobCheckInterval" → keeps k (applyNewJobCheckInterval d).
Proof. intros Hk. unfold applyNewJobCheckInterval. keeps_tac. Qed.

Lemma applyDatabaseConfig_keeps k : k ≠ "schema" → keeps k applyDatabaseConfig.
Proof. intros Hk. unfold applyDatabaseConfig. keeps_tac. Qed.

Lemma applyArchiveConfig_keeps k :
  k ∉ ["archiveSeconds"; "archiveInterval"] → keeps k applyArchiveConfig.
Proof.
  intros Hk. repeat (apply not_elem_of_cons in Hk as [? Hk]).
  unfold applyArchiveConfig. keeps_tac.
Qed.

Lemma applyArchiveFailedConfig_keeps k :
  k ∉ ["archiveFailedSeconds"; "archiveFailedInterval"] → keeps k applyArchiveFailedConfig.
Proof.
  intros Hk. repeat (apply not_elem_of_cons in Hk as [? Hk]).
  unfold applyArchiveFailedConfig. keeps_tac.
Qed.

Lemma applyMaintenanceConfig_keeps k :
  k ≠ "maintenanceIntervalSeconds" → keeps k applyMaintenanceConfig.
Proof. intros Hk. unfold applyMaintenanceConfig. keeps_tac. Qed.

Lemma applyDeleteConfig_keeps k : k ≠ "deleteAfter" → keeps k applyDeleteConfig.
Proof. intros Hk. unfold applyDeleteConfig. keeps_tac. Qed.

Lemma applyMonitoringConfig_keeps k :
  k ∉ ["monitorStateIntervalSeconds"; "clockMonitorIntervalSeconds";
       "cronMonitorIntervalSeconds"; "cronWorkerIntervalSeconds"] →
  keeps k applyMonitoringConfig.
Proof.
  intros Hk. repeat (apply not_elem_of_cons in Hk as [? Hk]).
  unfold applyMonitoringConfig. keeps_tac.
Qed.

Lemma applyUuidConfig_keeps k : k ≠ "uuid" → keeps k applyUuidConfig.
Proof. intros Hk. unfold applyUuidConfig. keeps_tac. Qed.

Lemma resolveOptions_keeps k d : k ∉ resolved_keys → keeps k (resolveOptions d).
Proof.
  intros Hk. unfold resolved_keys in Hk.
  repeat (apply not_elem_of_cons in Hk as [? Hk]). clear Hk.
  unfold resolveOptions.
  repeat lazymatch goal with
    | |- keeps _ (applyRetryConfig _) =>
        apply applyRetryConfig_keeps;
        repeat (apply not_elem_of_cons; split; [congruence|]); apply not_elem_of_nil
    | |- keeps _ (applyExpirationConfig _) => apply applyExpirationConfig_keeps; congruence
    | |- keeps _ (applyRetentionConfig _) => apply applyRetentionConfig_keeps; congruence
    | |- keeps _ (applyCompletionConfig _) => apply applyCompletionConfig_keeps; congruence
    | |- keeps _ applySingletonKeyConfig =>
        apply applySingletonKeyConfig_keeps;
        repeat (apply not_elem_of_cons; split; [congruence|]); apply not_elem_of_nil
    | |- keeps _ (assert_on _ _) => unfold assert_on
    | |- _ => keeps_step
    end.
Qed.

End Kept.

(** The side condition that a key is none of those listed. *)
Ltac listed := apply (bool_decide_unpack _); vm_compute; exact I.

Ltac keeps_of :=
  lazymatch goal with
  | |- keeps _ (applyRetryConfig _) => apply applyRetryConfig_keeps; listed
  | |- keeps _ (applyExpirationConfig _) => apply applyExpirationConfig_keeps; listed
  | |- keeps _ (applyRetentionConfig _) => apply applyRetentionConfig_keeps; listed
  | |- keeps _ (applyCompletionConfig _) => apply applyCompletionConfig_keeps; listed
  | |- keeps _ applySingletonKeyConfig => apply applySingletonKeyConfig_keeps; listed
  | |- keeps _ applyDatabaseConfig => apply applyDatabaseConfig_keeps; listed
  | |- keeps _ applyMaintenanceConfig => apply applyMaintenanceConfig_keeps; listed
  | |- keeps _ applyArchiveConfig => apply applyArchiveConfig_keeps; listed
  | |- keeps _ applyArchiveFailedConfig => apply applyArchiveFailedConfig_keeps; listed
  | |- keeps _ applyDeleteConfig => apply applyDeleteConfig_keeps; listed
  | |- keeps _ applyMonitoringConfig => apply applyMonitoringConfig_keeps; listed
  | |- keeps _ applyUuidConfig => apply applyUuidConfig_keeps; listed
  | |- keeps _ (applyNewJobCheckInterval _) => apply applyNewJobCheckInterval_keeps; listed
  | |- _ => solve [ keeps_tac ]
  end.

(** [config s' .[k]] and [has k (config s')] back along the steps of a
    run that leave [k] as it is. *)
Ltac kept k :=
  repeat match goal with
    | Hs : ?m ?s = (_, ?s') |- context [ prop (config ?s') k ] =>
        rewrite (kept_prop k m s _ s' ltac:(keeps_of) Hs)
    | Hs : ?m ?s = (_, ?s') |- context [ has k (config ?s') ] =>
        rewrite (kept_has k m s _ s' ltac:(keeps_of) Hs)
    end.

(** The steps of a run of [resolveOptions] that returns. *)
Ltac resolved_steps H :=
  unfold resolveOptions in H;
  apply bind_Ok in H as (? & s1 & Hs1 & H);
  apply bind_Ok in H as (? & s2 & Hs2 & H);
  apply bind_Ok in H as (? & s3 & Hs3 & H);
  apply bind_Ok in H as (? & s4 & Hs4 & H);
  apply bind_Ok in H as (? & s5 & Hs5 & H);
  apply bind_Ok in H as (? & s6 & Hs6 & H);
  apply bind_Ok in H as (? & s7 & Hs7 & H);
  apply bind_Ok in H as (? & ? & Hread & H);
  rewrite read_run in Hread; injection Hread as <- <-; cbv beta iota in H;
  apply bind_Ok in H as (? & s8 & Hs8 & H);
  apply bind_Ok in H as (? & s9 & Hs9 & H);
  apply assert_Ok in H as [H ->];
  repeat match goal with u : () |- _ => destruct u end.

(** The steps of a run of [configure] that returns. *)
Ltac configure_steps H :=
  unfold configure in H;
  apply bind_Ok in H as (? & s1 & Hs1 & H);
  apply bind_Ok in H as (? & s2 & Hs2 & H);
  apply bind_Ok in H as (? & s3 & Hs3 & H);
  apply bind_Ok in H as (? & s4 & Hs4 & H);
  apply bind_Ok in H as (? & s5 & Hs5 & H);
  apply bind_Ok in H as (? & s6 & Hs6 & H);
  apply bind_Ok in H as (? & s7 & Hs7 & H);
  apply bind_Ok in H as (? & s8 & Hs8 & H);
  apply bind_Ok in H as (? & s9 & Hs9 & H);
  apply bind_Ok in H as (? & s10 & Hs10 & H);
  repeat match goal with u : () |- _ => destruct u end.

Lemma has_insert_eq (o : obj) k v : has k (<[k := v]> o) = true.
Proof. unfold has. rewrite lookup_insert_eq. by apply bool_decide_eq_true_2. Qed.

Lemma has_delete_eq (o : obj) k : has k (delete k o) = false.
Proof.
  unfold has. rewrite lookup_delete_eq. apply bool_decide_eq_false_2. by intros [? ?].
Qed.

Lemma assign_has_eq k e s s' u : assign k e s = (Ok u, s') → has k (config s') = true.
Proof. intros [= _ <-]. apply has_insert_eq. Qed.

Lemma has_prop (o : obj) k : has k o = false → o.[k] = VUndefined.
Proof.
  unfold has, prop. intros Hk%bool_decide_eq_false.
  destruct (o !! k) eqn:E; [by destruct Hk | done].
Qed.

Section Resolved.
Context `{Host}.

Lemma resolveOptions_startAfter d s s' :
  resolveOptions d s = (Ok tt, s') →
  (config s').["startAfter"] = startAfter_of (config s).
Proof.
  intros Hrun. resolved_steps Hrun.
  assert ((config s7).["startAfter"] = (config s).["startAfter"]) as Ha
    by (kept "startAfter"; reflexivity).
  unfold startAfter_of. rewrite <- Ha.
  assert ((config s9).["startAfter"] = (config s8).["startAfter"]) as ->.
  { clear Hs8. repeat match goal with
      | Hs : (if ?c then _ else _) _ = _ |- _ => destruct c
      end; (eapply assign_prop_ne; [| exact Hs9]; done). }
  clear Hs9.
  destruct ((config s7).["startAfter"]);
    repeat match goal with
      | Hs : (if ?c then _ else _) _ = _ |- _ => destruct c
      end; by rewrite (assign_prop_eq _ _ _ _ _ Hs8).
Qed.

Lemma resolveOptions_priority d s s' :
  resolveOptions d s = (Ok tt, s') →
  (config s').["priority"] = js_or (config s).["priority"] (VInt 0) ∧
  negb (has "priority" (config s)) || isInteger (config s).["priority"] = true.
Proof.
  intros Hrun. resolved_steps Hrun.
  apply assert_on_Ok in Hs1 as [Hint ->]. split; [| done].
  rewrite <- (assign_prop_eq _ _ _ _ _ Hs2). clear Hs2.
  kept "priority". reflexivity.
Qed.

Lemma applyRetentionConfig_Ok d s s' :
  applyRetentionConfig d s = (Ok tt, s') →
  (config s').["keepUntil"] = keepUntil_of (config s) d ∧
  at_least "retentionSeconds" 1 (config s) = true ∧
  at_least "retentionMinutes" 1 (config s) = true ∧
  at_least "retentionHours" 1 (config s) = true ∧
  at_least "retentionDays" 1 (config s) = true.
Proof.
  intros Hrun. unfold applyRetentionConfig in Hrun.
  apply bind_Ok in Hrun as (? & ? & [H1 ->]%assert_on_Ok & Hrun).
  apply bind_Ok in Hrun as (? & ? & [H2 ->]%assert_on_Ok & Hrun).
  apply bind_Ok in Hrun as (? & ? & [H3 ->]%assert_on_Ok & Hrun).
  apply bind_Ok in Hrun as (? & ? & [H4 ->]%assert_on_Ok & Hrun).
  apply bind_Ok in Hrun as (? & ? & [= <- <-] & Hrun).
  injection Hrun as <-. cbn [config]. rewrite prop_insert_eq.
  by destruct d.
Qed.

Lemma resolveOptions_keepUntil d s s' :
  resolveOptions d s = (Ok tt, s') →
  (config s').["keepUntil"] = keepUntil_of (config s) (Some d) ∧
  at_least "retentionSeconds" 1 (config s) = true ∧
  at_least "retentionMinutes" 1 (config s) = true ∧
  at_least "retentionHours" 1 (config s) = true ∧
  at_least "retentionDays" 1 (config s) = true.
Proof.
  intros Hrun. resolved_steps Hrun.
  destruct (applyRetentionConfig_Ok _ _ _ Hs5) as (Hk & Hsec & Hmin & Hh & Hd).
  unfold keepUntil_of, at_least in *.
  assert ((config s4).["retentionSeconds"] = (config s).["retentionSeconds"]) as H1
    by (kept "retentionSeconds"; reflexivity).
  assert ((config s4).["retentionMinutes"] = (config s).["retentionMinutes"]) as H2
    by (kept "retentionMinutes"; reflexivity).
  assert ((config s4).["retentionHours"] = (config s).["retentionHours"]) as H3
    by (kept "retentionHours"; reflexivity).
  assert ((config s4).["retentionDays"] = (config s).["retentionDays"]) as H4
    by (kept "retentionDays"; reflexivity).
  assert (has "retentionSeconds" (config s4) = has "retentionSeconds" (config s)) as H5
    by (kept "retentionSeconds"; reflexivity).
  assert (has "retentionMinutes" (config s4) = has "retentionMinutes" (config s)) as H6
    by (kept "retentionMinutes"; reflexivity).
  assert (has "retentionHours" (config s4) = has "retentionHours" (config s)) as H7
    by (kept "retentionHours"; reflexivity).
  assert (has "retentionDays" (config s4) = has "retentionDays" (config s)) as H8
    by (kept "retentionDays"; reflexivity).
  rewrite H1, H2, H3, H4, H5, H6, H7, H8 in *. rewrite <- Hk.
  clear Hs1 Hs2 Hs3 Hs4 Hs5. repeat split; try done.
  kept "keepUntil"; reflexivity.
Qed.

Lemma applyCompletionConfig_Ok d s s' :
  applyCompletionConfig d s = (Ok tt, s') →
  (config s').["onComplete"] =
    (if has "onComplete" (config s) then (config s).["onComplete"]
     else match d with Some d => d.["onComplete"] | None => VBool false end) ∧
  (has "onComplete" (config s) = true → ∃ b, (config s).["onComplete"] = VBool b).
Proof.
  intros Hrun. unfold applyCompletionConfig in Hrun.
  apply bind_Ok in Hrun as (? & ? & [Hb ->]%assert_on_Ok & Hrun).
  unfold when_on, if_on in Hrun.
  apply bind_Ok in Hrun as (? & ? & [= <- <-] & Hrun).
  destruct (has "onComplete" (config s)) eqn:Hhas; cbn [negb orb] in *.
  - injection Hrun as <-. split; [done|]. intros _.
    destruct ((config s).["onComplete"]) as [| |b|[]| |]; cbn in Hb; try discriminate Hb.
    by exists b.
  - rewrite (assign_prop_eq _ _ _ _ _ Hrun). split; [done | discriminate].
Qed.

Lemma resolveOptions_onComplete d s s' :
  resolveOptions d s = (Ok tt, s') →
  (config s').["onComplete"] =
    (if has "onComplete" (config s) then (config s).["onComplete"] else d.["onComplete"]) ∧
  (has "onComplete" (config s) = true → ∃ b, (config s).["onComplete"] = VBool b).
Proof.
  intros Hrun. resolved_steps Hrun.
  destruct (applyCompletionConfig_Ok _ _ _ Hs6) as (Hc & Hb).
  assert ((config s5).["onComplete"] = (config s).["onComplete"]) as H1
    by (kept "onComplete"; reflexivity).
  assert (has "onComplete" (config s5) = has "onComplete" (config s)) as H2
    by (kept "onComplete"; reflexivity).
  rewrite H1, H2 in *. rewrite <- Hc. split; [| done].
  clear Hs1 Hs2 Hs3 Hs4 Hs5 Hs6. kept "onComplete"; reflexivity.
Qed.

Lemma applySingletonKeyConfig_Ok s s' :
  applySingletonKeyConfig s = (Ok tt, s') →
  (config s').["singletonKey"] = singletonKey_of (config s) ∧
  has "useSingletonQueue" (config s') = false.
Proof.
  intros Hrun. unfold applySingletonKeyConfig, when_on, if_on in Hrun.
  apply bind_Ok in Hrun as (? & s1 & Hs1 & Hdel).
  apply bind_Ok in Hs1 as (? & ? & [= <- <-] & Hs1).
  injection Hdel as <-. cbn [config]. split; [| apply has_delete_eq].
  rewrite prop_delete_ne by done. unfold singletonKey_of.
  destruct (_ && _).
  - by rewrite (assign_prop_eq _ _ _ _ _ Hs1).
  - by injection Hs1 as _ <-.
Qed.

Lemma resolveOptions_singletonKey d s s' :
  resolveOptions d s = (Ok tt, s') →
  (config s').["singletonKey"] = singletonKey_of (config s) ∧
  has "useSingletonQueue" (config s') = false.
Proof.
  intros Hrun. resolved_steps Hrun.
  destruct (applySingletonKeyConfig_Ok _ _ Hs7) as (Hk & Hu).
  assert ((config s6).["singletonKey"] = (config s).["singletonKey"]) as H1
    by (kept "singletonKey"; reflexivity).
  assert ((config s6).["useSingletonQueue"] = (config s).["useSingletonQueue"]) as H2
    by (kept "useSingletonQueue"; reflexivity).
  unfold singletonKey_of in *. rewrite H1, H2 in Hk.
  clear Hs1 Hs2 Hs3 Hs4 Hs5 Hs6 Hs7. split.
  - rewrite <- Hk. kept "singletonKey"; reflexivity.
  - kept "useSingletonQueue"; exact Hu.
Qed.

End Resolved.

(** ** Properties a function sets *)

Lemma sets_assign k e : sets k (assign k e).
Proof. intros s a s' Hs. destruct a. by eapply assign_has_eq. Qed.

Lemma sets_bind_r k {A B} (m : M cstate A) (f : A → M cstate B) :
  (∀ a, sets k (f a)) → sets k (bind m f).
Proof. intros Hf s b s' (a & s1 & _ & Hs)%bind_Ok. by eapply Hf. Qed.

Lemma sets_bind_l k {A B} (m : M cstate A) (f : A → M cstate B) :
  sets k m → (∀ a, keeps k (f a)) → sets k (bind m f).
Proof.
  intros Hm Hf s b s' (a & s1 & Hs1 & Hs)%bind_Ok.
  rewrite (kept_has k (f a) s1 _ s' (Hf a) Hs). by eapply Hm.
Qed.

Ltac sets_step :=
  first
    [ apply sets_assign
    | apply sets_bind_r; intros
    | match goal with
      | |- sets _ (if ?c then _ else _) => destruct c
      | |- sets _ (match ?c with _ => _ end) => destruct c
      end ].

Section Shape.
Context `{Host}.

Lemma applyRetryConfig_sets k d :
  k ∈ ["retryDelay"; "retryLimit"; "retryBackoff"] → sets k (applyRetryConfig (Some d)).
Proof.
  intros Hk. unfold applyRetryConfig.
  do 6 (apply sets_bind_r; intros).
  repeat (apply elem_of_cons in Hk as [-> | Hk]); [| | | by apply elem_of_nil in Hk].
  - apply sets_bind_r; intros. apply sets_bind_l; [apply sets_assign | intros; keeps_tac].
  - do 2 (apply sets_bind_r; intros). apply sets_assign.
  - apply sets_bind_l; [apply sets_assign | intros; keeps_tac].
Qed.

Lemma applyExpirationConfig_sets d : sets "expireIn" (applyExpirationConfig d).
Proof. unfold applyExpirationConfig. repeat sets_step. Qed.

Lemma applyRetentionConfig_sets d : sets "keepUntil" (applyRetentionConfig d).
Proof. unfold applyRetentionConfig. repeat sets_step. Qed.

Lemma applyCompletionConfig_sets d : sets "onComplete" (applyCompletionConfig d).
Proof.
  intros s a s' Hrun. unfold applyCompletionConfig, when_on, if_on in Hrun.
  apply bind_Ok in Hrun as (? & ? & [_ ->]%assert_on_Ok & Hrun).
  apply bind_Ok in Hrun as (? & ? & [= <- <-] & Hrun).
  destruct (has "onComplete" (config s)) eqn:Hhas; cbn [negb] in Hrun.
  - by injection Hrun as _ <-.
  - destruct a. by eapply assign_has_eq.
Qed.

Lemma resolveOptions_sets k d : k ∈ resolved_always → sets k (resolveOptions d).
Proof.
  intros Hk s [] s' Hrun. resolved_steps Hrun. unfold resolved_always in Hk.
  repeat (apply elem_of_cons in Hk as [-> | Hk]); [..| by apply elem_of_nil in Hk].
  - kept "priority". by eapply assign_has_eq.
  - kept "retryDelay". eapply applyRetryConfig_sets; [| exact Hs3]. set_solver.
  - kept "retryLimit". eapply applyRetryConfig_sets; [| exact Hs3]. set_solver.
  - kept "retryBackoff". eapply applyRetryConfig_sets; [| exact Hs3]. set_solver.
  - kept "expireIn". by eapply applyExpirationConfig_sets.
  - kept "keepUntil". by eapply applyRetentionConfig_sets.
  - kept "onComplete". by eapply applyCompletionConfig_sets.
  - kept "startAfter". clear Hs9.
    destruct ((config s7).["startAfter"]);
      repeat match goal with
        | Hs : (if ?c then _ else _) _ = _ |- _ => destruct c
        end; by eapply assign_has_eq.
  - repeat match goal with
      | Hs : (if ?c then _ else _) _ = _ |- _ => destruct c
      end; by eapply assign_has_eq.
Qed.

(** X1: the options object that [checkSendArgs] returns always has the nine
    properties priority, retryDelay, retryLimit, retryBackoff, expireIn,
    keepUntil, onComplete, startAfter and singletonSeconds, never has
    useSingletonQueue, and agrees with the supplied options on every
    property other than the eleven it writes. *)
Theorem X1_resolved_shape args d w req w' :
  checkSendArgs args d w = (Ok req, w') →
  let given := supplied args (heap w) in
  let resolved := deref (options req) (heap w') in
  (∀ k, k ∈ resolved_always → has k resolved = true) ∧
  has "useSingletonQueue" resolved = false ∧
  (∀ k, k ∉ resolved_keys → resolved !! k = given !! k).
Proof.
  intros (s' & Hs & Hres & _)%checkSendArgs_Ok given resolved.
  subst resolved. rewrite Hres. split; [| split].
  - intros k Hk. by eapply resolveOptions_sets.
  - by apply resolveOptions_singletonKey in Hs as [_ ?].
  - intros k Hk. apply (keeps_run k _ _ _ _ (resolveOptions_keeps k d Hk) Hs).
Qed.

End Shape.

Section Options.
Context `{Host}.

(** *** startAfter *)

Lemma startAfter_of_cases o :
  startAfter_of o = VNull ∨ ∃ s, startAfter_of o = VStr s.
Proof.
  unfold startAfter_of.
  destruct (o.["startAfter"]) as [| |b|n|s|t] eqn:E;
    try (destruct (_ && _); [right; eauto | cbn; by left]).
  - destruct (_ && _); [right; eauto | cbn; right; eauto].
  - right; eauto.
Qed.

Lemma js_gt_VInt n : truthy (VInt n) && js_gt (VInt n) (VInt 0) = bool_decide (0 < n).
Proof.
  unfold js_gt, js_lt, truthy, VInt, ToNumber, num_ltb.
  case_bool_decide as Hn.
  - apply andb_true_iff. split; [apply negb_true_iff, Z.eqb_neq; lia | by apply Z.ltb_lt].
  - apply andb_false_iff. right. apply Z.ltb_ge. lia.
Qed.

(** X2: the resolved [startAfter] is null or a string: a date becomes its
    ISO string, an integer above zero and up to [Number.MAX_SAFE_INTEGER]
    its decimal digits, an integer that is zero or negative null, a string
    stays as it is, and an absent, null or false value becomes null. *)
Theorem X2_startAfter args d w req w' :
  checkSendArgs args d w = (Ok req, w') →
  let given := (supplied args (heap w)).["startAfter"] in
  let resolved := (deref (options req) (heap w')).["startAfter"] in
  (resolved = VNull ∨ ∃ s, resolved = VStr s) ∧
  (∀ t, given = VDate t → resolved = VStr (DateToISOString t)) ∧
  (∀ n, given = VInt n → n ≤ MAX_SAFE_INTEGER →
        resolved = if bool_decide (0 < n) then VStr (pretty n) else VNull) ∧
  (∀ s, given = VStr s → resolved = VStr s) ∧
  (given = VUndefined ∨ given = VNull ∨ given = VBool false → resolved = VNull).
Proof.
  intros (s' & Hs & Hres & _)%checkSendArgs_Ok given resolved.
  apply resolveOptions_startAfter in Hs. cbn [config] in Hs.
  subst resolved. rewrite Hres, Hs. split; [apply startAfter_of_cases|].
  unfold startAfter_of. fold given. repeat split.
  - by intros t ->.
  - intros n -> _. pose proof (js_gt_VInt n) as Hg. unfold VInt in *. cbv iota.
    rewrite Hg. by case_bool_decide.
  - intros s ->. by destruct (_ && _).
  - by intros [-> | [-> | ->]].
Qed.

(** *** priority and onComplete *)

(** X3: the resolved [priority] is an integer, the supplied one or 0 when
    none is supplied; the resolved [onComplete] is the supplied boolean or
    the default's; a supplied priority that is no integer, or a supplied
    onComplete that is no boolean, is refused with a validation failure. *)
Theorem X3_priority_onComplete args d w :
  let given := supplied args (heap w) in
  (∀ req w', checkSendArgs args d w = (Ok req, w') →
     let resolved := deref (options req) (heap w') in
     (∃ n, resolved.["priority"] = VInt n ∧
           (has "priority" given = true → given.["priority"] = VInt n) ∧
           (has "priority" given = false → n = 0)) ∧
     (has "onComplete" given = true →
        ∃ b, given.["onComplete"] = VBool b ∧ resolved.["onComplete"] = VBool b) ∧
     (has "onComplete" given = false → resolved.["onComplete"] = d.["onComplete"])) ∧
  (has "priority" given = true → isInteger given.["priority"] = false →
     ∃ e, (checkSendArgs args d w).1 = Throw e ∧ validation e = true) ∧
  (has "onComplete" given = true → typeof given.["onComplete"] ≠ "boolean" →
     ∃ e, (checkSendArgs args d w).1 = Throw e ∧ validation e = true).
Proof.
  intros given. split; [| split].
  - intros req w' (s' & Hs & Hres & _)%checkSendArgs_Ok resolved.
    subst resolved. rewrite Hres.
    destruct (resolveOptions_priority _ _ _ Hs) as [Hp Hint].
    destruct (resolveOptions_onComplete _ _ _ Hs) as [Hc Hb].
    cbn [config] in *. fold given in Hp, Hint, Hc, Hb. split; [| split].
    + destruct (has "priority" given) eqn:Hhas; cbn [negb orb] in Hint.
      * destruct (given.["priority"]) as [| | |[n|]| |]; try discriminate Hint.
        exists n. rewrite Hp. split; [| done].
        unfold js_or. cbn. destruct (Z.eqb_spec n 0) as [->|]; done.
      * exists 0. rewrite Hp, (has_prop _ _ Hhas). done.
    + intros Hhas. destruct (Hb Hhas) as (b & Hgb). exists b. by rewrite Hc, Hhas.
    + intros Hhas. by rewrite Hc, Hhas.
  - intros Hhas Hint. apply checkSendArgs_fails. intros s' Hs.
    apply resolveOptions_priority in Hs as [_ Hok]. cbn [config] in Hok.
    fold given in Hok. by rewrite Hhas, Hint in Hok.
  - intros Hhas Hty. apply checkSendArgs_fails. intros s' Hs.
    apply resolveOptions_onComplete in Hs as [_ Hb]. cbn [config] in Hb.
    destruct (Hb Hhas) as (b & Hgb). fold given in Hgb. by rewrite Hgb in Hty.
Qed.

(** *** Retry *)

Lemma js_or_cases a b : js_or a b = a ∧ truthy a = true ∨ js_or a b = b ∧ truthy a = false.
Proof. unfold js_or. destruct (truthy a); [by left | by right]. Qed.

(** X4: in a resolved request [retryBackoff] is a boolean, a true
    [retryBackoff] comes with a truthy [retryDelay], a truthy [retryDelay]
    comes with a truthy [retryLimit], and a falsy [retryDelay] or
    [retryLimit] is the integer 0. *)
Theorem X4_retry_invariant args d w req w' :
  checkSendArgs args d w = (Ok req, w') →
  let resolved := deref (options req) (heap w') in
  (∃ b, resolved.["retryBackoff"] = VBool b ∧
        (b = true → truthy resolved.["retryDelay"] = true)) ∧
  (truthy resolved.["retryDelay"] = true → truthy resolved.["retryLimit"] = true) ∧
  (truthy resolved.["retryDelay"] = false → resolved.["retryDelay"] = VInt 0) ∧
  (truthy resolved.["retryLimit"] = false → resolved.["retryLimit"] = VInt 0).
Proof.
  intros (s' & Hs & Hres & _)%checkSendArgs_Ok resolved.
  apply resolveOptions_retry in Hs as (Hd & Hl & Hb). cbn [config] in *.
  subst resolved. rewrite Hres, Hd, Hl, Hb.
  set (o := supplied args (heap w)).
  unfold retryLimit_of. cbv zeta.
  set (rl := js_or (js_or o.["retryLimit"] d.["retryLimit"]) (VInt 0)).
  unfold retryDelay_of. cbv zeta.
  set (rd := js_or (js_or o.["retryDelay"] d.["retryDelay"]) (VInt 0)).
  assert (truthy rd = false → rd = VInt 0) as Hrd.
  { unfold rd. destruct (js_or_cases (js_or o.["retryDelay"] d.["retryDelay"]) (VInt 0))
      as [[-> ->] | [-> _]]; done. }
  assert (truthy rl = false → rl = VInt 0) as Hrl.
  { unfold rl. destruct (js_or_cases (js_or o.["retryLimit"] d.["retryLimit"]) (VInt 0))
      as [[-> ->] | [-> _]]; done. }
  unfold js_not.
  destruct (retryBackoff_of o d), (truthy rd) eqn:Ed, (truthy rl) eqn:El;
    cbn [negb andb truthy VInt Z.eqb]; rewrite ?Ed, ?El; cbn [negb andb];
    repeat split; eauto; try done; try (intros; by apply Hrd); try (intros; by apply Hrl).
Qed.

End Options.

Section Retention.
Context `{Host}.

(** X5: the resolved [keepUntil] is taken from the first of retentionDays,
    retentionHours, retentionMinutes and retentionSeconds that the options
    have, as the number followed by the unit, and is the default's
    [keepUntil] when they have none; a supplied retention below 1 (or
    falsy) is refused with a validation failure. *)
Theorem X5_keepUntil args d w :
  let given := supplied args (heap w) in
  (∀ req w', checkSendArgs args d w = (Ok req, w') →
     (deref (options req) (heap w')).["keepUntil"] =
       if has "retentionDays" given then
         VStr (ToString given.["retentionDays"] +:+ " days")
       else if has "retentionHours" given then
         VStr (ToString given.["retentionHours"] +:+ " hours")
       else if has "retentionMinutes" given then
         VStr (ToString given.["retentionMinutes"] +:+ " minutes")
       else if has "retentionSeconds" given then
         VStr (ToString given.["retentionSeconds"] +:+ " seconds")
       else d.["keepUntil"]) ∧
  (∀ k, k ∈ ["retentionDays"; "retentionHours"; "retentionMinutes"; "retentionSeconds"] →
     has k given = true →
     truthy given.[k] && js_ge given.[k] (VInt 1) = false →
     ∃ e, (checkSendArgs args d w).1 = Throw e ∧ validation e = true).
Proof.
  intros given. split.
  - intros req w' (s' & Hs & Hres & _)%checkSendArgs_Ok.
    apply resolveOptions_keepUntil in Hs as (Hk & _). by rewrite Hres, Hk.
  - intros k Hk Hhas Hlow. apply checkSendArgs_fails. intros s' Hs.
    apply resolveOptions_keepUntil in Hs as (_ & Hsec & Hmin & Hh & Hd). cbn [config] in *.
    pose proof (at_least_false k 1 given Hhas Hlow) as Hno. subst given.
    repeat (apply elem_of_cons in Hk as [-> | Hk]; [congruence |]).
    by apply elem_of_nil in Hk.
Qed.

End Retention.

Section Submit.
Context `{Host} `{Postgres}.

Lemma submit_eq conf id now c w :
  submit conf id now c w =
  send conf id now (forwarded c (heap w))
    {| heap := heap w ++ option_list (prepared c (heap w)); wproc := wproc w; db := db w |}.
Proof.
  destruct c; cbn [submit forwarded prepared option_list].
  - destruct w. cbn. by rewrite app_nil_r.
  - unfold sendOnce, copyOptions.
    rewrite bind_bind, bind_gets, bind_alloc, bind_zoom.
    cbn [heap wproc db]. rewrite deref_app_new. cbv beta zeta.
    cbn [assign fst snd config proc]. by rewrite insert_app_new.
  - unfold sendSingleton, copyOptions.
    rewrite bind_bind, bind_gets, bind_alloc, bind_zoom.
    cbn [heap wproc db]. rewrite deref_app_new. cbv beta zeta.
    cbn [assign fst snd config proc]. by rewrite insert_app_new.
  - unfold sendAfter, copyOptions.
    rewrite bind_bind, bind_gets, bind_alloc, bind_zoom.
    cbn [heap wproc db]. rewrite deref_app_new. cbv beta zeta.
    cbn [assign fst snd config proc]. by rewrite insert_app_new.
  - apply (sendWindowed_eq false).
  - apply (sendWindowed_eq true).
Qed.

Lemma checkSendArgs_db args d w : db (checkSendArgs args d w).2 = db w.
Proof.
  by destruct (checkSendArgs_run args d w) as [(e & h' & -> & _) | (name & data & h' & ->)].
Qed.

(** The window is null or a positive number. *)
Lemma window_cases o : window o = VNull ∨ ∃ n, window o = VInt n ∧ 0 < n.
Proof.
  assert (∀ v, truthy v && js_gt v (VInt 0) = true → ∃ x, ToNumber v = Int x ∧ 0 < x) as Hpos.
  { intros v [_ Hgt]%andb_true_iff. unfold js_gt, js_lt in Hgt.
    change (VInt 0) with (VNum (Int 0)) in Hgt. cbv iota in Hgt.
    change (ToNumber (VNum (Int 0))) with (Int 0) in Hgt. unfold num_ltb in Hgt.
    destruct (ToNumber v) as [x|]; [| done]. exists x. split; [done | by apply Z.ltb_lt]. }
  assert (∀ v x, ToNumber v = Int x → js_mul v (VInt 60) = VInt (x * 60)) as Hmul.
  { intros v x Hv. unfold js_mul. by rewrite Hv. }
  unfold window.
  destruct (truthy o.["singletonHours"] && _) eqn:Eh.
  { destruct (Hpos _ Eh) as (x & Hx & ?). right. exists (x * 60 * 60).
    rewrite (Hmul _ _ Hx), js_mul_VInt. split; [done | lia]. }
  destruct (truthy o.["singletonMinutes"] && _) eqn:Em.
  { destruct (Hpos _ Em) as (x & Hx & ?). right. exists (x * 60).
    rewrite (Hmul _ _ Hx). split; [done | lia]. }
  destruct (truthy o.["singletonSeconds"] && _) eqn:Es; [| by left].
  destruct (Hpos _ Es) as (x & Hx & ?). right. exists (x * 60).
  rewrite (Hmul _ _ Hx). split; [done | lia].
Qed.

Lemma send_cases conf id now args w :
  let r := send conf id now args w in
  let schema := ToString conf.["schema"] in
  heap w `prefix_of` heap r.2 ∧
  ((∃ e, r.1 = Throw e ∧ db r.2 = db w) ∨
   (∃ req w1 s' table j,
      checkSendArgs (ArgsArray args) conf w = (Ok req, w1) ∧
      resolveOptions conf {| config := supplied (ArgsArray args) (heap w); proc := wproc w |}
        = (Ok tt, s') ∧
      db w !! schema = Some table ∧
      let values := insertValues id (name req) (data req) (Some (config s')) in
      selectJob values now = Ok j ∧
      if unique_violation j table then r.1 = Ok [] ∧ db r.2 = db w
      else r.1 = Ok [Prim (VStr id)] ∧ db r.2 = <[schema := table ++ [j]]> (db w))).
Proof.
  intros r schema. subst r. unfold send, bind.
  pose proof (checkSendArgs_heap (ArgsArray args) conf w) as Hheap.
  pose proof (checkSendArgs_db (ArgsArray args) conf w) as Hdb.
  destruct (checkSendArgs (ArgsArray args) conf w) as [[req|e] w1] eqn:Hc; cbn [fst snd] in *.
  2: { split; [done|]. left. by exists e. }
  destruct req as [queue payload opts].
  rewrite createJob_run. cbn [fmap option_fmap option_map]. fold schema.
  apply checkSendArgs_Ok in Hc as Hok. destruct Hok as (s' & Hs & Hres & _ & _).
  cbn [options] in Hres. rewrite Hres.
  set (values := insertValues id queue payload (Some (config s'))).
  destruct (insertJob schema values now w1) as [[rows|e] w2] eqn:Hrun; cbn [fst snd].
  - apply insertJob_Ok in Hrun as (table & j & Ht & Hj & _ & Hcase).
    rewrite Hdb in Ht.
    assert (job_id j = Prim (VStr id)) as Hid.
    { apply selectJob_Ok in Hj as (_ & _ & on & _ & ->). apply insertValues_id. }
    split; [by destruct (unique_violation _ _); destruct Hcase as [_ ->]|].
    right. exists {| name := queue; data := payload; options := opts |}, w1, s', table, j.
    split; [done|]. split; [done|]. split; [done|]. cbv zeta. cbn [name data].
    split; [done|].
    destruct (unique_violation _ _); destruct Hcase as [-> ->]; cbn [db];
      rewrite ?Hdb, ?Hid; by split.
  - apply insertJob_Throw in Hrun as [-> _]. split; [done|]. left. by exists e.
Qed.

Lemma submit_Ok conf id now c w rows w' :
  submit conf id now c w = (Ok rows, w') →
  let schema := ToString conf.["schema"] in
  ∃ name data s' table on,
    default undefined (forwarded c (heap w) !! 0%nat) = name ∧
    String.eqb (typeof_arg name) "string" = true ∧ truthy_arg name = true ∧
    resolveOptions conf {| config := submitted c (heap w); proc := wproc w |} = (Ok tt, s') ∧
    db w !! schema = Some table ∧
    let values := insertValues id name data (Some (config s')) in
    let j := newJob values now on in
    selectJob values now = Ok j ∧
    if unique_violation j table then rows = [] ∧ db w' = db w
    else rows = [Prim (VStr id)] ∧ db w' = <[schema := table ++ [j]]> (db w).
Proof.
  rewrite submit_eq. intros Hrun schema.
  set (w0 := {| heap := _; wproc := wproc w; db := db w |}) in Hrun.
  destruct (send_cases conf id now (forwarded c (heap w)) w0) as [_ Hcases].
  rewrite Hrun in Hcases. cbn [fst snd] in Hcases. fold schema in Hcases.
  destruct Hcases as [(e & ? & _) | (req & w1 & s' & table & j & Hc & Hs & Ht & Hj & Hcase)];
    [discriminate |].
  apply selectJob_Ok in Hj as Hsel. destruct Hsel as (_ & _ & on & _ & ->).
  exists (name req), (data req), s', table, on.
  rewrite checkSendArgs_eq in Hc. unfold unpacked in Hc.
  cbn [arg_index] in Hc.
  destruct (String.eqb (typeof_arg (default undefined (forwarded c (heap w) !! 0%nat))) "string")
    eqn:Hty.
  2: { cbn [arg_name arg_data arg_options] in Hc.
       by destruct (String.eqb _ "object") in Hc. }
  destruct (String.eqb (typeof_arg _) "function") in Hc; [discriminate|].
  cbv zeta in Hc.
  destruct (truthy_arg (default undefined (forwarded c (heap w) !! 0%nat))) eqn:Htr;
    cbn [negb] in Hc; [| discriminate].
  destruct (_ && _) in Hc; [discriminate|].
  destruct (resolveOptions conf _) as [[[]|?] ?] in Hc; [| discriminate].
  injection Hc as <- _. cbn [name data] in *.
  split; [done|]. split; [done|]. split; [done|]. split; [exact Hs|]. split; [exact Ht|].
  cbv zeta. split; [exact Hj|].
  destruct (unique_violation _ _); destruct Hcase as [[= ->] ->]; done.
Qed.

End Submit.

Section Arguments.
Context `{Host}.

(** X7: [checkSendArgs] on an array of arguments.  A first element that is
    no string, or the empty string with a payload that is no function, is
    refused for the missing queue name; a string with a function as the
    payload is refused with the error about [work()], the world unchanged.
    A request that is returned has the first element, a non-empty string,
    as its name and the second, which is no function, as its data; a
    truthy third element is an object; and its options are a new object
    of the heap. *)
Theorem X7_checkSendArgs_arguments elems d w :
  let r := checkSendArgs (ArgsArray elems) d w in
  let queue := default undefined (elems !! 0%nat) in
  let payload := default undefined (elems !! 1%nat) in
  let third := default undefined (elems !! 2%nat) in
  let unnamed := Throw (AssertionError "boss requires all jobs to have a queue name") in
  (typeof_arg queue ≠ "string" → r.1 = unnamed) ∧
  (queue = Prim (VStr EmptyString) → typeof_arg payload ≠ "function" → r.1 = unnamed) ∧
  (typeof_arg queue = "string" → typeof_arg payload = "function" →
     r = (Throw (Error "send() cannot accept a function as the payload. Did you intend to use work()?"),
          w)) ∧
  (∀ req, r.1 = Ok req →
     (∃ s, queue = Prim (VStr s) ∧ s ≠ EmptyString) ∧
     name req = queue ∧ data req = payload ∧ typeof_arg payload ≠ "function" ∧
     (truthy_arg third = true → typeof_arg third = "object") ∧
     (length (heap w) ≤ options req < length (heap r.2))%nat).
Proof.
  intros r queue payload third unnamed. subst r. rewrite checkSendArgs_eq. unfold unpacked.
  cbn [arg_index arg_name arg_data arg_options]. fold queue payload third.
  destruct (String.eqb_spec (typeof_arg queue) "string") as [Hty | Hty].
  - destruct (String.eqb_spec (typeof_arg payload) "function") as [Hfun | Hfun].
    + split; [intros Hno; exfalso; exact (Hno Hty)|].
      split; [intros _ Hno; exfalso; exact (Hno Hfun)|].
      split; [reflexivity|]. cbn [fst]. discriminate.
    + cbv zeta. split; [intros Hno; exfalso; exact (Hno Hty)|]. split.
      { intros Hn _. rewrite Hn. cbn [truthy_arg truthy String.eqb negb fst]. reflexivity. }
      split; [intros _ Hno; exfalso; exact (Hfun Hno)|].
      destruct (truthy_arg queue) eqn:Htr; cbn [negb fst]; [| discriminate].
      destruct (truthy_arg third && _) eqn:Hopt; [cbn [fst]; discriminate|].
      destruct (resolveOptions d _) as [[[]|e] s'] eqn:Hr; cbn [fst snd]; [| discriminate].
      intros req [= <-]. cbn [name data options fst snd heap].
      split.
      { destruct queue as [[| | | |s|]| |]; try discriminate Hty; try discriminate Htr.
        exists s. split; [reflexivity|]. by destruct s. }
      split; [reflexivity|]. split; [reflexivity|]. split; [exact Hfun|]. split.
      * intros Ho. rewrite Ho in Hopt. cbn [andb] in Hopt.
        by apply negb_false_iff, String.eqb_eq in Hopt.
      * rewrite !length_app. cbn [length]. lia.
  - destruct (String.eqb (typeof_arg queue) "object");
      unfold undefined; cbv zeta; cbn [truthy_arg truthy negb fst];
      (split; [reflexivity|]); (split; [intros Hn; rewrite Hn in Hty; by destruct Hty|]);
      (split; [intros Hs; by destruct Hty|]); intros req; discriminate.
Qed.

(** X6: the resolved [singletonSeconds] is null or a number above zero. *)
Theorem X6_singletonSeconds_positive args d w req w' :
  checkSendArgs args d w = (Ok req, w') →
  let resolved := (deref (options req) (heap w')).["singletonSeconds"] in
  resolved = VNull ∨ (typeof resolved = "number" ∧ js_gt resolved (VInt 0) = true).
Proof.
  intros (s' & Hs & Hres & _)%checkSendArgs_Ok resolved. subst resolved.
  rewrite Hres. apply resolveOptions_window in Hs as [-> _].
  match goal with
  | |- context [ window ?o ] => destruct (window_cases o) as [-> | (n & -> & Hn)]
  end; [by left|].
  right. split; [done|]. unfold js_gt, js_lt. cbn. by apply Z.ltb_lt.
Qed.

End Arguments.

Section Rows.
Context `{Host} `{Postgres}.

(** X8: [send] and its five helpers keep the objects of the heap and the
    tables of every other schema, and do one of three things: return the
    identifier with exactly one row appended to the job table, that row
    carrying the identifier, the state created and the time of the call;
    return nothing with the database unchanged; or fail with the database
    unchanged.  Without the job table they fail. *)
Theorem X8_submit_outcome conf id now c w :
  let r := submit conf id now c w in
  let schema := ToString conf.["schema"] in
  heap w `prefix_of` heap r.2 ∧
  (∀ s, s ≠ schema → db r.2 !! s = db w !! s) ∧
  ((r.1 = Ok [Prim (VStr id)] ∧
    ∃ table j, db w !! schema = Some table ∧ db r.2 !! schema = Some (table ++ [j]) ∧
               job_id j = Prim (VStr id) ∧ job_state j = "created" ∧ job_now j = now) ∨
   (r.1 = Ok [] ∧ db r.2 = db w ∧ is_Some (db w !! schema)) ∨
   (∃ e, r.1 = Throw e ∧ db r.2 = db w)) ∧
  (db w !! schema = None → ∃ e, r.1 = Throw e).
Proof.
  intros r schema. subst r. rewrite submit_eq.
  set (w0 := {| heap := _; wproc := wproc w; db := db w |}).
  destruct (send_cases conf id now (forwarded c (heap w)) w0) as [Hheap Hcases].
  fold schema in Hcases. split.
  { etrans; [| exact Hheap]. by apply prefix_app_r. }
  destruct Hcases as [(e & He & Hdb) |
    (req & w1 & s' & table & j & _ & _ & Ht & Hj & Hcase)].
  - split; [intros s _; by rewrite Hdb|]. split; [| by eauto].
    right. right. by exists e.
  - cbn [db w0] in Ht. split; [| split; [| intros Hnone; congruence]].
    + destruct (unique_violation _ _); destruct Hcase as [_ Hdb]; intros s Hs; rewrite Hdb;
        [done | by apply lookup_insert_ne].
    + apply selectJob_Ok in Hj as (_ & _ & on & _ & ->).
      destruct (unique_violation _ _); destruct Hcase as [Hr Hdb].
      * right. left. split; [done|]. split; [done|]. by exists table.
      * left. split; [done|]. eexists table, _. split; [exact Ht|].
        split; [rewrite Hdb; apply lookup_insert_eq|].
        split; [apply insertValues_id|]. by split.
Qed.

Lemma submitted_helper c h o :
  prepared c h = Some o →
  String.eqb (typeof_arg (default undefined (forwarded c h !! 0%nat))) "string" = true →
  submitted c h = o.
Proof.
  intros Hp Hty. unfold submitted, supplied. cbn [arg_index]. rewrite Hty, Hp.
  destruct c; try discriminate Hp; cbn [forwarded lookup list_lookup default from_option id
    truthy_arg spread option_list]; apply deref_app_new.
Qed.

(** A row that a submission has inserted, with the resolved options it
    was built from. *)
Lemma submit_inserted conf id now c w w' :
  submit conf id now c w = (Ok [Prim (VStr id)], w') →
  ∃ name data s' table on,
    default undefined (forwarded c (heap w) !! 0%nat) = name ∧
    String.eqb (typeof_arg name) "string" = true ∧ truthy_arg name = true ∧
    resolveOptions conf {| config := submitted c (heap w); proc := wproc w |} = (Ok tt, s') ∧
    db w' !! ToString conf.["schema"] =
      Some (table ++ [newJob (insertValues id name data (Some (config s'))) now on]).
Proof.
  intros (name & data & s' & table & on & Hn & Hty & Htr & Hs & Ht & _ & Hj)%submit_Ok.
  exists name, data, s', table, on. repeat (split; [done|]).
  cbv zeta in Hj. destruct (unique_violation _ _); destruct Hj as [Hr ->]; [done|].
  apply lookup_insert_eq.
Qed.

Lemma insertValues_row id name data o now on :
  let j := newJob (insertValues id name data (Some o)) now on in
  job_name j = name ∧
  job_singletonKey j = Prim (match o.["singletonKey"] with VUndefined => VNull | v => v end) ∧
  job_startAfterValue j = Prim o.["startAfter"] ∧
  job_expireIn j = Prim (expireIn_of o pgBossConfig) ∧
  job_keepUntilValue j = Prim (keepUntil_of o pgBossConfig).
Proof. unfold insertValues. cbv beta iota zeta. repeat split; reflexivity. Qed.

(** X9: the row a helper inserts.  [sendOnce] stores the key (the name
    when the key is falsy), prefixed with the singleton queue key when the
    options ask for the singleton queue and the key is not that key
    already; [sendSingleton] stores the singleton queue key;
    [sendAfter] stores what [startAfter] resolves to for its last
    argument.  The row carries the name given. *)
Theorem X9_helper_rows conf id now (name : value) data options w :
  let schema := ToString conf.["schema"] in
  let copy := copied options (heap w) in
  let inserts (r : result (list jsval) * world) (P : job → Prop) :=
    r.1 = Ok [Prim (VStr id)] →
    ∃ table j, db r.2 !! schema = Some (table ++ [j]) ∧ job_name j = Prim name ∧ P j in
  (∀ key,
     inserts (sendOnce conf id now name data options key w) (λ j,
       let key := js_or key name in
       job_singletonKey j =
         Prim (if truthy copy.["useSingletonQueue"] &&
                  negb (strict_eq key SINGLETON_QUEUE_KEY)
               then VStr (SINGLETON_QUEUE_KEY +:+ ToString key) else key))) ∧
  inserts (sendSingleton conf id now name data options w) (λ j,
    job_singletonKey j = Prim (VStr SINGLETON_QUEUE_KEY)) ∧
  (∀ after,
     inserts (sendAfter conf id now name data options after w) (λ j,
       job_startAfterValue j = Prim (startAfter_of {[ "startAfter" := after ]}))).
Proof.
  intros schema copy inserts. subst inserts. cbv beta. split; [| split].
  - intros key Hrun.
    destruct (sendOnce conf id now name data options key w) as [r w'] eqn:Hcall.
    cbn [fst snd] in *. subst r.
    change (sendOnce conf id now name data options key)
      with (submit conf id now (SendOnce name data options key)) in Hcall.
    apply submit_inserted in Hcall
      as (n & d & s' & table & on & Hn & Hty & Htr & Hs & Hdb).
    cbn [forwarded lookup list_lookup default from_option Datatypes.id] in Hn. subst n.
    erewrite submitted_helper in Hs; [| reflexivity | exact Hty].
    eexists table, _. split; [exact Hdb|].
    destruct (insertValues_row id (Prim name) d (config s') now on) as (-> & -> & _).
    split; [done|]. f_equal.
    apply resolveOptions_singletonKey in Hs as [-> _]. cbn [config].
    unfold singletonKey_of. rewrite prop_insert_eq, prop_insert_ne by done. fold copy.
    cbn [truthy_arg] in Htr.
    assert (truthy (js_or key name) = true) as Hk.
    { unfold js_or. by destruct (truthy key) eqn:E. }
    rewrite Hk. cbn [andb].
    destruct (_ && _); [done|]. by destruct (js_or key name).
  - intros Hrun.
    destruct (sendSingleton conf id now name data options w) as [r w'] eqn:Hcall.
    cbn [fst snd] in *. subst r.
    change (sendSingleton conf id now name data options)
      with (submit conf id now (SendSingleton name data options)) in Hcall.
    apply submit_inserted in Hcall
      as (n & d & s' & table & on & Hn & Hty & Htr & Hs & Hdb).
    cbn [forwarded lookup list_lookup default from_option Datatypes.id] in Hn. subst n.
    erewrite submitted_helper in Hs; [| reflexivity | exact Hty].
    eexists table, _. split; [exact Hdb|].
    destruct (insertValues_row id (Prim name) d (config s') now on) as (-> & -> & _).
    split; [done|]. f_equal.
    apply resolveOptions_singletonKey in Hs as [-> _]. cbn [config].
    unfold singletonKey_of. rewrite prop_insert_eq.
    by destruct (truthy _ && truthy _).
  - intros after Hrun.
    destruct (sendAfter conf id now name data options after w) as [r w'] eqn:Hcall.
    cbn [fst snd] in *. subst r.
    change (sendAfter conf id now name data options after)
      with (submit conf id now (SendAfter name data options after)) in Hcall.
    apply submit_inserted in Hcall
      as (n & d & s' & table & on & Hn & Hty & Htr & Hs & Hdb).
    cbn [forwarded lookup list_lookup default from_option Datatypes.id] in Hn. subst n.
    erewrite submitted_helper in Hs; [| reflexivity | exact Hty].
    eexists table, _. split; [exact Hdb|].
    destruct (insertValues_row id (Prim name) d (config s') now on) as (-> & _ & -> & _).
    split; [done|]. f_equal.
    apply resolveOptions_startAfter in Hs as ->. cbn [config].
    unfold startAfter_of. by rewrite !prop_insert_eq.
Qed.

Lemma resolveOptions_units d s s' :
  resolveOptions d s = (Ok tt, s') →
  ∀ k, k ∈ ["expireInHours"; "expireInMinutes"; "expireInSeconds"; "retentionDays";
            "retentionHours"; "retentionMinutes"; "retentionSeconds"] →
       config s' !! k = config s !! k.
Proof.
  intros Hs k Hk. refine (keeps_run k _ _ _ _ (resolveOptions_keeps k d _) Hs).
  repeat (apply elem_of_cons in Hk as [-> | Hk]); [..| by apply elem_of_nil in Hk];
    apply (bool_decide_unpack _); by vm_compute.
Qed.

(** X10: the expiration and the retention of an inserted row are computed
    from the submitted options alone: the first unit present, else
    15 minutes and 14 days, whatever the configuration of the instance
    says. *)
Theorem X10_row_intervals conf id now c w w' :
  submit conf id now c w = (Ok [Prim (VStr id)], w') →
  let given := submitted c (heap w) in
  ∃ table j,
    db w' !! ToString conf.["schema"] = Some (table ++ [j]) ∧
    job_expireIn j =
      Prim (if has "expireInHours" given then
              VStr (ToString given.["expireInHours"] +:+ " hours")
            else if has "expireInMinutes" given then
              VStr (ToString given.["expireInMinutes"] +:+ " minutes")
            else if has "expireInSeconds" given then
              VStr (ToString given.["expireInSeconds"] +:+ " seconds")
            else VStr "15 minutes") ∧
    job_keepUntilValue j =
      Prim (if has "retentionDays" given then
              VStr (ToString given.["retentionDays"] +:+ " days")
            else if has "retentionHours" given then
              VStr (ToString given.["retentionHours"] +:+ " hours")
            else if has "retentionMinutes" given then
              VStr (ToString given.["retentionMinutes"] +:+ " minutes")
            else if has "retentionSeconds" given then
              VStr (ToString given.["retentionSeconds"] +:+ " seconds")
            else VStr "14 days").
Proof.
  intros (n & d & s' & table & on & _ & _ & _ & Hs & Hdb)%submit_inserted given.
  eexists table, _. split; [exact Hdb|].
  destruct (insertValues_row id n d (config s') now on) as (_ & _ & _ & -> & ->).
  pose proof (resolveOptions_units _ _ _ Hs) as Hu. cbn [config] in Hu. fold given in Hu.
  unfold expireIn_of, keepUntil_of, has, prop.
  rewrite !Hu by (apply (bool_decide_unpack _); by vm_compute). done.
Qed.

(** X11: for a window of [seconds] > 0 within the range of [$9::integer]
    the time slot of the inserted row is the multiple [b] of [seconds] with
    [b <= now + offset < b + seconds], and two times get the same slot
    exactly when they lie in the same such interval. *)
Theorem X11_bucket now seconds offset :
  0 < seconds ≤ 2147483647 →
  ∃ b, singletonOn now (Prim (VInt seconds)) (Prim (VInt offset)) = Ok (Some b) ∧
       b ≤ now + offset < b + seconds ∧
       b mod seconds = 0 ∧
       ∀ now', singletonOn now' (Prim (VInt seconds)) (Prim (VInt offset)) = Ok (Some b) ↔
               b ≤ now' + offset < b + seconds.
Proof.
  intros [Hpos Hmax].
  assert (∀ t, singletonOn t (Prim (VInt seconds)) (Prim (VInt offset)) =
               Ok (Some (seconds * ((t + offset) / seconds)))) as Hon.
  { intros t. apply singletonOn_run; [| lia]. unfold int4. apply andb_true_iff. lia. }
  exists (seconds * ((now + offset) / seconds)). split; [apply Hon|].
  pose proof (Z.mul_div_le (now + offset) seconds Hpos).
  pose proof (Z.mul_succ_div_gt (now + offset) seconds Hpos).
  split; [lia|]. split.
  { rewrite Z.mul_comm. apply Z.mod_mul. lia. }
  intros now'. rewrite Hon. split.
  - intros [= Hb].
    pose proof (Z.mul_div_le (now' + offset) seconds Hpos).
    pose proof (Z.mul_succ_div_gt (now' + offset) seconds Hpos). lia.
  - intros Hb. do 2 f_equal. f_equal.
    symmetry. apply (Z.div_unique_pos _ _ _ (now' + offset - seconds * ((now + offset) / seconds))); lia.
Qed.

End Rows.

Section Config.
Context `{Host}.

Lemma getConfig_run value w :
  getConfig value w =
  if truthy_arg value &&
     (String.eqb (typeof_arg value) "object" || String.eqb (typeof_arg value) "string")
  then
    let copy := match value with
                | Prim (VStr s) => {[ "connectionString" := VStr s ]}
                | _ => spread value (heap w)
                end in
    let r := configure {| config := copy; proc := wproc w |} in
    (match r.1 with Ok _ => Ok (length (heap w)) | Throw e => Throw e end,
     {| heap := heap w ++ [config r.2]; wproc := proc r.2; db := db w |})
  else
    (Throw (AssertionError
       "configuration assert: string or config object is required to connect to postgres"), w).
Proof.
  unfold getConfig. destruct (_ && _); cbn [assert]; rewrite ?bind_ret, ?bind_throw; [|done].
  rewrite bind_gets.
  exact (alloc_zoom_run _ configure (λ l, l) w).
Qed.

Lemma test_non_word_false s :
  test_non_word s = false ↔ ∀ c, c ∈ String.list_ascii_of_string s → is_word c = true.
Proof.
  unfold test_non_word. rewrite <- not_true_iff_false, existsb_exists. split.
  - intros Hno c Hc. destruct (is_word c) eqn:E; [done|]. destruct Hno.
    exists c. split; [by apply list_elem_of_In | by rewrite E].
  - intros Hall (c & Hc%list_elem_of_In & Hw). rewrite (Hall c Hc) in Hw. done.
Qed.

Lemma applyDatabaseConfig_Ok s s' :
  applyDatabaseConfig s = (Ok tt, s') →
  ∃ name, (config s').["schema"] = VStr name ∧
    name ≠ EmptyString ∧ (String.length name ≤ 50)%nat ∧ test_non_word name = false ∧
    name = (if truthy (config s).["schema"] then ToString (config s).["schema"]
            else DEFAULT_SCHEMA).
Proof.
  intros Hrun. unfold applyDatabaseConfig, when_on, if_on in Hrun.
  apply bind_Ok in Hrun as (? & s1 & Hs1 & Hset).
  apply bind_Ok in Hs1 as (? & ? & [= <- <-] & Hs1).
  rewrite (assign_prop_eq _ _ _ _ _ Hset).
  destruct (truthy (config s).["schema"]) eqn:Htr.
  - apply bind_Ok in Hs1 as (? & ? & [Hty ->]%assert_on_Ok & Hs1).
    apply bind_Ok in Hs1 as (? & ? & [Hlen ->]%assert_on_Ok & Hs1).
    apply bind_Ok in Hs1 as (? & ? & [= <- <-] & Hs1).
    apply assert_Ok in Hs1 as [Hw <-].
    destruct ((config _).["schema"]) as [| | | |name|] eqn:E; try discriminate Hty.
    exists name. unfold js_or. rewrite Htr. split; [done|]. cbn in *.
    split; [by destruct name|]. split; [| split; [by apply negb_true_iff | done]].
    unfold js_le in Hlen. cbn in Hlen. apply Z.leb_le in Hlen. lia.
  - injection Hs1 as _ <-. exists DEFAULT_SCHEMA. unfold js_or. rewrite Htr.
    split; [done|]. split; [done|]. split; [cbn; lia|]. split; [by vm_compute | done].
Qed.

(** X14: the schema of a configuration that [getConfig] returns is a
    non-empty string of at most 50 word characters: the supplied one when
    it is truthy, and pgboss otherwise. *)
Theorem X14_getConfig_schema value w l w' :
  getConfig value w = (Ok l, w') →
  ∃ name, (deref l (heap w')).["schema"] = VStr name ∧
    name ≠ EmptyString ∧ (String.length name ≤ 50)%nat ∧
    (∀ c, c ∈ String.list_ascii_of_string name → is_word c = true) ∧
    (∀ o, value = Ref o →
       name = if truthy (deref o (heap w)).["schema"] then ToString (deref o (heap w)).["schema"]
              else "pgboss") ∧
    (∀ s, value = Prim (VStr s) → name = "pgboss").
Proof.
  rewrite getConfig_run. destruct (_ && _); [| discriminate]. cbv zeta.
  destruct (configure _) as [[[]|e] s'] eqn:Hrun; [| discriminate].
  intros [= <- <-]. cbn [fst snd heap]. rewrite deref_app_new.
  configure_steps Hrun.
  destruct (applyDatabaseConfig_Ok _ _ Hs1) as (name & Hn & Hne & Hlen & Hw & Hname).
  exists name. split; [| split; [done | split; [done | split; [by apply test_non_word_false|]]]].
  - rewrite <- Hn. clear Hs1. kept "schema". reflexivity.
  - cbn [config] in Hname. split.
    + intros o ->. exact Hname.
    + intros s ->. rewrite Hname. by vm_compute.
Qed.

(** X12: [getConfig] never touches the database; a value that is falsy or
    neither an object nor a string is refused with the assertion about
    the connection, the world unchanged; for any other value exactly one
    object is added to the heap, and it is the one returned. *)
Theorem X12_getConfig_world value w :
  let r := getConfig value w in
  let accepted :=
    truthy_arg value &&
    (String.eqb (typeof_arg value) "object" || String.eqb (typeof_arg value) "string") in
  db r.2 = db w ∧
  (accepted = false →
     r = (Throw (AssertionError
            "configuration assert: string or config object is required to connect to postgres"),
          w)) ∧
  (accepted = true →
     (∃ c, heap r.2 = heap w ++ [c]) ∧
     ∀ l, r.1 = Ok l → l = length (heap w)).
Proof.
  intros r accepted. subst r accepted. rewrite getConfig_run.
  destruct (_ && _); cbv zeta; (split; [done|]); (split; [done|]); [| done].
  intros _. split; [by eexists|].
  intros l. destruct (configure _) as [[[]|e] s']; cbn; congruence.
Qed.

(** X13: for a non-empty connection string [getConfig] returns, without a
    warning, a new object with exactly the sixteen properties listed: the
    string and the defaults. *)
Theorem X13_getConfig_connection_string s w :
  s ≠ EmptyString →
  getConfig (Prim (VStr s)) w =
  (Ok (length (heap w)),
   {| heap := heap w ++
        [list_to_map
           [("connectionString", VStr s); ("schema", VStr "pgboss");
            ("maintenanceIntervalSeconds", VInt 120);
            ("archiveSeconds", VInt 43200); ("archiveInterval", VStr "43200 seconds");
            ("archiveFailedSeconds", VInt 43200);
            ("archiveFailedInterval", VStr "43200 seconds");
            ("deleteAfter", VStr "7 days");
            ("monitorStateIntervalSeconds", VInt 600);
            ("cronMonitorIntervalSeconds", VInt 60); ("cronWorkerIntervalSeconds", VInt 4);
            ("uuid", VStr "v4"); ("newJobCheckInterval", VInt 2000);
            ("expireIn", VStr "15 minutes"); ("keepUntil", VStr "14 days");
            ("onComplete", VBool false)]];
      wproc := wproc w; db := db w |}).
Proof.
  intros Hs. rewrite getConfig_run.
  destruct s as [|a s]; [done|]. cbn [truthy_arg truthy String.eqb negb typeof_arg typeof andb orb].
  cbv zeta.
  assert (∀ p, configure {| config := {[ "connectionString" := VStr (String a s) ]}; proc := p |} =
    (Ok tt, {| config := list_to_map
           [("connectionString", VStr (String a s)); ("schema", VStr "pgboss");
            ("maintenanceIntervalSeconds", VInt 120);
            ("archiveSeconds", VInt 43200); ("archiveInterval", VStr "43200 seconds");
            ("archiveFailedSeconds", VInt 43200);
            ("archiveFailedInterval", VStr "43200 seconds");
            ("deleteAfter", VStr "7 days");
            ("monitorStateIntervalSeconds", VInt 600);
            ("cronMonitorIntervalSeconds", VInt 60); ("cronWorkerIntervalSeconds", VInt 4);
            ("uuid", VStr "v4"); ("newJobCheckInterval", VInt 2000);
            ("expireIn", VStr "15 minutes"); ("keepUntil", VStr "14 days");
            ("onComplete", VBool false)]; proc := p |})) as Hrun.
  { intros p. by vm_compute. }
  by rewrite Hrun.
Qed.

End Config.

(** ** Functions that emit nothing *)

Lemma quiet_ret {A} (a : A) : quiet (ret a).
Proof. by intros s. Qed.
Lemma quiet_throw {A} e : quiet (throw (A:=A) e).
Proof. by intros s. Qed.
Lemma quiet_bind {A B} (m : M cstate A) (f : A → M cstate B) :
  quiet m → (∀ a, quiet (f a)) → quiet (bind m f).
Proof.
  intros Hm Hf s. unfold bind. specialize (Hm s).
  destruct (m s) as [[a|e] s1]; [| done]. rewrite <- Hm. apply Hf.
Qed.
Lemma quiet_assert c message : quiet (assert c message).
Proof. destruct c; [apply quiet_ret | apply quiet_throw]. Qed.
Lemma quiet_read {A} (e : obj → A) : quiet (read e).
Proof. by intros s. Qed.
Lemma quiet_assign k e : quiet (assign k e).
Proof. by intros s. Qed.
Lemma quiet_delete k : quiet (delete_prop k).
Proof. by intros s. Qed.
Lemma quiet_run {A} (m : M cstate A) s r s' : quiet m → m s = (r, s') → proc s' = proc s.
Proof. intros Hm Hs. specialize (Hm s). by rewrite Hs in Hm. Qed.

Ltac quiet_step :=
  lazymatch goal with
  | |- quiet (ret _) => apply quiet_ret
  | |- quiet (throw _) => apply quiet_throw
  | |- quiet (assert _ _) => apply quiet_assert
  | |- quiet (read _) => apply quiet_read
  | |- quiet (bind _ _) => apply quiet_bind; [| intros; cbv beta ]
  | |- quiet (assign _ _) => apply quiet_assign
  | |- quiet (delete_prop _) => apply quiet_delete
  | |- quiet (if ?c then _ else _) => destruct c
  | |- quiet (match ?c with _ => _ end) => destruct c
  end.

Ltac quiet_tac :=
  unfold assert_on, when_on, if_on, when; cbv zeta; repeat quiet_step.

Section Quiet.
Context `{Host}.

Lemma applyDatabaseConfig_quiet : quiet applyDatabaseConfig.
Proof. unfold applyDatabaseConfig. quiet_tac. Qed.
Lemma applyMaintenanceConfig_quiet : quiet applyMaintenanceConfig.
Proof. unfold applyMaintenanceConfig. quiet_tac. Qed.
Lemma applyDeleteConfig_quiet : quiet applyDeleteConfig.
Proof. unfold applyDeleteConfig. quiet_tac. Qed.
Lemma applyMonitoringConfig_quiet : quiet applyMonitoringConfig.
Proof. unfold applyMonitoringConfig. quiet_tac. Qed.
Lemma applyUuidConfig_quiet : quiet applyUuidConfig.
Proof. unfold applyUuidConfig. quiet_tac. Qed.
Lemma applyNewJobCheckInterval_quiet d : quiet (applyNewJobCheckInterval d).
Proof. unfold applyNewJobCheckInterval. quiet_tac. Qed.
Lemma applyRetentionConfig_quiet d : quiet (applyRetentionConfig d).
Proof. unfold applyRetentionConfig. quiet_tac. Qed.
Lemma applyCompletionConfig_quiet d : quiet (applyCompletionConfig d).
Proof. unfold applyCompletionConfig. quiet_tac. Qed.
Lemma applyRetryConfig_quiet d : quiet (applyRetryConfig d).
Proof. unfold applyRetryConfig. quiet_tac. Qed.
Lemma applySingletonKeyConfig_quiet : quiet applySingletonKeyConfig.
Proof. unfold applySingletonKeyConfig. quiet_tac. Qed.

Lemma js_lt_number v x n : ToNumber v = Int x → js_lt v (VInt n) = (x <? n).
Proof. intros Hv. unfold js_lt, VInt. destruct v; cbv iota; rewrite Hv; reflexivity. Qed.

Lemma js_ge_number v x n : ToNumber v = Int x → js_ge v (VInt n) = (n <=? x).
Proof. intros Hv. unfold js_ge, js_le, VInt. cbv iota. rewrite Hv. reflexivity. Qed.

(** A property that passes the range check, or the default in its place,
    is a number from [lo] on. *)
Lemma at_least_number k lo (o : obj) dflt x :
  at_least k lo o = true → ToNumber dflt = Int x → lo ≤ x →
  ∃ n, ToNumber (js_or o.[k] dflt) = Int n ∧ lo ≤ n.
Proof.
  unfold at_least, js_or. intros Hk Hd Hx.
  destruct (truthy o.[k]) eqn:Htr.
  - destruct (has k o) eqn:Hhas; cbn [negb orb andb] in Hk.
    + unfold js_ge, js_le in Hk. change (VInt lo) with (VNum (Int lo)) in Hk.
      cbv iota in Hk. cbn [ToNumber] in Hk. unfold num_leb in Hk.
      destruct (ToNumber o.[k]) as [n|]; [| done]. exists n. split; [done | by apply Z.leb_le].
    + rewrite (has_prop _ _ Hhas) in Htr. done.
  - eauto.
Qed.

Lemma applyArchiveConfig_Ok s s' :
  applyArchiveConfig s = (Ok tt, s') →
  let seconds := js_or (config s).["archiveCompletedAfterSeconds"] (VInt 43200) in
  (config s').["archiveSeconds"] = seconds ∧
  (config s').["archiveInterval"] = VStr (ToString seconds +:+ " seconds") ∧
  at_least "archiveCompletedAfterSeconds" 1 (config s) = true ∧
  proc s' = if js_lt seconds (VInt 60)
            then (emitWarning CRON_DISABLED None false (proc s)).2 else proc s.
Proof.
  intros Hrun seconds. unfold applyArchiveConfig in Hrun. cbv zeta in Hrun.
  apply bind_Ok in Hrun as (? & ? & [Hat ->]%assert_on_Ok & Hrun).
  apply bind_Ok in Hrun as (? & s1 & H1 & Hrun).
  apply bind_Ok in Hrun as (? & s2 & H2 & Hrun).
  unfold when_on, if_on in Hrun.
  apply bind_Ok in Hrun as (? & ? & [= <- <-] & Hrun).
  assert ((config s2).["archiveSeconds"] = seconds) as Hsec.
  { by back. }
  assert ((config s2).["archiveInterval"] = VStr (ToString seconds +:+ " seconds")) as Hint.
  { by back. }
  assert (proc s2 = proc s) as Hp.
  { by injection H1 as _ <-; injection H2 as _ <-. }
  rewrite Hsec in Hrun.
  destruct (js_lt seconds (VInt 60)).
  - unfold on_proc in Hrun. rewrite Hp in Hrun.
    destruct (emitWarning _ _ _ _) as [r p]. inversion Hrun. by cbn [config proc snd].
  - inversion Hrun. by subst.
Qed.

Lemma applyArchiveFailedConfig_Ok s s' :
  applyArchiveFailedConfig s = (Ok tt, s') →
  let seconds :=
    js_or (config s).["archiveFailedAfterSeconds"] (config s).["archiveSeconds"] in
  (config s').["archiveFailedSeconds"] = seconds ∧
  (config s').["archiveFailedInterval"] = VStr (ToString seconds +:+ " seconds") ∧
  at_least "archiveFailedAfterSeconds" 1 (config s) = true ∧
  proc s' = if truthy seconds && js_lt seconds (VInt 60) &&
               truthy (config s).["archiveSeconds"] &&
               js_ge (config s).["archiveSeconds"] (VInt 60)
            then (emitWarning CRON_DISABLED None false (proc s)).2 else proc s.
Proof.
  intros Hrun seconds. unfold applyArchiveFailedConfig in Hrun.
  apply bind_Ok in Hrun as (? & ? & [Hat ->]%assert_on_Ok & Hrun).
  apply bind_Ok in Hrun as (? & s1 & H1 & Hrun).
  apply bind_Ok in Hrun as (? & s2 & H2 & Hrun).
  unfold when_on, if_on in Hrun.
  apply bind_Ok in Hrun as (? & ? & [= <- <-] & Hrun).
  assert ((config s2).["archiveFailedSeconds"] = seconds) as Hsec.
  { by back. }
  assert ((config s2).["archiveFailedInterval"] = VStr (ToString seconds +:+ " seconds")) as Hint.
  { by back. }
  assert ((config s2).["archiveSeconds"] = (config s).["archiveSeconds"]) as Ha.
  { by back. }
  assert (proc s2 = proc s) as Hp.
  { by injection H1 as _ <-; injection H2 as _ <-. }
  rewrite Hsec, Ha in Hrun.
  destruct (_ && _).
  - unfold on_proc in Hrun. rewrite Hp in Hrun.
    destruct (emitWarning _ _ _ _) as [r p]. inversion Hrun. by cbn [config proc snd].
  - inversion Hrun. by subst.
Qed.

Lemma applyExpirationConfig_proc d s s' :
  applyExpirationConfig d s = (Ok tt, s') →
  proc s' = if has "expireIn" (config s)
            then (emitWarning EXPIRE_IN_REMOVED None false (proc s)).2 else proc s.
Proof.
  intros Hrun. unfold applyExpirationConfig in Hrun.
  apply bind_Ok in Hrun as (? & s1 & Hw & Hrun).
  assert (proc s' = proc s1) as ->.
  { eapply quiet_run; [| exact Hrun]. quiet_tac. }
  unfold when_on, if_on in Hw. apply bind_Ok in Hw as (? & ? & [= <- <-] & Hw).
  destruct (has "expireIn" (config s)).
  - unfold on_proc in Hw. destruct (emitWarning _ _ _ _) as [r p]. by inversion Hw.
  - by inversion Hw.
Qed.

End Quiet.

Section Warnings.
Context `{Host}.

Lemma js_or_truthy a b : truthy b = true → truthy (js_or a b) = true.
Proof. intros Hb. unfold js_or. by destruct (truthy a) eqn:E. Qed.

(** The process along a run of [configure]. *)
Lemma configure_process o p s' :
  configure {| config := o; proc := p |} = (Ok tt, s') →
  let archive := (config s').["archiveSeconds"] in
  let failed := (config s').["archiveFailedSeconds"] in
  proc s' =
    notice_all
      ((if js_lt archive (VInt 60) || js_lt failed (VInt 60) then [CRON_DISABLED] else []) ++
       (if has "expireIn" o then [EXPIRE_IN_REMOVED] else []))
      p.
Proof.
  intros Hrun archive failed. configure_steps Hrun.
  destruct (applyArchiveConfig_Ok _ _ Hs3) as (Ha & _ & Hat & Hp3).
  destruct (applyArchiveFailedConfig_Ok _ _ Hs4) as (Hf & _ & Hft & Hp4).
  cbv zeta in Ha, Hp3, Hf, Hp4.
  assert (archive = (config s3).["archiveSeconds"]) as Harchive
    by (unfold archive; kept "archiveSeconds"; reflexivity).
  assert (failed = (config s4).["archiveFailedSeconds"]) as Hfailed
    by (unfold failed; kept "archiveFailedSeconds"; reflexivity).
  assert (has "expireIn" (config s8) = has "expireIn" o) as Hexp
    by (kept "expireIn"; reflexivity).
  pose proof (applyExpirationConfig_proc _ _ _ Hs9) as Hp9. rewrite Hexp in Hp9.
  assert (proc s2 = p) as Hp2.
  { rewrite (quiet_run _ _ _ _ applyMaintenanceConfig_quiet Hs2).
    apply (quiet_run _ _ _ _ applyDatabaseConfig_quiet Hs1). }
  assert (proc s8 = proc s4) as Hp8.
  { rewrite (quiet_run _ _ _ _ (applyNewJobCheckInterval_quiet _) Hs8).
    rewrite (quiet_run _ _ _ _ applyUuidConfig_quiet Hs7).
    rewrite (quiet_run _ _ _ _ applyMonitoringConfig_quiet Hs6).
    apply (quiet_run _ _ _ _ applyDeleteConfig_quiet Hs5). }
  assert (proc s' = proc s9) as ->.
  { rewrite (quiet_run _ _ _ _ (applyCompletionConfig_quiet _) Hrun).
    apply (quiet_run _ _ _ _ (applyRetentionConfig_quiet _) Hs10). }
  rewrite Harchive, Hfailed. clear Harchive Hfailed archive failed.
  destruct (at_least_number _ _ _ (VInt 43200) 43200 Hat eq_refl ltac:(lia)) as (a & Hna & Hage).
  pose proof (js_or_truthy (config s2).["archiveCompletedAfterSeconds"] (VInt 43200) eq_refl)
    as Hta.
  rewrite <- Ha in Hp3, Hna, Hta. clear Ha.
  set (A := (config s3).["archiveSeconds"]) in *.
  destruct (at_least_number _ _ _ A a Hft Hna Hage) as (f & Hnf & Hfge).
  pose proof (js_or_truthy (config s3).["archiveFailedAfterSeconds"] A Hta) as Htf.
  rewrite <- Hf in Hp4, Hnf, Htf. clear Hf.
  set (F := (config s4).["archiveFailedSeconds"]) in *.
  rewrite Hp9, Hp8, Hp4, Hp3, Hp2, Hta, Htf.
  rewrite (js_lt_number _ _ _ Hna), (js_lt_number _ _ _ Hnf), (js_ge_number _ _ _ Hna).
  cbn [andb]. rewrite notice_all_app.
  destruct (Z.ltb_spec a 60), (Z.ltb_spec f 60), (Z.leb_spec 60 a); try lia;
    cbn [andb orb]; by destruct (has "expireIn" o).
Qed.

Lemma getConfig_Ok value w l w' :
  getConfig value w = (Ok l, w') →
  ∃ s', configure {| config := configuration value (heap w); proc := wproc w |} = (Ok tt, s') ∧
        deref l (heap w') = config s' ∧ wproc w' = proc s'.
Proof.
  rewrite getConfig_run. destruct (_ && _); [| discriminate]. cbv zeta.
  fold (configuration value (heap w)).
  destruct (configure _) as [[[]|e] s'] eqn:Hrun; [| discriminate].
  intros [= <- <-]. exists s'. cbn [fst snd heap wproc]. by rewrite deref_app_new.
Qed.

(** X16: the warnings of [getConfig]: the one about cron when an archive
    interval is below 60 seconds, then the one about [expireIn] when the
    supplied configuration has that property, each once for a process
    that has emitted nothing yet, and never the one about clock skew. *)
Theorem X16_getConfig_warnings value w l w' :
  getConfig value w = (Ok l, w') →
  let resolved := deref l (heap w') in
  let cron := js_lt resolved.["archiveSeconds"] (VInt 60) ||
              js_lt resolved.["archiveFailedSeconds"] (VInt 60) in
  let removed := has "expireIn" (configuration value (heap w)) in
  wproc w' =
    notice_all ((if cron then [CRON_DISABLED] else []) ++
                (if removed then [EXPIRE_IN_REMOVED] else [])) (wproc w) ∧
  (wproc w = process0 →
     count CRON_DISABLED (wproc w') = (if cron then 1 else 0)%nat ∧
     count EXPIRE_IN_REMOVED (wproc w') = (if removed then 1 else 0)%nat ∧
     count CLOCK_SKEW (wproc w') = 0%nat).
Proof.
  intros (s' & Hrun & Hres & Hproc)%getConfig_Ok resolved cron removed.
  subst resolved cron removed. rewrite Hres, Hproc.
  pose proof (configure_process _ _ _ Hrun) as Hp. cbv zeta in Hp.
  split; [exact Hp|]. intros Hw. rewrite Hp, Hw.
  destruct (_ || _), (has "expireIn" _); by vm_compute.
Qed.

Lemma applyNewJobCheckInterval_Ok d s s' :
  applyNewJobCheckInterval d s = (Ok tt, s') →
  (config s').["newJobCheckInterval"] = newJobCheckInterval_of (config s) d ∧
  at_least "newJobCheckInterval" 100 (config s) = true ∧
  at_least "newJobCheckIntervalSeconds" 1 (config s) = true ∧
  ∀ k, k ≠ "newJobCheckInterval" → config s' !! k = config s !! k.
Proof.
  intros Hrun. split; [| split; [| split]].
  4: { intros k Hk. by apply (keeps_run k _ _ _ _ (applyNewJobCheckInterval_keeps k d Hk) Hrun). }
  all: unfold applyNewJobCheckInterval in Hrun; cbv zeta in Hrun;
    apply bind_Ok in Hrun as (? & ? & [H1 ->]%assert_on_Ok & Hrun);
    apply bind_Ok in Hrun as (? & ? & [H2 ->]%assert_on_Ok & Hrun); try done.
  rewrite (assign_prop_eq _ _ _ _ _ Hrun). unfold newJobCheckInterval_of. by destruct d.
Qed.

(** X17: the job defaults of a configuration: expiration, retention,
    [onComplete] and [newJobCheckInterval] are the supplied ones, and
    15 minutes, 14 days, false and 2000 when none is supplied. *)
Theorem X17_getConfig_fallbacks value w l w' :
  getConfig value w = (Ok l, w') →
  let given := configuration value (heap w) in
  let resolved := deref l (heap w') in
  resolved.["expireIn"] =
    (if has "expireInHours" given then VStr (ToString given.["expireInHours"] +:+ " hours")
     else if has "expireInMinutes" given then
       VStr (ToString given.["expireInMinutes"] +:+ " minutes")
     else if has "expireInSeconds" given then
       VStr (ToString given.["expireInSeconds"] +:+ " seconds")
     else VStr "15 minutes") ∧
  resolved.["keepUntil"] =
    (if has "retentionDays" given then VStr (ToString given.["retentionDays"] +:+ " days")
     else if has "retentionHours" given then
       VStr (ToString given.["retentionHours"] +:+ " hours")
     else if has "retentionMinutes" given then
       VStr (ToString given.["retentionMinutes"] +:+ " minutes")
     else if has "retentionSeconds" given then
       VStr (ToString given.["retentionSeconds"] +:+ " seconds")
     else VStr "14 days") ∧
  resolved.["onComplete"] =
    (if has "onComplete" given then given.["onComplete"] else VBool false) ∧
  resolved.["newJobCheckInterval"] =
    (if truthy given.["newJobCheckIntervalSeconds"] then
       js_mul given.["newJobCheckIntervalSeconds"] (VInt 1000)
     else if has "newJobCheckInterval" given then given.["newJobCheckInterval"]
     else VInt 2000).
Proof.
  intros (s' & Hrun & Hres & _)%getConfig_Ok given resolved.
  subst resolved. rewrite Hres. fold given in Hrun. clear Hres.
  configure_steps Hrun.
  destruct (applyNewJobCheckInterval_Ok _ _ _ Hs8) as (Hn & _).
  destruct (applyExpirationConfig_Ok _ _ _ Hs9) as (He & _).
  destruct (applyRetentionConfig_Ok _ _ _ Hs10) as (Hk & _).
  destruct (applyCompletionConfig_Ok _ _ _ Hrun) as (Hc & _).
  assert (∀ k, k ∉ ["schema"; "maintenanceIntervalSeconds"; "archiveSeconds";
                    "archiveInterval"; "archiveFailedSeconds"; "archiveFailedInterval";
                    "deleteAfter"; "monitorStateIntervalSeconds";
                    "clockMonitorIntervalSeconds"; "cronMonitorIntervalSeconds";
                    "cronWorkerIntervalSeconds"; "uuid"] →
               config s7 !! k = given !! k) as H7.
  { intros k Hk7. repeat (apply not_elem_of_cons in Hk7 as [? Hk7]).
    rewrite (keeps_run k _ _ _ _ (applyUuidConfig_keeps k ltac:(done)) Hs7).
    rewrite (keeps_run k _ _ _ _
               (applyMonitoringConfig_keeps k
                  ltac:(repeat (apply not_elem_of_cons; split; [done|]); apply not_elem_of_nil))
               Hs6).
    rewrite (keeps_run k _ _ _ _ (applyDeleteConfig_keeps k ltac:(done)) Hs5).
    rewrite (keeps_run k _ _ _ _
               (applyArchiveFailedConfig_keeps k
                  ltac:(repeat (apply not_elem_of_cons; split; [done|]); apply not_elem_of_nil))
               Hs4).
    rewrite (keeps_run k _ _ _ _
               (applyArchiveConfig_keeps k
                  ltac:(repeat (apply not_elem_of_cons; split; [done|]); apply not_elem_of_nil))
               Hs3).
    rewrite (keeps_run k _ _ _ _ (applyMaintenanceConfig_keeps k ltac:(done)) Hs2).
    apply (keeps_run k _ _ _ _ (applyDatabaseConfig_keeps k ltac:(done)) Hs1). }
  clear Hs1 Hs2 Hs3 Hs4 Hs5 Hs6 Hs7.
  pose proof (λ k Hk, keeps_run k _ _ _ _ (applyNewJobCheckInterval_keeps k None Hk) Hs8) as K8.
  pose proof (λ k Hk, keeps_run k _ _ _ _ (applyExpirationConfig_keeps k None Hk) Hs9) as K9.
  pose proof (λ k Hk, keeps_run k _ _ _ _ (applyRetentionConfig_keeps k None Hk) Hs10) as K10.
  pose proof (λ k Hk, keeps_run k _ _ _ _ (applyCompletionConfig_keeps k None Hk) Hrun) as K11.
  unfold expireIn_of, keepUntil_of, newJobCheckInterval_of, has, prop in *.
  split; [| split; [| split]].
  - rewrite K11, K10, He by done. rewrite !K8, !H7 by first [done | listed]. done.
  - rewrite K11, Hk by done. rewrite !K9, !K8, !H7 by first [done | listed]. done.
  - rewrite Hc. rewrite !K10, !K9, !K8, !H7 by first [done | listed]. done.
  - rewrite K11, K10, K9, Hn by done. rewrite !H7 by listed. done.
Qed.

Lemma at_least_or k lo (o : obj) dflt :
  at_least k lo o = true → js_or o.[k] dflt = if has k o then o.[k] else dflt.
Proof.
  unfold at_least, js_or. destruct (has k o) eqn:Hhas; cbn [negb orb].
  - by intros [-> _]%andb_true_iff.
  - intros _. by rewrite (has_prop _ _ Hhas).
Qed.

(** X15: the archive settings of a configuration: [archiveSeconds] is the
    supplied archiveCompletedAfterSeconds or 43200, [archiveFailedSeconds]
    the supplied archiveFailedAfterSeconds or [archiveSeconds], the two
    intervals are these numbers followed by seconds, and both numbers are
    at least 1. *)
Theorem X15_getConfig_archive value w l w' :
  getConfig value w = (Ok l, w') →
  let given := configuration value (heap w) in
  let resolved := deref l (heap w') in
  let archive := resolved.["archiveSeconds"] in
  let failed := resolved.["archiveFailedSeconds"] in
  archive = (if has "archiveCompletedAfterSeconds" given
             then given.["archiveCompletedAfterSeconds"] else VInt 43200) ∧
  failed = (if has "archiveFailedAfterSeconds" given
            then given.["archiveFailedAfterSeconds"] else archive) ∧
  resolved.["archiveInterval"] = VStr (ToString archive +:+ " seconds") ∧
  resolved.["archiveFailedInterval"] = VStr (ToString failed +:+ " seconds") ∧
  ∃ a f, ToNumber archive = Int a ∧ ToNumber failed = Int f ∧ 1 ≤ a ∧ 1 ≤ f.
Proof.
  intros (s' & Hrun & Hres & _)%getConfig_Ok given resolved archive failed.
  subst archive failed resolved. rewrite Hres. fold given in Hrun. clear Hres.
  configure_steps Hrun.
  destruct (applyArchiveConfig_Ok _ _ Hs3) as (Ha & Hai & Hat & _).
  destruct (applyArchiveFailedConfig_Ok _ _ Hs4) as (Hf & Hfi & Hft & _).
  cbv zeta in Ha, Hai, Hf, Hfi.
  assert ((config s').["archiveSeconds"] = (config s3).["archiveSeconds"]) as ->
    by (kept "archiveSeconds"; reflexivity).
  assert ((config s').["archiveInterval"] = (config s3).["archiveInterval"]) as ->
    by (kept "archiveInterval"; reflexivity).
  assert ((config s').["archiveFailedSeconds"] = (config s4).["archiveFailedSeconds"]) as ->
    by (kept "archiveFailedSeconds"; reflexivity).
  assert ((config s').["archiveFailedInterval"] = (config s4).["archiveFailedInterval"]) as ->
    by (kept "archiveFailedInterval"; reflexivity).
  destruct (at_least_number _ _ _ (VInt 43200) 43200 Hat eq_refl ltac:(lia)) as (a & Hna & Hage).
  rewrite <- Ha in Hna, Hai.
  destruct (at_least_number _ _ _ _ a Hft Hna Hage) as (f & Hnf & Hfge).
  rewrite <- Hf in Hnf, Hfi.
  rewrite (at_least_or _ _ _ _ Hat) in Ha. rewrite (at_least_or _ _ _ _ Hft) in Hf.
  pose proof (λ k Hk, keeps_run k _ _ _ _ (applyDatabaseConfig_keeps k Hk) Hs1) as K1.
  pose proof (λ k Hk, keeps_run k _ _ _ _ (applyMaintenanceConfig_keeps k Hk) Hs2) as K2.
  pose proof (λ k Hk, keeps_run k _ _ _ _ (applyArchiveConfig_keeps k Hk) Hs3) as K3.
  assert (config s2 !! "archiveCompletedAfterSeconds" =
          given !! "archiveCompletedAfterSeconds") as H2.
  { by rewrite K2, K1. }
  assert (config s3 !! "archiveFailedAfterSeconds" = given !! "archiveFailedAfterSeconds") as H3.
  { rewrite K3 by listed. by rewrite K2, K1. }
  unfold has, prop in Ha, Hf. rewrite H2 in Ha. rewrite H3 in Hf.
  split; [exact Ha|]. split; [exact Hf|]. split; [exact Hai|]. split; [exact Hfi|].
  by exists a, f.
Qed.

End Warnings.

Section Maintenance.
Context `{Host}.

Lemma applyMaintenanceConfig_Ok s s' :
  applyMaintenanceConfig s = (Ok tt, s') →
  (config s').["maintenanceIntervalSeconds"] =
    if truthy (config s).["maintenanceIntervalMinutes"] then
      js_mul (config s).["maintenanceIntervalMinutes"] (VInt 60)
    else if truthy (config s).["maintenanceIntervalSeconds"] then
      (config s).["maintenanceIntervalSeconds"]
    else VInt 120.
Proof.
  intros Hrun. unfold applyMaintenanceConfig, if_on in Hrun.
  apply bind_Ok in Hrun as (? & ? & [_ ->]%assert_on_Ok & Hrun).
  apply bind_Ok in Hrun as (? & ? & [_ ->]%assert_on_Ok & Hrun).
  apply bind_Ok in Hrun as (? & ? & [= <- <-] & Hrun).
  destruct (truthy (config _).["maintenanceIntervalMinutes"]).
  - by rewrite (assign_prop_eq _ _ _ _ _ Hrun).
  - apply bind_Ok in Hrun as (? & ? & [= <- <-] & Hrun).
    destruct (truthy (config _).["maintenanceIntervalSeconds"]);
      by rewrite (assign_prop_eq _ _ _ _ _ Hrun).
Qed.

Lemma applyDeleteConfig_Ok s s' :
  applyDeleteConfig s = (Ok tt, s') →
  (config s').["deleteAfter"] =
    VStr (if has "deleteAfterDays" (config s) then
            ToString (config s).["deleteAfterDays"] +:+ " days"
          else if has "deleteAfterHours" (config s) then
            ToString (config s).["deleteAfterHours"] +:+ " hours"
          else if has "deleteAfterMinutes" (config s) then
            ToString (config s).["deleteAfterMinutes"] +:+ " minutes"
          else if has "deleteAfterSeconds" (config s) then
            ToString (config s).["deleteAfterSeconds"] +:+ " seconds"
          else "7 days").
Proof.
  intros Hrun. unfold applyDeleteConfig in Hrun.
  apply bind_Ok in Hrun as (? & ? & [_ ->]%assert_on_Ok & Hrun).
  apply bind_Ok in Hrun as (? & ? & [_ ->]%assert_on_Ok & Hrun).
  apply bind_Ok in Hrun as (? & ? & [_ ->]%assert_on_Ok & Hrun).
  apply bind_Ok in Hrun as (? & ? & [_ ->]%assert_on_Ok & Hrun).
  apply bind_Ok in Hrun as (? & ? & [= <- <-] & Hrun).
  by rewrite (assign_prop_eq _ _ _ _ _ Hrun).
Qed.

Lemma applyUuidConfig_Ok s s' :
  applyUuidConfig s = (Ok tt, s') →
  ((config s').["uuid"] = VStr "v1" ∨ (config s').["uuid"] = VStr "v4") ∧
  (config s').["uuid"] = if has "uuid" (config s) then (config s).["uuid"] else VStr "v4".
Proof.
  intros Hrun. unfold applyUuidConfig in Hrun.
  apply bind_Ok in Hrun as (? & ? & [Hu ->]%assert_on_Ok & Hrun).
  rewrite (assign_prop_eq _ _ _ _ _ Hrun).
  destruct (has "uuid" (config _)) eqn:Hhas; cbn [negb orb] in Hu.
  - destruct ((config _).["uuid"]) as [| | |[]|u|]; try discriminate Hu.
    apply orb_true_iff in Hu as [->%String.eqb_eq | ->%String.eqb_eq]; cbn; tauto.
  - rewrite (has_prop _ _ Hhas). cbn. tauto.
Qed.

Lemma applyMonitoringConfig_cron s s' :
  applyMonitoringConfig s = (Ok tt, s') →
  (config s').["cronMonitorIntervalSeconds"] =
    (if has "cronMonitorIntervalSeconds" (config s)
     then (config s).["cronMonitorIntervalSeconds"] else VInt 60) ∧
  (config s').["cronWorkerIntervalSeconds"] =
    (if has "cronWorkerIntervalSeconds" (config s)
     then (config s).["cronWorkerIntervalSeconds"] else VInt 4) ∧
  ∀ k, k ∈ ["cronMonitorIntervalSeconds"; "cronWorkerIntervalSeconds"] →
       between k 1 60 (config s) = true.
Proof.
  intros Hrun. unfold applyMonitoringConfig in Hrun. cbv zeta in Hrun.
  apply bind_Ok in Hrun as (? & ? & [_ ->]%assert_on_Ok & Hrun).
  apply bind_Ok in Hrun as (? & ? & [_ ->]%assert_on_Ok & Hrun).
  apply bind_Ok in Hrun as (? & t1 & Ht1 & Hrun).
  apply bind_Ok in Hrun as (? & ? & [_ ->]%assert_on_Ok & Hrun).
  apply bind_Ok in Hrun as (? & ? & [_ ->]%assert_on_Ok & Hrun).
  apply bind_Ok in Hrun as (? & t2 & Ht2 & Hrun).
  apply bind_Ok in Hrun as (? & ? & [Hm ->]%assert_on_Ok & Hrun).
  apply bind_Ok in Hrun as (? & t3 & Ht3 & Hrun).
  apply bind_Ok in Hrun as (? & ? & [Hw ->]%assert_on_Ok & Hrun).
  assert (∀ k, k ∈ ["cronMonitorIntervalSeconds"; "cronWorkerIntervalSeconds"] →
               config t2 !! k = config s !! k) as K2.
  { intros k Hk.
    assert (keeps k (if_on (λ config, truthy config.["monitorStateIntervalMinutes"])
      (assign "monitorStateIntervalSeconds" (λ config,
         js_mul config.["monitorStateIntervalMinutes"] (VInt 60)))
      (if_on (λ config, truthy config.["monitorStateIntervalSeconds"])
         (assign "monitorStateIntervalSeconds" (λ config, config.["monitorStateIntervalSeconds"]))
         (assign "monitorStateIntervalSeconds" (λ _, VNull))))) as Hk1.
    { repeat (apply elem_of_cons in Hk as [-> | Hk]); [| | by apply elem_of_nil in Hk];
        keeps_tac. }
    assert (keeps k (if_on (λ config, truthy config.["clockMonitorIntervalMinutes"])
      (assign "clockMonitorIntervalSeconds" (λ config,
         js_mul config.["clockMonitorIntervalMinutes"] (VInt 60)))
      (if_on (λ config, truthy config.["clockMonitorIntervalSeconds"])
         (assign "clockMonitorIntervalSeconds" (λ config, config.["clockMonitorIntervalSeconds"]))
         (assign "monitorStateIntervalSeconds" (λ _, VInt 600))))) as Hk2.
    { repeat (apply elem_of_cons in Hk as [-> | Hk]); [| | by apply elem_of_nil in Hk];
        keeps_tac. }
    rewrite (keeps_run k _ _ _ _ Hk2 Ht2). apply (keeps_run k _ _ _ _ Hk1 Ht1). }
  assert (config t3 !! "cronWorkerIntervalSeconds" = config s !! "cronWorkerIntervalSeconds")
    as K3.
  { injection Ht3 as _ <-. cbn [config]. rewrite lookup_insert_ne by done.
    apply K2. listed. }
  pose proof (K2 "cronMonitorIntervalSeconds" ltac:(listed)) as K2m.
  split; [| split].
  - back. unfold has, prop. by rewrite K2m.
  - rewrite (assign_prop_eq _ _ _ _ _ Hrun). unfold has, prop. by rewrite K3.
  - intros k Hk. repeat (apply elem_of_cons in Hk as [-> | Hk]); [| | by apply elem_of_nil in Hk].
    + unfold between, has, prop in *. by rewrite K2m in Hm.
    + unfold between, has, prop in *. by rewrite K3 in Hw.
Qed.

(** X18: the maintenance settings of a configuration: the interval from
    minutes (times 60), else seconds, else 120; [deleteAfter] from the
    first unit present, else 7 days; [uuid] the supplied v1 or v4, else
    v4; the two cron intervals the supplied ones, between 1 and 60, else
    60 and 4. *)
Theorem X18_getConfig_maintenance value w l w' :
  getConfig value w = (Ok l, w') →
  let given := configuration value (heap w) in
  let resolved := deref l (heap w') in
  resolved.["maintenanceIntervalSeconds"] =
    (if truthy given.["maintenanceIntervalMinutes"] then
       js_mul given.["maintenanceIntervalMinutes"] (VInt 60)
     else if truthy given.["maintenanceIntervalSeconds"] then
       given.["maintenanceIntervalSeconds"]
     else VInt 120) ∧
  resolved.["deleteAfter"] =
    VStr (if has "deleteAfterDays" given then
            ToString given.["deleteAfterDays"] +:+ " days"
          else if has "deleteAfterHours" given then
            ToString given.["deleteAfterHours"] +:+ " hours"
          else if has "deleteAfterMinutes" given then
            ToString given.["deleteAfterMinutes"] +:+ " minutes"
          else if has "deleteAfterSeconds" given then
            ToString given.["deleteAfterSeconds"] +:+ " seconds"
          else "7 days") ∧
  (resolved.["uuid"] = VStr "v1" ∨ resolved.["uuid"] = VStr "v4") ∧
  resolved.["uuid"] = (if has "uuid" given then given.["uuid"] else VStr "v4") ∧
  resolved.["cronMonitorIntervalSeconds"] =
    (if has "cronMonitorIntervalSeconds" given
     then given.["cronMonitorIntervalSeconds"] else VInt 60) ∧
  resolved.["cronWorkerIntervalSeconds"] =
    (if has "cronWorkerIntervalSeconds" given
     then given.["cronWorkerIntervalSeconds"] else VInt 4) ∧
  (∀ k, k ∈ ["cronMonitorIntervalSeconds"; "cronWorkerIntervalSeconds"] →
        between k 1 60 given = true).
Proof.
  intros (s' & Hrun & Hres & _)%getConfig_Ok given resolved.
  subst resolved. rewrite Hres. fold given in Hrun. clear Hres.
  configure_steps Hrun.
  pose proof (applyMaintenanceConfig_Ok _ _ Hs2) as Hm.
  pose proof (applyDeleteConfig_Ok _ _ Hs5) as Hd.
  destruct (applyMonitoringConfig_cron _ _ Hs6) as (Hcm & Hcw & Hcron).
  destruct (applyUuidConfig_Ok _ _ Hs7) as (Hu1 & Hu2).
  pose proof (λ k Hk, keeps_run k _ _ _ _ (applyDatabaseConfig_keeps k Hk) Hs1) as K1.
  pose proof (λ k Hk, keeps_run k _ _ _ _ (applyMaintenanceConfig_keeps k Hk) Hs2) as K2.
  pose proof (λ k Hk, keeps_run k _ _ _ _ (applyArchiveConfig_keeps k Hk) Hs3) as K3.
  pose proof (λ k Hk, keeps_run k _ _ _ _ (applyArchiveFailedConfig_keeps k Hk) Hs4) as K4.
  pose proof (λ k Hk, keeps_run k _ _ _ _ (applyDeleteConfig_keeps k Hk) Hs5) as K5.
  pose proof (λ k Hk, keeps_run k _ _ _ _ (applyMonitoringConfig_keeps k Hk) Hs6) as K6.
  pose proof (λ k Hk, keeps_run k _ _ _ _ (applyUuidConfig_keeps k Hk) Hs7) as K7.
  pose proof (λ k Hk, keeps_run k _ _ _ _ (applyNewJobCheckInterval_keeps k None Hk) Hs8) as K8.
  pose proof (λ k Hk, keeps_run k _ _ _ _ (applyExpirationConfig_keeps k None Hk) Hs9) as K9.
  pose proof (λ k Hk, keeps_run k _ _ _ _ (applyRetentionConfig_keeps k None Hk) Hs10) as K10.
  pose proof (λ k Hk, keeps_run k _ _ _ _ (applyCompletionConfig_keeps k None Hk) Hrun) as K11.
  clear Hs1 Hs2 Hs3 Hs4 Hs5 Hs6 Hs7 Hs8 Hs9 Hs10 Hrun.
  assert (∀ k, (config s').[k] = default VUndefined (config s' !! k)) as Hprop by done.
  unfold between, has, prop in *.
  split; [| split; [| split; [| split; [| split; [| split]]]]].
  - rewrite K11, K10, K9, K8, K7, K6, K5, K4, K3, Hm by first [done | listed].
    by rewrite !K1 by done.
  - rewrite K11, K10, K9, K8, K7, K6, Hd by first [done | listed].
    by rewrite !K4, !K3, !K2, !K1 by first [done | listed].
  - rewrite K11, K10, K9, K8 by done. exact Hu1.
  - rewrite K11, K10, K9, K8, Hu2 by done.
    by rewrite !K6, !K5, !K4, !K3, !K2, !K1 by first [done | listed].
  - rewrite K11, K10, K9, K8, K7, Hcm by done.
    by rewrite !K5, !K4, !K3, !K2, !K1 by first [done | listed].
  - rewrite K11, K10, K9, K8, K7, Hcw by done.
    by rewrite !K5, !K4, !K3, !K2, !K1 by first [done | listed].
  - intros k Hk. specialize (Hcron k Hk).
    repeat (apply elem_of_cons in Hk as [-> | Hk]); [| | by apply elem_of_nil in Hk];
      by rewrite !K5, !K4, !K3, !K2, !K1 in Hcron by first [done | listed].
Qed.

End Maintenance.

Section Work.
Context `{Host}.

Lemma checkWorkArgs_run name args d w :
  checkWorkArgs name args d w =
  if negb (truthy name) then (Throw (AssertionError "missing job name"), w)
  else
    let first := match args with
                 | WorkArray elems => default undefined (elems !! 0%nat)
                 | WorkOther _ => undefined
                 end in
    let own := match args with
               | WorkArray _ => truthy_arg first
               | WorkOther _ => false
               end in
    let options := if own then first else Ref (length (heap w)) in
    let callback := work_callback_of args in
    let w1 := {| heap := heap w ++ (if own then [] else [∅]); wproc := wproc w; db := db w |} in
    if negb (String.eqb (typeof_arg callback) "function") then
      (Throw (AssertionError "expected callback to be a function"), w1)
    else if negb (String.eqb (typeof_arg options) "object") then
      (Throw (AssertionError "expected config to be an object"), w1)
    else
      let r := resolveWorkOptions d {| config := work_supplied args (heap w); proc := wproc w |} in
      (match r.1 with
       | Ok _ => Ok {| work_options := length (heap w1); work_callback := callback |}
       | Throw e => Throw e
       end,
       {| heap := heap w1 ++ [config r.2]; wproc := proc r.2; db := db w |}).
Proof.
  assert (∀ w : world, {| heap := heap w ++ []; wproc := wproc w; db := db w |} = w) as Hw.
  { intros []. cbn. by rewrite app_nil_r. }
  unfold checkWorkArgs.
  destruct (truthy name); cbn [assert negb]; rewrite ?bind_ret, ?bind_throw; [| done].
  assert (∀ options callback (w1 : world),
    bind (assert (String.eqb (typeof_arg callback) "function") "expected callback to be a function")
      (λ _, bind (assert (String.eqb (typeof_arg options) "object")
                    "expected config to be an object")
         (λ _, copy ← gets (spread options);
               options ← alloc copy;
               zoom options (resolveWorkOptions d);;
               ret {| work_options := options; work_callback := callback |})) w1 =
    if negb (String.eqb (typeof_arg callback) "function") then
      (Throw (AssertionError "expected callback to be a function"), w1)
    else if negb (String.eqb (typeof_arg options) "object") then
      (Throw (AssertionError "expected config to be an object"), w1)
    else
      let r := resolveWorkOptions d {| config := spread options (heap w1); proc := wproc w1 |} in
      (match r.1 with
       | Ok _ => Ok {| work_options := length (heap w1); work_callback := callback |}
       | Throw e => Throw e
       end,
       {| heap := heap w1 ++ [config r.2]; wproc := proc r.2; db := db w1 |})) as Hk.
  { intros options callback w1.
    destruct (String.eqb (typeof_arg callback) "function"); cbn [assert negb];
      rewrite ?bind_ret, ?bind_throw; [| done].
    destruct (String.eqb (typeof_arg options) "object"); cbn [assert negb];
      rewrite ?bind_ret, ?bind_throw; [| done].
    rewrite bind_gets.
    exact (alloc_zoom_run _ (resolveWorkOptions d)
             (λ l, {| work_options := l; work_callback := callback |}) w1). }
  destruct args as [elems|v]; cbn [work_callback_of work_supplied].
  - cbv zeta. destruct (truthy_arg (default undefined (elems !! 0%nat))) eqn:Hfirst.
    + rewrite bind_bind, bind_ret, bind_ret. cbv beta iota. rewrite Hk, Hw. done.
    + rewrite bind_bind, bind_bind, bind_alloc, bind_ret, bind_ret. cbv beta iota.
      rewrite Hk. cbn [heap wproc db spread]. by rewrite deref_app_new.
  - rewrite bind_bind, bind_alloc, bind_ret. cbv beta iota.
    rewrite Hk. cbn [heap wproc db spread]. by rewrite deref_app_new.
Qed.

Lemma integer_at_least_Some k lo (o : obj) v :
  integer_at_least k lo o = true → o !! k = Some v → ∃ n, v = VInt n ∧ lo ≤ n.
Proof.
  unfold integer_at_least, has, prop. intros Hk Hv. rewrite Hv in Hk.
  rewrite bool_decide_eq_true_2 in Hk by eauto. cbn [negb orb default from_option] in Hk.
  destruct v as [| | |[n|]| |]; try discriminate Hk. exists n. split; [done|].
  apply andb_true_iff in Hk as [_ Hge]. unfold js_ge, js_le in Hge. cbn in Hge.
  by apply Z.leb_le.
Qed.

Lemma boolean_if_present_Some k (o : obj) v :
  boolean_if_present k o = true → o !! k = Some v → ∃ b, v = VBool b.
Proof.
  unfold boolean_if_present, has, prop. intros Hk Hv. rewrite Hv in Hk.
  rewrite bool_decide_eq_true_2 in Hk by eauto. cbn [negb orb default from_option] in Hk.
  destruct v as [| |b| | |]; try discriminate Hk. by exists b.
Qed.

Lemma resolveWorkOptions_Ok d s s' :
  resolveWorkOptions d s = (Ok tt, s') →
  (config s').["newJobCheckInterval"] = newJobCheckInterval_of (config s) (Some d) ∧
  (∀ k, k ≠ "newJobCheckInterval" → config s' !! k = config s !! k) ∧
  proc s' = proc s ∧
  (∀ v, config s' !! "teamConcurrency" = Some v → ∃ n, v = VInt n ∧ 1 ≤ n ≤ 1000) ∧
  integer_at_least "teamSize" 1 (config s') = true ∧
  integer_at_least "batchSize" 1 (config s') = true ∧
  boolean_if_present "includeMetadata" (config s') = true ∧
  boolean_if_present "enforceSingletonQueueActiveLimit" (config s') = true.
Proof.
  intros Hrun. unfold resolveWorkOptions in Hrun.
  apply bind_Ok in Hrun as (? & s1 & Hs1 & Hrun).
  apply bind_Ok in Hrun as (? & ? & [H1 ->]%assert_on_Ok & Hrun).
  apply bind_Ok in Hrun as (? & ? & [H2 ->]%assert_on_Ok & Hrun).
  apply bind_Ok in Hrun as (? & ? & [H3 ->]%assert_on_Ok & Hrun).
  apply bind_Ok in Hrun as (? & ? & [H4 ->]%assert_on_Ok & Hrun).
  apply assert_on_Ok in Hrun as [H5 ->].
  repeat match goal with u : () |- _ => destruct u end.
  destruct (applyNewJobCheckInterval_Ok _ _ _ Hs1) as (Hn & _ & _ & Hkeep).
  split; [done|]. split; [done|].
  split; [by apply (quiet_run _ _ _ _ (applyNewJobCheckInterval_quiet _) Hs1)|].
  split; [| done].
  intros v Hv. unfold has, prop in H1. rewrite Hv in H1.
  rewrite bool_decide_eq_true_2 in H1 by eauto. cbn [negb orb default from_option] in H1.
  destruct v as [| | |[n|]| |]; try discriminate H1. exists n. split; [done|].
  apply andb_true_iff in H1 as [[_ Hge]%andb_true_iff Hle].
  unfold js_ge, js_le in Hge, Hle. cbn in Hge, Hle.
  apply Z.leb_le in Hge, Hle. lia.
Qed.

(** X19: what [checkWorkArgs] returns: the callback of the call, which is
    a function, and a copy of the supplied options in which only
    [newJobCheckInterval] is resolved (seconds times 1000, else the
    supplied interval, else the default's), where teamConcurrency is an
    integer from 1 to 1000, teamSize and batchSize are integers of at
    least 1, and the two flags are booleans, when present. *)
Theorem X19_checkWorkArgs_result name args d w r w' :
  checkWorkArgs name args d w = (Ok r, w') →
  let given := work_supplied args (heap w) in
  let resolved := deref (work_options r) (heap w') in
  truthy name = true ∧
  work_callback r = work_callback_of args ∧ typeof_arg (work_callback r) = "function" ∧
  resolved.["newJobCheckInterval"] =
    (if truthy given.["newJobCheckIntervalSeconds"] then
       js_mul given.["newJobCheckIntervalSeconds"] (VInt 1000)
     else if has "newJobCheckInterval" given then given.["newJobCheckInterval"]
     else d.["newJobCheckInterval"]) ∧
  (∀ k, k ≠ "newJobCheckInterval" → resolved !! k = given !! k) ∧
  (∀ v, resolved !! "teamConcurrency" = Some v → ∃ n, v = VInt n ∧ 1 ≤ n ≤ 1000) ∧
  (∀ k v, k ∈ ["teamSize"; "batchSize"] → resolved !! k = Some v → ∃ n, v = VInt n ∧ 1 ≤ n) ∧
  (∀ k v, k ∈ ["includeMetadata"; "enforceSingletonQueueActiveLimit"] →
          resolved !! k = Some v → ∃ b, v = VBool b).
Proof.
  rewrite checkWorkArgs_run. intros Hrun given resolved.
  destruct (truthy name); cbn [negb] in Hrun; [| discriminate]. cbv zeta in Hrun.
  destruct (String.eqb (typeof_arg (work_callback_of args)) "function") eqn:Hfun;
    cbn [negb] in Hrun; [| discriminate].
  destruct (negb _) in Hrun; [discriminate|].
  fold given in Hrun.
  destruct (resolveWorkOptions d _) as [[[]|e] s'] eqn:Hs; [| discriminate].
  injection Hrun as <- <-. subst resolved. cbn [work_options work_callback heap fst snd].
  rewrite deref_app_new.
  destruct (resolveWorkOptions_Ok _ _ _ Hs) as (Hn & Hkeep & _ & Hteam & Hsize & Hbatch & Hmeta & Henf).
  cbn [config] in *.
  split; [done|]. split; [done|]. split; [by apply String.eqb_eq|].
  split; [exact Hn|]. split; [exact Hkeep|]. split; [exact Hteam|]. split.
  - intros k v Hk Hv. repeat (apply elem_of_cons in Hk as [-> | Hk]).
    + exact (integer_at_least_Some _ _ _ _ Hsize Hv).
    + exact (integer_at_least_Some _ _ _ _ Hbatch Hv).
    + by apply elem_of_nil in Hk.
  - intros k v Hk Hv. repeat (apply elem_of_cons in Hk as [-> | Hk]).
    + exact (boolean_if_present_Some _ _ _ Hmeta Hv).
    + exact (boolean_if_present_Some _ _ _ Henf Hv).
    + by apply elem_of_nil in Hk.
Qed.

Lemma resolveWorkOptions_quiet d : quiet (resolveWorkOptions d).
Proof.
  unfold resolveWorkOptions.
  apply quiet_bind; [apply applyNewJobCheckInterval_quiet | intros]. quiet_tac.
Qed.

(** X20: [checkWorkArgs] keeps the objects of the heap, the database and
    the warnings; the options it returns are a new object; a falsy name
    is refused with the world unchanged, and a callback that is no
    function is refused. *)
Theorem X20_checkWorkArgs_world name args d w :
  let r := checkWorkArgs name args d w in
  heap w `prefix_of` heap r.2 ∧ db r.2 = db w ∧ wproc r.2 = wproc w ∧
  (∀ x, r.1 = Ok x → (length (heap w) ≤ work_options x < length (heap r.2))%nat) ∧
  (truthy name = false → r = (Throw (AssertionError "missing job name"), w)) ∧
  (truthy name = true → typeof_arg (work_callback_of args) ≠ "function" →
     r.1 = Throw (AssertionError "expected callback to be a function")).
Proof.
  intros r. subst r. rewrite checkWorkArgs_run.
  destruct (truthy name); cbn [negb]; [| by repeat split].
  cbv zeta.
  destruct (String.eqb (typeof_arg (work_callback_of args)) "function") eqn:Hfun; cbn [negb].
  2: { apply String.eqb_neq in Hfun. repeat split; try done. by apply prefix_app_r. }
  apply String.eqb_eq in Hfun.
  destruct (negb _).
  { repeat split; try done. by apply prefix_app_r. }
  pose proof (resolveWorkOptions_quiet d
                {| config := work_supplied args (heap w); proc := wproc w |}) as Hq.
  destruct (resolveWorkOptions d _) as [[[]|e] s']; cbn [fst snd heap db wproc proc] in *.
  - split; [rewrite <- app_assoc; by apply prefix_app_r|].
    split; [done|]. split; [done|]. split; [| done].
    intros x [= <-]. cbn. rewrite !length_app. cbn. lia.
  - split; [rewrite <- app_assoc; by apply prefix_app_r|]. by repeat split.
Qed.

End Work.

Section Batch.
Context `{Host}.

Lemma applySingletonKeyConfig_run s :
  applySingletonKeyConfig s = (Ok tt, {| config := singletonKeyConfig (config s); proc := proc s |}).
Proof.
  unfold applySingletonKeyConfig, singletonKeyConfig, when_on, if_on, bind at 1.
  unfold bind at 1. rewrite read_run.
  by destruct (_ && _).
Qed.

Lemma singletonKeyConfig_singletonKey o :
  (singletonKeyConfig o).["singletonKey"] = singletonKey_of o.
Proof.
  unfold singletonKeyConfig, singletonKey_of. rewrite prop_delete_ne by done.
  destruct (_ && _); [by rewrite prop_insert_eq | done].
Qed.

Lemma singletonKeyConfig_other o k :
  k ∉ ["singletonKey"; "useSingletonQueue"] → singletonKeyConfig o !! k = o !! k.
Proof.
  intros Hk. repeat (apply not_elem_of_cons in Hk as [? Hk]).
  unfold singletonKeyConfig. rewrite lookup_delete_ne by done.
  destruct (_ && _); [by rewrite lookup_insert_ne | done].
Qed.

Lemma singletonKeyConfig_idempotent o :
  singletonKeyConfig (singletonKeyConfig o) = singletonKeyConfig o.
Proof.
  unfold singletonKeyConfig at 1.
  assert ((singletonKeyConfig o).["useSingletonQueue"] = VUndefined) as ->.
  { unfold singletonKeyConfig, prop. by rewrite lookup_delete_eq. }
  rewrite andb_false_r. cbn [andb].
  unfold singletonKeyConfig. by rewrite delete_delete_eq.
Qed.

Lemma spread_app job h h' : refers_within job h → spread job (h ++ h') = spread job h.
Proof.
  intros Hl. destruct job as [[]|l|]; try done.
  unfold spread, deref. by rewrite lookup_app_l by (by apply Hl).
Qed.

Lemma checkInsertArgs_run jobs w :
  Forall (λ job, refers_within job (heap w)) jobs →
  checkInsertArgs (JobsArray jobs) w =
  (Ok (seq (length (heap w)) (length jobs)),
   {| heap := heap w ++ ((λ job, singletonKeyConfig (spread job (heap w))) <$> jobs);
      wproc := wproc w; db := db w |}).
Proof.
  unfold checkInsertArgs.
  assert (∀ h0 h1 p d,
    Forall (λ job, refers_within job h0) jobs →
    mapM (λ job, copy ← gets (spread job); job ← alloc copy;
                 zoom job applySingletonKeyConfig;; ret job) jobs
      {| heap := h0 ++ h1; wproc := p; db := d |} =
    (Ok (seq (length (h0 ++ h1)) (length jobs)),
     {| heap := (h0 ++ h1) ++ ((λ job, singletonKeyConfig (spread job h0)) <$> jobs);
        wproc := p; db := d |})) as Hgen.
  { induction jobs as [|job jobs IH]; intros h0 h1 p d Hjobs.
    - cbn. by rewrite app_nil_r.
    - apply Forall_cons in Hjobs as [Hjob Hjobs].
      cbn [mapM]. unfold bind at 1. rewrite bind_gets.
      pose proof (alloc_zoom_run (spread job (h0 ++ h1)) applySingletonKeyConfig (λ l, l)
                    {| heap := h0 ++ h1; wproc := p; db := d |}) as Hz.
      cbv beta zeta in Hz. cbn [heap wproc db] in Hz |- *. rewrite Hz. clear Hz.
      rewrite applySingletonKeyConfig_run. cbn [fst snd config proc heap wproc db].
      rewrite (spread_app _ _ _ Hjob). unfold bind at 1.
      rewrite <- app_assoc. rewrite (IH h0 _ p d Hjobs). cbn [ret].
      rewrite !length_app. cbn [length fmap list_fmap seq].
      replace (length h0 + (length h1 + 1))%nat with (S (length h0 + length h1)) by lia.
      unfold ret. by rewrite <- !app_assoc. }
  intros Hjobs. destruct w as [h p d]. cbn [heap wproc db] in *.
  specialize (Hgen h [] p d Hjobs). by rewrite !app_nil_r in Hgen.
Qed.

(** X21: [checkInsertArgs] on an array of jobs never fails: it returns one
    new object per job, in order, a copy of the job in which
    [singletonKey] is prefixed with the singleton queue key when the job
    asks for the singleton queue, and [useSingletonQueue] is removed;
    every other property is the job's, and no warning is emitted. *)
Theorem X21_checkInsertArgs_result jobs w :
  Forall (λ job, refers_within job (heap w)) jobs →
  ∃ copies w',
    checkInsertArgs (JobsArray jobs) w = (Ok copies, w') ∧
    length copies = length jobs ∧ wproc w' = wproc w ∧ db w' = db w ∧
    ∀ i job, jobs !! i = Some job →
      let given := spread job (heap w) in
      let resolved := deref (length (heap w) + i) (heap w') in
      copies !! i = Some (length (heap w) + i)%nat ∧
      resolved.["singletonKey"] =
        (if truthy given.["singletonKey"] && truthy given.["useSingletonQueue"] &&
            negb (strict_eq given.["singletonKey"] SINGLETON_QUEUE_KEY)
         then VStr (SINGLETON_QUEUE_KEY +:+ ToString given.["singletonKey"])
         else given.["singletonKey"]) ∧
      has "useSingletonQueue" resolved = false ∧
      ∀ k, k ∉ ["singletonKey"; "useSingletonQueue"] → resolved !! k = given !! k.
Proof.
  intros Hjobs. eexists _, _. split; [by apply checkInsertArgs_run|].
  split; [by rewrite length_seq|]. split; [done|]. split; [done|].
  intros i job Hi given resolved. cbn [heap] in *.
  assert (resolved = singletonKeyConfig given) as ->.
  { unfold resolved, deref. rewrite lookup_app_r by lia.
    replace (length (heap w) + i - length (heap w))%nat with i by lia.
    by rewrite list_lookup_fmap, Hi. }
  split; [| split; [| split]].
  - apply lookup_seq. split; [done|]. by eapply lookup_lt_Some.
  - apply singletonKeyConfig_singletonKey.
  - unfold singletonKeyConfig. apply has_delete_eq.
  - intros k Hk. by apply singletonKeyConfig_other.
Qed.

(** X22: [applySingletonKeyConfig] never fails, and applying it a second
    time changes nothing: the key is not prefixed twice. *)
Theorem X22_applySingletonKeyConfig_twice s :
  (applySingletonKeyConfig s).1 = Ok tt ∧
  (applySingletonKeyConfig;; applySingletonKeyConfig) s = applySingletonKeyConfig s.
Proof.
  split; [by rewrite applySingletonKeyConfig_run|].
  unfold bind. rewrite !applySingletonKeyConfig_run. cbn [config proc].
  by rewrite singletonKeyConfig_idempotent.
Qed.

End Batch.

(** ** Queue names in patterns *)

Lemma append_cons x (a b : string) : String x a +:+ b = String x (a +:+ b).
Proof. reflexivity. Qed.

Lemma append_assoc (a b c : string) : (a +:+ b) +:+ c = a +:+ (b +:+ c).
Proof. induction a as [|x a IH]; [done | by rewrite !append_cons, IH]. Qed.

Lemma sanitize_app a b :
  sanitizeQueueNameForFetch (a +:+ b) =
  sanitizeQueueNameForFetch a +:+ sanitizeQueueNameForFetch b.
Proof.
  induction a as [|c a IH]; [done|].
  rewrite append_cons. cbn [sanitizeQueueNameForFetch]. rewrite IH.
  destruct (sanitize_match c); [| done].
  by rewrite append_assoc.
Qed.

Lemma sanitize_match_spec c :
  sanitize_match c = true ↔ c = "%"%char ∨ c = "_"%char ∨ c = "*"%char.
Proof.
  unfold sanitize_match. rewrite !orb_true_iff, !Ascii.eqb_eq. tauto.
Qed.

Lemma sanitize_cons c a :
  sanitizeQueueNameForFetch (String c a) =
  if Ascii.eqb c "*" then String "%" (sanitizeQueueNameForFetch a)
  else if sanitize_match c then String backslash (String c (sanitizeQueueNameForFetch a))
  else String c (sanitizeQueueNameForFetch a).
Proof.
  cbn [sanitizeQueueNameForFetch]. destruct (Ascii.eqb_spec c "*") as [-> |]; [done|].
  by destruct (sanitize_match c).
Qed.

Lemma sanitize_no_star a :
  "*"%char ∉ String.list_ascii_of_string (sanitizeQueueNameForFetch a).
Proof.
  induction a as [|c a IH]; [apply not_elem_of_nil|].
  rewrite sanitize_cons.
  destruct (Ascii.eqb_spec c "*") as [-> | Hstar].
  - cbn. apply not_elem_of_cons. by split.
  - destruct (sanitize_match c); cbn; repeat (apply not_elem_of_cons; split; [done|]);
      exact IH.
Qed.

Lemma sanitize_length a :
  String.length (sanitizeQueueNameForFetch a) =
    (String.length a +
     length (filter (λ c, c = "%"%char ∨ c = "_"%char) (String.list_ascii_of_string a)))%nat.
Proof.
  induction a as [|c a IH]; [done|].
  rewrite sanitize_cons. cbn [String.list_ascii_of_string String.length].
  destruct (Ascii.eqb_spec c "*") as [-> | Hstar].
  - cbn [String.length]. rewrite IH, filter_cons_False; [done|]. by intros [? | ?].
  - destruct (sanitize_match c) eqn:Hm.
    + apply sanitize_match_spec in Hm as [-> | [-> | ->]]; [| | done];
        cbn [String.length]; rewrite IH, filter_cons_True by tauto; cbn [length]; lia.
    + cbn [String.length]. rewrite IH, filter_cons_False; [done|].
      intros Hc. apply not_true_iff_false in Hm. apply Hm, sanitize_match_spec. tauto.
Qed.

(** X23: [sanitizeQueueNameForFetch] works character by character (the
    result for a concatenation is the concatenation of the results), its
    result has no star, and is longer than the name by the number of
    percent signs and underscores in it. *)
Theorem X23_sanitize_characters a b :
  sanitizeQueueNameForFetch (a +:+ b) =
    sanitizeQueueNameForFetch a +:+ sanitizeQueueNameForFetch b ∧
  ("*"%char ∉ String.list_ascii_of_string (sanitizeQueueNameForFetch a)) ∧
  String.length (sanitizeQueueNameForFetch a) =
    (String.length a +
     length (filter (λ c, c = "%"%char ∨ c = "_"%char) (String.list_ascii_of_string a)))%nat.
Proof.
  split; [apply sanitize_app|]. split; [apply sanitize_no_star | apply sanitize_length].
Qed.

(** X24: [sanitizeQueueNameForFetch] returns the name itself exactly when
    the name has no percent sign, underscore or star. *)
Theorem X24_sanitize_identity name :
  sanitizeQueueNameForFetch name = name ↔
  ∀ c, c ∈ String.list_ascii_of_string name → sanitize_match c = false.
Proof.
  split.
  - intros Hid c Hc.
    pose proof (sanitize_no_star name) as Hstar.
    pose proof (sanitize_length name) as Hlen.
    rewrite Hid in Hstar, Hlen.
    assert (filter (λ c, c = "%"%char ∨ c = "_"%char) (String.list_ascii_of_string name) = [])
      as Hnone by (apply length_zero_iff_nil; lia).
    destruct (sanitize_match c) eqn:Hm; [| done].
    apply sanitize_match_spec in Hm as [-> | [-> | ->]].
    + assert ("%"%char ∈ filter (λ c, c = "%"%char ∨ c = "_"%char)
                          (String.list_ascii_of_string name)) as Hin
        by (apply list_elem_of_filter; tauto).
      rewrite Hnone in Hin. by apply elem_of_nil in Hin.
    + assert ("_"%char ∈ filter (λ c, c = "%"%char ∨ c = "_"%char)
                          (String.list_ascii_of_string name)) as Hin
        by (apply list_elem_of_filter; tauto).
      rewrite Hnone in Hin. by apply elem_of_nil in Hin.
    + done.
  - induction name as [|c name IH]; [done|]. intros Hall.
    cbn [sanitizeQueueNameForFetch]. rewrite (Hall c) by apply list_elem_of_here.
    rewrite IH; [done|]. intros c' Hc'. apply Hall. by apply list_elem_of_further.
Qed.

Section FetchArgs.
Context `{Host}.

(** X25: [checkFetchArgs] leaves the world as it is and returns the
    sanitized name; it returns exactly when the name is not empty, the
    batch size is falsy or an integer of at least 1, and the two flags
    are booleans when the options have them. *)
Theorem X25_checkFetchArgs name batchSize options w :
  let r := checkFetchArgs name batchSize options w in
  r.2 = w ∧
  (∀ s, r.1 = Ok s → s = sanitizeQueueNameForFetch name) ∧
  ((∃ s, r.1 = Ok s) ↔
   name ≠ EmptyString ∧
   (truthy batchSize = false ∨ ∃ n, batchSize = VInt n ∧ 1 ≤ n) ∧
   (∀ k v, k ∈ ["includeMetadata"; "enforceSingletonQueueActiveLimit"] →
           options !! k = Some v → ∃ b, v = VBool b)).
Proof.
  intros r. subst r. unfold checkFetchArgs.
  assert (truthy (VStr name) = true ↔ name ≠ EmptyString) as Hname.
  { destruct name; cbn; split; done. }
  assert (js_not batchSize || isInteger batchSize && js_ge batchSize (VInt 1) = true ↔
          truthy batchSize = false ∨ ∃ n, batchSize = VInt n ∧ 1 ≤ n) as Hbatch.
  { unfold js_not. rewrite orb_true_iff, negb_true_iff, andb_true_iff. split.
    - intros [? | [Hint Hge]]; [by left | right].
      destruct batchSize as [| | |[n|]| |]; try discriminate Hint. exists n. split; [done|].
      unfold js_ge, js_le in Hge. cbn in Hge. by apply Z.leb_le.
    - intros [? | (n & -> & Hn)]; [by left | right]. split; [done|].
      unfold js_ge, js_le. cbn. by apply Z.leb_le. }
  assert (∀ k, boolean_if_present k options = true ↔
               ∀ v, options !! k = Some v → ∃ b, v = VBool b) as Hbool.
  { intros k. split; [intros Hk v Hv; by eapply boolean_if_present_Some|].
    intros Hk. unfold boolean_if_present, has, prop.
    destruct (options !! k) as [v|] eqn:Hv.
    - destruct (Hk v eq_refl) as (b & ->). cbn. by rewrite ?orb_true_r.
    - rewrite bool_decide_eq_false_2; [done|]. by intros [? ?]. }
  destruct (truthy (VStr name)) eqn:E1; cbn [assert]; rewrite ?bind_ret, ?bind_throw.
  2: { cbn. split; [done|]. split; [done|]. split; [by intros [? ?]|].
       intros [Hn _]. apply Hname in Hn. congruence. }
  cbv zeta.
  destruct (js_not batchSize || _) eqn:E2; cbn [assert]; rewrite ?bind_ret, ?bind_throw.
  2: { cbn. split; [done|]. split; [done|]. split; [by intros [? ?]|].
       intros (_ & Hb & _). apply Hbatch in Hb. congruence. }
  destruct (boolean_if_present "includeMetadata" options) eqn:E3; cbn [assert];
    rewrite ?bind_ret, ?bind_throw.
  2: { cbn. split; [done|]. split; [done|]. split; [by intros [? ?]|].
       intros (_ & _ & Hk). apply not_true_iff_false in E3. destruct E3.
       apply Hbool. intros v. apply Hk. apply list_elem_of_here. }
  destruct (boolean_if_present "enforceSingletonQueueActiveLimit" options) eqn:E4; cbn [assert];
    rewrite ?bind_ret, ?bind_throw.
  2: { cbn. split; [done|]. split; [done|]. split; [by intros [? ?]|].
       intros (_ & _ & Hk). apply not_true_iff_false in E4. destruct E4.
       apply Hbool. intros v. apply Hk. apply list_elem_of_further, list_elem_of_here. }
  cbn. split; [done|]. split; [by intros s [= <-]|]. split; [intros _ | by eauto].
  split; [by apply Hname|]. split; [by apply Hbatch|].
  intros k v Hk. repeat (apply elem_of_cons in Hk as [-> | Hk]).
  - by apply Hbool.
  - by apply Hbool.
  - by apply elem_of_nil in Hk.
Qed.

End FetchArgs.

(** * The theorems on inputs *)

Module Examples.
Import Sample.
#[local] Existing Instance ExampleHost.host.
#[local] Existing Instance ExamplePostgres.postgres.

Lemma C1_singleton_window_witness :
  let w := world_of {[ "singletonSeconds" := VInt 10 ]} in
  (deref 1 (heap (checkSendArgs tuple archiving w).2)).["singletonSeconds"] = VInt (10 * 60).
Proof.
  intros w.
  assert (checkSendArgs tuple archiving w =
          (Ok {| name := Prim (VStr "q"); data := undefined; options := 1 |},
           (checkSendArgs tuple archiving w).2)) as Hrun by (by vm_compute).
  destruct (C1_singleton_window tuple archiving w _ _ Hrun) as (_ & _ & Hseconds & _).
  apply (Hseconds 10); [by vm_compute | by vm_compute | by vm_compute | lia | by vm_compute].
Defined.

Lemma C5_retry_corrections_witness :
  let w := world_of {[ "retryBackoff" := VBool true ]} in
  let resolved := deref 1 (heap (checkSendArgs tuple plain w).2) in
  resolved.["retryDelay"] = VInt 1 ∧ resolved.["retryLimit"] = VInt 1.
Proof.
  intros w resolved.
  assert (checkSendArgs tuple plain w =
          (Ok {| name := Prim (VStr "q"); data := undefined; options := 1 |},
           (checkSendArgs tuple plain w).2)) as Hrun by (by vm_compute).
  destruct (C5_retry_corrections tuple plain w _ _ Hrun) as [Hdelay Hlimit].
  split.
  - apply Hdelay; [by vm_compute | left; by vm_compute].
  - apply Hlimit; [by vm_compute | left; by vm_compute].
Defined.

Lemma C6_expiration_witness :
  (let hours := world_of {[ "expireInHours" := VInt 1; "expireInMinutes" := VInt 90 ]} in
   (deref 1 (heap (checkSendArgs tuple plain hours).2)).["expireIn"] = VStr "1 hours") ∧
  (let zero := world_of {[ "expireInSeconds" := VInt 0 ]} in
   ∃ e, (checkSendArgs tuple plain zero).1 = Throw e ∧ validation e = true).
Proof.
  split.
  - intros hours.
    assert (checkSendArgs tuple plain hours =
            (Ok {| name := Prim (VStr "q"); data := undefined; options := 1 |},
             (checkSendArgs tuple plain hours).2)) as Hrun by (by vm_compute).
    destruct (C6_expiration tuple plain hours) as [Hok _].
    etrans; [exact (Hok _ _ Hrun) | by vm_compute].
  - intros zero. destruct (C6_expiration tuple plain zero) as [_ Hfail].
    apply (Hfail "expireInSeconds"); [| by vm_compute | by vm_compute].
    do 2 apply list_elem_of_further. apply list_elem_of_here.
Defined.

(** Without the three units and with defaults that have no [expireIn],
    the resolved [expireIn] is undefined, not "15 minutes". *)
Lemma C6_counterexample :
  let r := checkSendArgs (ArgsArray [Prim (VStr "q")]) plain world0 in
  r.1 = Ok {| name := Prim (VStr "q"); data := undefined; options := 1 |} ∧
  plain.["expireIn"] = VUndefined ∧
  (deref 1 (heap r.2)).["expireIn"] = VUndefined ∧
  (deref 1 (heap r.2)).["expireIn"] ≠ VStr "15 minutes".
Proof. cbv zeta. repeat split; by vm_compute. Qed.

Lemma C8_caller_objects_unchanged_witness :
  let o : obj := {[ "singletonKey" := VStr "k"; "useSingletonQueue" := VBool true ]} in
  heap (checkSendArgs tuple plain (world_of o)).2 !! 0%nat = Some o ∧
  heap (checkInsertArgs (JobsArray [Ref 0]) (world_of o)).2 !! 0%nat = Some o.
Proof.
  intros o.
  exact (C8_caller_objects_unchanged tuple plain (JobsArray [Ref 0]) (world_of o)
           0%nat o eq_refl).
Defined.

Lemma C10_archive_check_on_supplied_seconds_witness :
  (let w := world_of {[ "singletonSeconds" := VInt 10 ]} in
   ∃ e, (checkSendArgs tuple plain w).1 = Throw e ∧ validation e = true) ∧
  (let w := world_of {[ "singletonHours" := VInt 2 ]} in
   ∀ e, (checkSendArgs tuple archiving w).1 = Throw e → archive_check e = false).
Proof.
  split.
  - intros w. destruct (C10_archive_check_on_supplied_seconds tuple plain w) as (Hfail & _).
    apply (Hfail 10); [by vm_compute | lia | by vm_compute].
  - intros w.
    destruct (C10_archive_check_on_supplied_seconds tuple archiving w) as (_ & _ & Hpass).
    apply Hpass. by vm_compute.
Defined.

Lemma C2_identifier_iff_inserted_witness :
  let o : obj :=
    {[ "singletonKey" := VStr "k"; "singletonSeconds" := VInt 600; "priority" := VInt 0;
       "retryLimit" := VInt 0; "retryDelay" := VInt 0; "retryBackoff" := VBool false ]} in
  let w := stored o in
  ∃ w1 table1,
    createJob plain id1 1200 (Prim (VStr "q")) undefined (Some 0%nat) w =
      (Ok [Prim (VStr id1)], w1) ∧
    createJob plain id2 1500 (Prim (VStr "q")) undefined (Some 0%nat) w1 = (Ok [], w1) ∧
    db w1 !! "pgboss" = Some table1 ∧
    length (filter (holds_slot (Prim (VStr "q")) (Prim (VStr "k")) (Some 1200)) table1) = 1%nat.
Proof.
  intros o w.
  assert (db w !! ToString plain.["schema"] = Some []) as Htable by (by vm_compute).
  destruct (C2_identifier_iff_inserted plain (Prim (VStr "q")) w [] Htable) as (_ & _ & Htwo).
  apply (Htwo id1 id2 1200 1500 undefined undefined 0%nat 0%nat "k" 600
           (newJob (insertValues id1 (Prim (VStr "q")) undefined (Some o)) 1200 (Some 1200))
           (newJob (insertValues id2 (Prim (VStr "q")) undefined (Some o)) 1500 (Some 1200)));
    try (by vm_compute).
  intros r Hr. by apply elem_of_nil in Hr.
Defined.


Lemma X1_resolved_shape_witness :
  let w := world_of {[ "retryLimit" := VInt 2; "team" := VStr "a" ]} in
  let resolved := deref 1 (heap (checkSendArgs tuple plain w).2) in
  has "startAfter" resolved = true ∧ has "useSingletonQueue" resolved = false ∧
  resolved !! "team" = Some (VStr "a").
Proof.
  intros w resolved.
  assert (checkSendArgs tuple plain w =
          (Ok {| name := Prim (VStr "q"); data := undefined; options := 1 |},
           (checkSendArgs tuple plain w).2)) as Hrun by (by vm_compute).
  destruct (X1_resolved_shape tuple plain w _ _ Hrun) as (Hall & Hnone & Hother).
  split; [apply Hall; apply (bool_decide_unpack _); by vm_compute|].
  split; [exact Hnone|].
  etrans; [apply Hother; apply (bool_decide_unpack _); by vm_compute | by vm_compute].
Defined.

Lemma X2_startAfter_witness :
  (let w := world_of {[ "startAfter" := VInt 30 ]} in
   (deref 1 (heap (checkSendArgs tuple plain w).2)).["startAfter"] = VStr "30") ∧
  (let w := world_of {[ "startAfter" := VInt 0 ]} in
   (deref 1 (heap (checkSendArgs tuple plain w).2)).["startAfter"] = VNull).
Proof.
  split; intros w.
  - assert (checkSendArgs tuple plain w =
            (Ok {| name := Prim (VStr "q"); data := undefined; options := 1 |},
             (checkSendArgs tuple plain w).2)) as Hrun by (by vm_compute).
    destruct (X2_startAfter tuple plain w _ _ Hrun) as (_ & _ & Hint & _).
    etrans; [apply (Hint 30); by vm_compute | by vm_compute].
  - assert (checkSendArgs tuple plain w =
            (Ok {| name := Prim (VStr "q"); data := undefined; options := 1 |},
             (checkSendArgs tuple plain w).2)) as Hrun by (by vm_compute).
    destruct (X2_startAfter tuple plain w _ _ Hrun) as (_ & _ & Hint & _).
    etrans; [apply (Hint 0); by vm_compute | by vm_compute].
Defined.

Lemma X3_priority_onComplete_witness :
  (let w := world_of {[ "onComplete" := VBool true ]} in
   let resolved := deref 1 (heap (checkSendArgs tuple plain w).2) in
   resolved.["priority"] = VInt 0 ∧ resolved.["onComplete"] = VBool true) ∧
  (let w := world_of {[ "priority" := VStr "high" ]} in
   ∃ e, (checkSendArgs tuple plain w).1 = Throw e ∧ validation e = true).
Proof.
  split; intros w.
  - intros resolved.
    assert (checkSendArgs tuple plain w =
            (Ok {| name := Prim (VStr "q"); data := undefined; options := 1 |},
             (checkSendArgs tuple plain w).2)) as Hrun by (by vm_compute).
    destruct (X3_priority_onComplete tuple plain w) as (Hok & _).
    destruct (Hok _ _ Hrun) as ((n & Hn & _ & Hnone) & Hsome & _).
    split.
    + etrans; [exact Hn|]. f_equal. apply Hnone. by vm_compute.
    + destruct Hsome as (b & Hb & Hres); [by vm_compute|].
      etrans; [exact Hres|]. etrans; [symmetry; exact Hb | by vm_compute].
  - destruct (X3_priority_onComplete tuple plain w) as (_ & Hprio & _).
    apply Hprio; by vm_compute.
Defined.

Lemma X4_retry_invariant_witness :
  let w := world_of {[ "retryDelay" := VInt 5 ]} in
  truthy (deref 1 (heap (checkSendArgs tuple plain w).2)).["retryLimit"] = true.
Proof.
  intros w.
  assert (checkSendArgs tuple plain w =
          (Ok {| name := Prim (VStr "q"); data := undefined; options := 1 |},
           (checkSendArgs tuple plain w).2)) as Hrun by (by vm_compute).
  destruct (X4_retry_invariant tuple plain w _ _ Hrun) as (_ & Hlimit & _).
  apply Hlimit. by vm_compute.
Defined.

Lemma X5_keepUntil_witness :
  (let days := world_of {[ "retentionDays" := VInt 2; "retentionHours" := VInt 5 ]} in
   (deref 1 (heap (checkSendArgs tuple plain days).2)).["keepUntil"] = VStr "2 days") ∧
  (let zero := world_of {[ "retentionSeconds" := VInt 0 ]} in
   ∃ e, (checkSendArgs tuple plain zero).1 = Throw e ∧ validation e = true).
Proof.
  split.
  - intros days.
    assert (checkSendArgs tuple plain days =
            (Ok {| name := Prim (VStr "q"); data := undefined; options := 1 |},
             (checkSendArgs tuple plain days).2)) as Hrun by (by vm_compute).
    destruct (X5_keepUntil tuple plain days) as [Hok _].
    etrans; [exact (Hok _ _ Hrun) | by vm_compute].
  - intros zero. destruct (X5_keepUntil tuple plain zero) as [_ Hfail].
    apply (Hfail "retentionSeconds"); [| by vm_compute | by vm_compute].
    do 3 apply list_elem_of_further. apply list_elem_of_here.
Defined.

Lemma X6_singletonSeconds_positive_witness :
  let w := world_of {[ "singletonMinutes" := VInt 2 ]} in
  let resolved := (deref 1 (heap (checkSendArgs tuple plain w).2)).["singletonSeconds"] in
  resolved = VNull ∨ (typeof resolved = "number" ∧ js_gt resolved (VInt 0) = true).
Proof.
  intros w.
  assert (checkSendArgs tuple plain w =
          (Ok {| name := Prim (VStr "q"); data := undefined; options := 1 |},
           (checkSendArgs tuple plain w).2)) as Hrun by (by vm_compute).
  exact (X6_singletonSeconds_positive tuple plain w _ _ Hrun).
Defined.

Lemma X7_checkSendArgs_arguments_witness :
  (checkSendArgs (ArgsArray [Prim (VInt 3)]) plain world0).1 =
    Throw (AssertionError "boss requires all jobs to have a queue name") ∧
  checkSendArgs (ArgsArray [Prim (VStr "q"); Fun]) plain world0 =
    (Throw (Error "send() cannot accept a function as the payload. Did you intend to use work()?"),
     world0).
Proof.
  split.
  - destruct (X7_checkSendArgs_arguments [Prim (VInt 3)] plain world0) as (Hname & _).
    apply Hname. by vm_compute.
  - destruct (X7_checkSendArgs_arguments [Prim (VStr "q"); Fun] plain world0)
      as (_ & _ & Hfun & _).
    apply Hfun; by vm_compute.
Defined.

Lemma X8_submit_outcome_witness :
  let w := stored ∅ in
  let r := submit plain id1 100 (Send [Prim (VStr "q")]) w in
  heap w `prefix_of` heap r.2 ∧ db r.2 !! "archive" = db w !! "archive".
Proof.
  intros w r.
  destruct (X8_submit_outcome plain id1 100 (Send [Prim (VStr "q")]) w)
    as (Hheap & Hother & _).
  split; [exact Hheap|]. apply Hother. by vm_compute.
Defined.

Lemma X9_helper_rows_witness :
  let r := sendSingleton plain id1 100 (VStr "q") undefined undefined (stored ∅) in
  ∃ table j, db r.2 !! "pgboss" = Some (table ++ [j]) ∧ job_name j = Prim (VStr "q") ∧
             job_singletonKey j = Prim (VStr SINGLETON_QUEUE_KEY).
Proof.
  intros r.
  destruct (X9_helper_rows plain id1 100 (VStr "q") undefined undefined (stored ∅))
    as (_ & Hsingleton & _).
  apply Hsingleton. by vm_compute.
Defined.

Lemma X10_row_intervals_witness :
  let w := stored {[ "expireInHours" := VInt 2 ]} in
  let r := submit plain id1 100 (SendSingleton (VStr "q") undefined (Ref 0)) w in
  ∃ table j, db r.2 !! "pgboss" = Some (table ++ [j]) ∧
             job_expireIn j = Prim (VStr "2 hours") ∧
             job_keepUntilValue j = Prim (VStr "14 days").
Proof.
  intros w r.
  assert (submit plain id1 100 (SendSingleton (VStr "q") undefined (Ref 0)) w =
          (Ok [Prim (VStr id1)], r.2)) as Hrun by (by vm_compute).
  destruct (X10_row_intervals plain id1 100 _ w _ Hrun) as (table & j & Hdb & He & Hk).
  exists table, j. split; [exact Hdb|].
  split; (etrans; [eassumption | by vm_compute]).
Defined.

Lemma X11_bucket_witness :
  singletonOn 125 (Prim (VInt 60)) (Prim (VInt 0)) = Ok (Some 120) ∧
  ∀ now, singletonOn now (Prim (VInt 60)) (Prim (VInt 0)) = Ok (Some 120) ↔
         120 ≤ now + 0 < 120 + 60.
Proof.
  destruct (X11_bucket 125 60 0) as (b & Hb & _ & _ & Hsame); [lia|].
  assert (b = 120) as -> by (vm_compute in Hb; congruence).
  split; [exact Hb | exact Hsame].
Defined.

Lemma X12_getConfig_world_witness :
  getConfig (Prim (VInt 5)) world0 =
    (Throw (AssertionError
       "configuration assert: string or config object is required to connect to postgres"),
     world0) ∧
  (∃ c, heap (getConfig (Ref 0) (world_of plain)).2 = [plain; c]).
Proof.
  split.
  - destruct (X12_getConfig_world (Prim (VInt 5)) world0) as (_ & Hrefused & _).
    apply Hrefused. by vm_compute.
  - destruct (X12_getConfig_world (Ref 0) (world_of plain)) as (_ & _ & Haccepted).
    destruct Haccepted as [Hheap _]; [by vm_compute | exact Hheap].
Defined.

Lemma X13_getConfig_connection_string_witness :
  let r := getConfig (Prim (VStr "postgres://localhost/jobs")) world0 in
  r.1 = Ok 0%nat ∧ (deref 0 (heap r.2)).["deleteAfter"] = VStr "7 days" ∧ wproc r.2 = process0.
Proof.
  intros r. subst r.
  rewrite (X13_getConfig_connection_string "postgres://localhost/jobs" world0) by done.
  repeat split; by vm_compute.
Defined.

Lemma X14_getConfig_schema_witness :
  let w := world_of {[ "schema" := VStr "jobs" ]} in
  (deref 1 (heap (getConfig (Ref 0) w).2)).["schema"] = VStr "jobs".
Proof.
  intros w.
  assert (getConfig (Ref 0) w = (Ok 1%nat, (getConfig (Ref 0) w).2)) as Hrun by (by vm_compute).
  destruct (X14_getConfig_schema (Ref 0) w _ _ Hrun) as (name & Hschema & _ & _ & _ & Hobj & _).
  etrans; [exact Hschema|]. f_equal. etrans; [exact (Hobj 0%nat eq_refl) | by vm_compute].
Defined.

Lemma X15_getConfig_archive_witness :
  let w := world_of {[ "archiveCompletedAfterSeconds" := VInt 30 ]} in
  let resolved := deref 1 (heap (getConfig (Ref 0) w).2) in
  resolved.["archiveFailedSeconds"] = VInt 30 ∧
  resolved.["archiveFailedInterval"] = VStr "30 seconds".
Proof.
  intros w resolved.
  assert (getConfig (Ref 0) w = (Ok 1%nat, (getConfig (Ref 0) w).2)) as Hrun by (by vm_compute).
  destruct (X15_getConfig_archive (Ref 0) w _ _ Hrun) as (Ha & Hf & _ & Hfi & _).
  split.
  - etrans; [exact Hf|]. etrans; [| exact Ha]. by vm_compute.
  - etrans; [exact Hfi | by vm_compute].
Defined.

Lemma X16_getConfig_warnings_witness :
  let w := world_of {[ "archiveCompletedAfterSeconds" := VInt 30 ]} in
  let w' := (getConfig (Ref 0) w).2 in
  count CRON_DISABLED (wproc w') = 1%nat ∧ count EXPIRE_IN_REMOVED (wproc w') = 0%nat.
Proof.
  intros w w'.
  assert (getConfig (Ref 0) w = (Ok 1%nat, w')) as Hrun by (by vm_compute).
  destruct (X16_getConfig_warnings (Ref 0) w _ _ Hrun) as (_ & Hcount).
  destruct (Hcount eq_refl) as (Hcron & Hexpire & _).
  split; (etrans; [eassumption | by vm_compute]).
Defined.

Lemma X17_getConfig_fallbacks_witness :
  let w := world_of {[ "retentionDays" := VInt 3 ]} in
  let resolved := deref 1 (heap (getConfig (Ref 0) w).2) in
  resolved.["expireIn"] = VStr "15 minutes" ∧ resolved.["keepUntil"] = VStr "3 days".
Proof.
  intros w resolved.
  assert (getConfig (Ref 0) w = (Ok 1%nat, (getConfig (Ref 0) w).2)) as Hrun by (by vm_compute).
  destruct (X17_getConfig_fallbacks (Ref 0) w _ _ Hrun) as (He & Hk & _).
  split; (etrans; [eassumption | by vm_compute]).
Defined.

Lemma X18_getConfig_maintenance_witness :
  let w := world_of {[ "maintenanceIntervalMinutes" := VInt 5; "deleteAfterHours" := VInt 6 ]} in
  let resolved := deref 1 (heap (getConfig (Ref 0) w).2) in
  resolved.["maintenanceIntervalSeconds"] = VInt 300 ∧
  resolved.["deleteAfter"] = VStr "6 hours".
Proof.
  intros w resolved.
  assert (getConfig (Ref 0) w = (Ok 1%nat, (getConfig (Ref 0) w).2)) as Hrun by (by vm_compute).
  destruct (X18_getConfig_maintenance (Ref 0) w _ _ Hrun) as (Hm & Hd & _).
  split; (etrans; [eassumption | by vm_compute]).
Defined.

Lemma X19_checkWorkArgs_result_witness :
  let w := world_of {[ "newJobCheckIntervalSeconds" := VInt 3; "teamSize" := VInt 2 ]} in
  let r := checkWorkArgs (VStr "q") (WorkArray [Ref 0; Fun]) plain w in
  let resolved := deref 1 (heap r.2) in
  resolved.["newJobCheckInterval"] = VInt 3000 ∧ resolved !! "teamSize" = Some (VInt 2).
Proof.
  intros w r resolved.
  assert (checkWorkArgs (VStr "q") (WorkArray [Ref 0; Fun]) plain w =
          (Ok {| work_options := 1; work_callback := Fun |}, r.2)) as Hrun by (by vm_compute).
  destruct (X19_checkWorkArgs_result _ _ plain w _ _ Hrun) as (_ & _ & _ & Hi & Hother & _).
  split; [etrans; [exact Hi | by vm_compute]|].
  etrans; [apply Hother; by vm_compute | by vm_compute].
Defined.

Lemma X20_checkWorkArgs_world_witness :
  checkWorkArgs (VStr EmptyString) (WorkOther Fun) plain world0 =
    (Throw (AssertionError "missing job name"), world0) ∧
  (checkWorkArgs (VStr "q") (WorkArray [undefined; Prim (VStr "f")]) plain world0).1 =
    Throw (AssertionError "expected callback to be a function").
Proof.
  split.
  - destruct (X20_checkWorkArgs_world (VStr EmptyString) (WorkOther Fun) plain world0)
      as (_ & _ & _ & _ & Hname & _).
    apply Hname. by vm_compute.
  - destruct (X20_checkWorkArgs_world (VStr "q") (WorkArray [undefined; Prim (VStr "f")])
                plain world0) as (_ & _ & _ & _ & _ & Hcallback).
    apply Hcallback; by vm_compute.
Defined.

Lemma X21_checkInsertArgs_result_witness :
  let w := world_of {[ "singletonKey" := VStr "k"; "useSingletonQueue" := VBool true ]} in
  ∃ w', checkInsertArgs (JobsArray [Ref 0]) w = (Ok [1%nat], w') ∧
        (deref 1 (heap w')).["singletonKey"] = VStr (SINGLETON_QUEUE_KEY +:+ "k") ∧
        has "useSingletonQueue" (deref 1 (heap w')) = false.
Proof.
  intros w.
  destruct (X21_checkInsertArgs_result [Ref 0] w) as (copies & w' & Hrun & Hlen & _ & _ & Hjobs).
  { constructor; [| constructor]. intros l [= <-]. cbn. lia. }
  destruct (Hjobs 0%nat (Ref 0) eq_refl) as (Hcopy & Hkey & Hflag & _).
  destruct copies as [|c [|]]; try discriminate Hlen. injection Hcopy as ->.
  exists w'. split; [exact Hrun|]. split; [| exact Hflag].
  etrans; [exact Hkey | by vm_compute].
Defined.

Lemma X24_sanitize_identity_witness :
  sanitizeQueueNameForFetch "jobs" = "jobs" ∧ sanitizeQueueNameForFetch "a_b" ≠ "a_b".
Proof.
  split.
  - apply X24_sanitize_identity. intros c Hc.
    repeat (apply elem_of_cons in Hc as [-> | Hc]; [reflexivity|]).
    by apply elem_of_nil in Hc.
  - intros Hid.
    assert (sanitize_match "_" = false) as Hmatch; [| discriminate Hmatch].
    apply (proj1 (X24_sanitize_identity "a_b") Hid).
    cbn. apply list_elem_of_further, list_elem_of_here.
Defined.

Lemma X25_checkFetchArgs_witness :
  (∃ s, (checkFetchArgs "a_b" (VInt 5) ∅ world0).1 = Ok s ∧
        s = sanitizeQueueNameForFetch "a_b") ∧
  ¬ ∃ s, (checkFetchArgs "q" (VInt 0) {[ "includeMetadata" := VStr "yes" ]} world0).1 = Ok s.
Proof.
  split.
  - destruct (X25_checkFetchArgs "a_b" (VInt 5) ∅ world0) as (_ & Hvalue & Hreturns).
    destruct (proj2 Hreturns) as (s & Hs).
    { split; [done|]. split; [right; exists 5; split; [done | lia]|].
      intros k v _ Hv. by rewrite lookup_empty in Hv. }
    exists s. split; [exact Hs | exact (Hvalue s Hs)].
  - destruct (X25_checkFetchArgs "q" (VInt 0) {[ "includeMetadata" := VStr "yes" ]} world0)
      as (_ & _ & Hreturns).
    intros Hs. apply Hreturns in Hs as (_ & _ & Hflags).
    destruct (Hflags "includeMetadata" (VStr "yes")) as (b & Hb);
      [apply list_elem_of_here | by vm_compute | discriminate Hb].
Defined.

End Examples.

